(** * Unified scan pipeline of the stock dashboard server (server.js, config.js)

    A shallow embedding of the scan orchestration of [server.js]:
    [getCombinedTrackedSymbols], [fetchQuotes], [fetchAllHistoricalData],
    [analyzeWithPythonService], [analyzeAllStocks],
    [getFastVolumeAccumulators], [fetchAndEmitStockUpdates],
    [checkPythonServiceHealth] and the circuit-breaker event handlers.

    Conventions of the embedding.
    - A JavaScript number that came out of JSON is the rational [Q] it
      stands for; a field that is [undefined], [null] or [NaN] is [None].
      The server computes with numbers in one place, the score of
      [getFastVolumeAccumulators]: there every operation rounds as binary64
      does ([round64]) and may overflow to an infinity ([double]).  The
      comparators of the server only take the sign of a difference of two
      numbers, which is the sign of the exact difference.
    - A promise is described by what it settles to ([Resolved] or
      [Rejected], the latter carrying [error.message]) and by the number of
      milliseconds it takes to settle.
    - The outside world of one scan cycle (database, quote provider, history
      provider, the analysis service behind its circuit breaker, the clock)
      is an explicit record [Env] of answers.
    - What a cycle does to the outside world is a log of [Action]s, in the
      order in which they happen: socket.io emissions, provider calls,
      timers.  The retries of the tasks of a historical chunk that the
      stage has given up are kept apart ([abandonedRetries]): they happen
      later, at a time that the cycle does not wait for. *)

From Stdlib Require Import QArith Qround Qabs Qpower Lqa Lia List Sorted Permutation.
From stdpp Require Import gmap strings list sorting.

(* ===================================================================== *)
(** ** JavaScript values *)
(* ===================================================================== *)

(** A numeric field: [None] is undefined / null / NaN. *)
Definition jsnum : Type := option Q.

(** [x || d] on a numeric field: [0], [NaN], [null] and [undefined] are
    falsy. *)
Definition num_or (x : jsnum) (d : Q) : Q :=
  match x with
  | Some q => if Qeq_bool q 0 then d else q
  | None => d
  end.

(** [!x] on a numeric field. *)
Definition num_falsy (x : jsnum) : bool :=
  match x with
  | Some q => Qeq_bool q 0
  | None => true
  end.

(** [x === 0] on a numeric field. *)
Definition num_is_zero (x : jsnum) : bool :=
  match x with
  | Some q => Qeq_bool q 0
  | None => false
  end.

(** *** Binary64 arithmetic

    The result of an operation on doubles: a finite double, given by its
    value, an infinity, or NaN.  The two zeros are not told apart; nothing
    here divides by a zero or looks at its sign. *)
Inductive double : Type :=
| DFinite (q : Q)
| DInf (negative : bool)
| DNaN.

(** [floor (log2 a)], for [a > 0]. *)
Definition ilog2 (a : Q) : Z :=
  let k := (Z.log2 (Qnum a) - Z.log2 (Z.pos (Qden a)))%Z in
  if Qle_bool (2 ^ k)%Q a then k else (k - 1)%Z.

(** The nearest integer, the even one of two that are equally near. *)
Definition nearest_even (x : Q) : Z :=
  let f := Qfloor x in
  match ((x - inject_Z f) ?= (1 # 2))%Q with
  | Lt => f
  | Gt => (f + 1)%Z
  | Eq => if Z.even f then f else (f + 1)%Z
  end.

(** Rounding to binary64, to nearest, ties to even: 53 bits of precision,
    the unit in the last place no smaller than 2^-1074, and an infinity
    from 2^1024 on. *)
Definition round64 (x : Q) : double :=
  if Qeq_bool x 0 then DFinite 0
  else
    let a := Qabs x in
    let e := Z.max (ilog2 a - 52) (-1074) in
    let m := nearest_even (a / 2 ^ e)%Q in
    let r := (inject_Z m * 2 ^ e)%Q in
    if Qle_bool (2 ^ 1024)%Q r then DInf (Qle_bool x 0)
    else DFinite (Qred (if Qle_bool x 0 then - r else r)).

(** [a / b] on finite numbers, [b] not zero. *)
Definition fl_div (a b : Q) : double := round64 (a / b).

(** [x * y] *)
Definition fl_mul (x y : double) : double :=
  match x, y with
  | DFinite a, DFinite b => round64 (a * b)
  | DInf s, DFinite b | DFinite b, DInf s =>
      if Qeq_bool b 0 then DNaN else DInf (xorb s (Qle_bool b 0))
  | DInf s, DInf s' => DInf (xorb s s')
  | _, _ => DNaN
  end.

(** [x + y] *)
Definition fl_add (x y : double) : double :=
  match x, y with
  | DFinite a, DFinite b => round64 (a + b)
  | DInf s, DFinite _ | DFinite _, DInf s => DInf s
  | DInf s, DInf s' => if Bool.eqb s s' then DInf s else DNaN
  | _, _ => DNaN
  end.

(** [x > 0] *)
Definition double_positive (x : double) : bool :=
  match x with
  | DFinite q => negb (Qle_bool q 0)
  | DInf negative => negb negative
  | DNaN => false
  end.

(** The doubles on a line: a finite double at its value, the infinities at
    2^1024 and -2^1024, beyond every finite double.  The difference [x - y]
    of two doubles, as the doubles compute it, has the sign of the
    difference of their places on this line: two finite doubles that differ
    do not subtract to zero, an infinity minus a finite double is that
    infinity, and the difference of an infinity with itself is NaN, which
    [sort] reads as 0.  (NaN has no place; it is put at 0.) *)
Definition extended (x : double) : Q :=
  match x with
  | DFinite q => q
  | DInf negative => if negative then - 2 ^ 1024 else 2 ^ 1024
  | DNaN => 0
  end.

(** [a || b] on string fields: the empty string is falsy. *)
Definition str_or (a b : option string) : option string :=
  match a with
  | Some s => if String.eqb s "" then b else a
  | None => b
  end.

(** What an awaited promise gives: its value, or the thrown error's
    [message]. *)
Inductive Settled (A : Type) : Type :=
| Resolved (value : A)
| Rejected (message : string).
Arguments Resolved {A} value.
Arguments Rejected {A} message.

(** A pending call to the outside: how long it takes and what it settles
    to. *)
Record Promise (A : Type) : Type := mkPromise {
  settlesAfter : N;          (* milliseconds *)
  settlesTo : Settled A
}.
Arguments mkPromise {A} settlesAfter settlesTo.
Arguments settlesAfter {A} p.
Arguments settlesTo {A} p.

(** [promiseWithTimeout(promise, ms, timeoutError)]: the race of the promise
    against a timer of [ms] milliseconds.  The promise exists before the
    timer is set, so it wins when it settles no later than the timer fires;
    the timer wins only when the promise is still pending then. *)
Definition promiseWithTimeout {A : Type} (promise : Promise A) (ms : N)
    (timeoutError : string) : Settled A :=
  if (settlesAfter promise <=? ms)%N then settlesTo promise
  else Rejected timeoutError.

(** [array.slice(start, end)] for indices [0 <= start <= end]. *)
Definition slice {A : Type} (l : list A) (start stop : nat) : list A :=
  firstn (stop - start) (skipn start l).

(** [array.slice(-n)]: the last [n] elements. *)
Definition slice_last {A : Type} (n : nat) (l : list A) : list A :=
  skipn (length l - n) l.

(** *** Set: insertion-ordered, without duplicates *)

Definition Set_add (s : list string) (x : string) : list string :=
  if bool_decide (x ∈ s) then s else s ++ [x].

(** [new Set(iterable)] followed by further [add]s; [Array.from(set)] is the
    list itself. *)
Definition Set_from (iterable : list string) : list string :=
  foldl Set_add [] iterable.

(** *** Map: [new Map(entries)], a later entry replacing an earlier one *)

Definition Map_from {V : Type} (entries : list (string * V)) : gmap string V :=
  foldl (fun m kv => <[kv.1 := kv.2]> m) ∅ entries.

(** *** Array.prototype.sort

    [sort] is stable and places [a] before [b] when [compareFn a b <= 0];
    every comparator of the server is a difference of numeric keys, for
    which all stable sorts agree.  Insertion from the right keeps equal
    elements in input order. *)
Section JsSort.
Context {A : Type} (compareFn : A -> A -> Q).

Fixpoint sort_insert (x : A) (l : list A) : list A :=
  match l with
  | [] => [x]
  | y :: l' =>
      if Qle_bool (compareFn x y) 0 then x :: y :: l'
      else y :: sort_insert x l'
  end.

Definition js_sort (l : list A) : list A := foldr sort_insert [] l.
End JsSort.

(* ===================================================================== *)
(** ** Data model *)
(* ===================================================================== *)

(** A quote as returned by the provider. *)
Module Quote.
Record t : Type := mk {
  symbol : string;
  longName : option string;
  shortName : option string;
  regularMarketPrice : jsnum;
  regularMarketChangePercent : jsnum;
  regularMarketVolume : jsnum;
  fiftyTwoWeekLow : jsnum;
  fiftyTwoWeekHigh : jsnum;
  currency : option string
}.
End Quote.

(** One daily bar of the historical series. *)
Module Bar.
Record t : Type := mk {
  date : Z;
  open : jsnum;
  high : jsnum;
  low : jsnum;
  close : jsnum;
  volume : jsnum
}.
End Bar.

(** A row of the [strategies] table. *)
Module Strategy.
Record t : Type := mk {
  id : Z;
  name : string;
  field : string;
  operator : string;
  value : Q;
  signal : string
}.
End Strategy.

(** An entry of [customStrategyMatches]. *)
Module Match.
Record t : Type := mk {
  name : string;
  type : option string
}.
End Match.

(** The body of the analysis service's answer.  [indicators] is an object
    of named numbers. *)
Module Analysis.
Record t : Type := mk {
  indicators : option (gmap string Q);
  recommendedSignal : option string;
  signal : option string;
  customStrategyMatches : option (list Match.t)
}.
End Analysis.

(** The POST body sent through the breaker. *)
Module Payload.
Record t : Type := mk {
  quote : Quote.t;
  history : list Bar.t;
  strategies : list Strategy.t
}.
End Payload.

(** The record built by [analyzeAllStocks] for one symbol. *)
Module Stock.
Record t : Type := mk {
  symbol : string;
  name : option string;
  price : jsnum;
  change : jsnum;
  volume : jsnum;
  fiftyTwoWeekLow : jsnum;
  fiftyTwoWeekHigh : jsnum;
  currency : option string;
  rsi : jsnum;
  indicators : option (gmap string Q);
  signal : option string;
  recommendedSignal : option string;
  history : list (Z * jsnum);
  customStrategyMatches : list Match.t
}.
End Stock.

(** [{ ...stock, score }]. *)
Module Scored.
Record t : Type := mk {
  stock : Stock.t;
  score : double
}.
End Scored.

(** An entry of [customStrategyResults]. *)
Module Group.
Record t : Type := mk {
  type : option string;
  stocks : list Stock.t
}.
End Group.

(** config.js *)
Record Config : Type := mkConfig {
  defaultSymbols : list string;
  fnoSymbols : gset string
}.

Definition config : Config :=
  {| defaultSymbols := ["^NSEI"; "RELIANCE.NS"];
     fnoSymbols := {["RELIANCE.NS"]} |}.

(* ===================================================================== *)
(** ** Effects: the log of a cycle and the outside world *)
(* ===================================================================== *)

(** socket.io events, by topic. *)
Inductive Event : Type :=
| scanStatus (message step : string)
| stockUpdate (data : list Stock.t)
| topRecommendationsUpdate (buys sells : list Stock.t)
| customStrategiesUpdate (strategies : gmap string Group.t) (timestamp : string)
| fastVolumeAccumulatorsUpdate (data : list Scored.t)
| fetchError (error : string)
| pythonHealthUpdate (isHealthy : bool).

Inductive Stage : Type := Historical | AnalysisStage.

(** What the server does to the outside. *)
Inductive Action : Type :=
| Emit (e : Event)                                 (* io.emit *)
| SocketEmit (socketId : string) (e : Event)       (* socket.emit *)
| DbAll (sql : string)                             (* db.all *)
| QuoteCall (symbols : list string)                (* yahooFinance.quote *)
| HistoricalCall (symbol : string) (attempt : nat) (* yahooFinance.historical *)
| Backoff (symbol : string) (ms : N)               (* the wait before a retry *)
| Fire (payload : Payload.t)                       (* pythonApiBreaker.fire *)
| Dispatch (stage : Stage) (chunk : list string)   (* a chunk's promises are created *)
| Pause (ms : N).                                  (* the wait between two chunks *)

(** The answers of the outside world during one cycle.  [historical] is
    indexed by the attempt number, [fire] is the analysis request as seen
    through the circuit breaker: its response body ([None] when the body is
    falsy) or the error it throws (breaker open, timeout, HTTP failure). *)
Record Env : Type := mkEnv {
  watchlistRows : Settled (list string);
  strategyRows : Settled (list Strategy.t);
  quote : list string -> Promise (list (option Quote.t));
  historical : string -> nat -> Promise (list Bar.t);
  fire : Payload.t -> Settled (option Analysis.t);
  now : string
}.

(** Computations that log actions and may throw. *)
Definition M (A : Type) : Type := (list Action * Settled A)%type.

#[export] Instance M_ret : MRet M := fun A a => ([], Resolved a).
#[export] Instance M_bind : MBind M := fun A B k m =>
  match m with
  | (log, Resolved a) => let '(log', r) := k a in (log ++ log', r)
  | (log, Rejected e) => (log, Rejected e)
  end.

Definition tell (a : Action) : M unit := ([a], Resolved tt).
Definition await {A : Type} (s : Settled A) : M A := ([], s).

(** [try { m } catch (error) { handler error.message }] *)
Definition try_catch {A : Type} (m : M A) (handler : string -> M A) : M A :=
  match m with
  | (log, Resolved a) => (log, Resolved a)
  | (log, Rejected e) => let '(log', r) := handler e in (log ++ log', r)
  end.

Definition actions {A : Type} (m : M A) : list Action := m.1.
Definition result {A : Type} (m : M A) : Settled A := m.2.

(** The events broadcast with [io.emit], in order. *)
Definition emitted (log : list Action) : list Event :=
  omap (fun a => match a with Emit e => Some e | _ => None end) log.

(* ===================================================================== *)
(** ** The chunk loop

    [for (let i = 0; i < items.length; i += CHUNK_SIZE)] with
    [chunk = items.slice(i, i + CHUNK_SIZE)], the chunk's work, and the
    pause [if (i + CHUNK_SIZE < items.length)].  Both chunked stages are
    this loop; [fuel] bounds the iterations and [length items] of it is
    enough (lemma [chunk_loop_unfold]). *)
(* ===================================================================== *)
Section ChunkLoop.
Context {St : Type} (CHUNK_SIZE : nat) (items : list string).
Context (body : list string -> St -> St) (pause : St -> St).

Definition chunk_iteration (i : nat) (s : St) : St :=
  let chunk := slice items i (i + CHUNK_SIZE) in
  let s1 := body chunk s in
  if i + CHUNK_SIZE <? length items then pause s1 else s1.

Fixpoint chunk_loop (fuel i : nat) (s : St) : St :=
  match fuel with
  | O => s
  | S fuel' =>
      if i <? length items
      then chunk_loop fuel' (i + CHUNK_SIZE) (chunk_iteration i s)
      else s
  end.
End ChunkLoop.

(** [Math.ceil(n / c)] *)
Definition ceil_div (n c : nat) : nat := (n + (c - 1)) / c.

(* ===================================================================== *)
(** ** The stages *)
(* ===================================================================== *)

Definition HISTORICAL_DAYS : nat := 100.

(** [breakerOptions] *)
Record BreakerOptions : Type := mkBreakerOptions {
  timeout : N;
  errorThresholdPercentage : N;
  resetTimeout : N
}.
Definition breakerOptions : BreakerOptions :=
  {| timeout := 15000; errorThresholdPercentage := 50; resetTimeout := 30000 |}.

(** The union of the default symbols and the watchlist symbols; a failing
    database falls back to the defaults. *)
Definition getCombinedTrackedSymbols (cfg : Config) (env : Env) : M (list string) :=
  let allTrackedSymbols := Set_from (defaultSymbols cfg) in
  _ ← tell (DbAll "SELECT DISTINCT symbol FROM watchlists");
  match watchlistRows env with
  | Resolved dbSymbols => mret (foldl Set_add allTrackedSymbols dbSymbols)
  | Rejected _ => mret allTrackedSymbols
  end.

(** One bulk call under a 20 s timeout; an error is thrown on.  The
    provider's answer is taken as an array (a single quote object is the
    one-element array), [None] being a falsy element, which
    [quotes.filter(q => q)] drops. *)
Definition fetchQuotes (env : Env) (symbolsToFetch : list string)
    : M (gmap string Quote.t) :=
  _ ← tell (QuoteCall symbolsToFetch);
  quoteResults ← await (promiseWithTimeout (quote env symbolsToFetch) 20000
                          "Yahoo Finance quote API call timed out");
  let quotes := omap id quoteResults in
  mret (Map_from (map (fun q => (Quote.symbol q, q)) quotes)).

(** The per-symbol task of the historical stage: the result it resolves
    to, the time it takes, and what it does, each action with the number of
    milliseconds since the task was started. *)
Record HistoryTask : Type := mkHistoryTask {
  taskResult : list Bar.t;
  taskTime : N;
  taskSchedule : list (N * Action)
}.

(** What a task does, in the order in which it does it. *)
Definition taskLog (task : HistoryTask) : list Action := map snd (taskSchedule task).

(** A schedule that starts [ms] milliseconds later. *)
Definition delayed (ms : N) (schedule : list (N * Action)) : list (N * Action) :=
  map (fun e => ((ms + e.1)%N, e.2)) schedule.

Definition maxRetries : nat := 2.

(** [for (let attempt = 1; attempt <= maxRetries; attempt++)], with
    [remaining = maxRetries + 1 - attempt] iterations still to run.  The
    call of an attempt is made when the attempt starts; the wait before the
    next attempt starts when the call is refused. *)
Fixpoint historyAttempts (env : Env) (symbol : string) (remaining attempt : nat)
    : HistoryTask :=
  match remaining with
  | O => {| taskResult := []; taskTime := 0; taskSchedule := [] |}
  | S remaining' =>
      let call := historical env symbol attempt in
      match settlesTo call with
      | Resolved history =>
          {| taskResult := history;
             taskTime := settlesAfter call;
             taskSchedule := [(0%N, HistoricalCall symbol attempt)] |}
      | Rejected _ =>
          let rest := historyAttempts env symbol remaining' (S attempt) in
          if attempt <? maxRetries then
            let delay := (500 * N.of_nat attempt)%N in
            {| taskResult := taskResult rest;
               taskTime := settlesAfter call + delay + taskTime rest;
               taskSchedule :=
                 (0%N, HistoricalCall symbol attempt)
                 :: (settlesAfter call, Backoff symbol delay)
                 :: delayed (settlesAfter call + delay) (taskSchedule rest) |}
          else
            {| taskResult := taskResult rest;
               taskTime := settlesAfter call + taskTime rest;
               taskSchedule :=
                 (0%N, HistoricalCall symbol attempt)
                 :: delayed (settlesAfter call) (taskSchedule rest) |}
      end
  end.

Definition historyTask (env : Env) (symbol : string) : HistoryTask :=
  historyAttempts env symbol maxRetries 1.

(** [Promise.all] of tasks that never reject: resolves when the slowest
    has. *)
Definition allTasks (tasks : list HistoryTask) : Promise (list (list Bar.t)) :=
  {| settlesAfter := foldr N.max 0%N (map taskTime tasks);
     settlesTo := Resolved (map taskResult tasks) |}.

(** Timed actions in the order of their times, those of one millisecond in
    the order in which they are listed. *)
Fixpoint schedule_insert (e : N * Action) (schedule : list (N * Action))
    : list (N * Action) :=
  match schedule with
  | [] => [e]
  | e' :: schedule' =>
      if (e.1 <=? e'.1)%N then e :: e' :: schedule'
      else e' :: schedule_insert e schedule'
  end.

Definition inTimeOrder (schedule : list (N * Action)) : list (N * Action) :=
  foldr schedule_insert [] schedule.

(** [chunk.map(async (symbol) => ...)] runs every task up to its first
    [await]: the first calls are made one after the other, in the order of
    the chunk, before anything else happens. *)
Definition chunkStarts (tasks : list HistoryTask) : list Action :=
  concat (map (fun task => map snd (firstn 1 (taskSchedule task))) tasks).

(** What the tasks of a chunk do after that, as time goes by: the waits
    and the second calls of the tasks whose first call was refused. *)
Definition chunkRetries (tasks : list HistoryTask) : list (N * Action) :=
  inTimeOrder (concat (map (fun task => skipn 1 (taskSchedule task)) tasks)).

(** Whether a timed action of a chunk's tasks happens while the stage
    awaits the chunk.  The stage awaits a chunk that settles until all its
    tasks are through; it gives up a chunk that is still pending after
    20 s, and the tasks of that chunk, which nothing cancels, go on by
    themselves. *)
Definition whileAwaited {X : Type} (awaited : Settled X) (e : N * Action) : bool :=
  match awaited with
  | Resolved _ => true
  | Rejected _ => (e.1 <? 20000)%N
  end.

(** The race of a chunk's tasks against the 20 s timer. *)
Definition awaitChunk (chunk : list string) (tasks : list HistoryTask)
    : Settled (list (list Bar.t)) :=
  promiseWithTimeout (allTasks tasks) 20000
    ("Yahoo Finance historical data API call timed out for chunk starting with "
       +:+ default "undefined" (head chunk)).

(** The work on one chunk of the historical stage: the tasks are started
    together and awaited under a 20 s timer; on timeout the whole chunk is
    filled with empty arrays. *)
Definition historicalChunk (env : Env) (chunk : list string)
    (s : list Action * list (list Bar.t)) : list Action * list (list Bar.t) :=
  let tasks := map (historyTask env) chunk in
  let awaited := awaitChunk chunk tasks in
  let log :=
    s.1 ++ Dispatch Historical chunk :: chunkStarts tasks
        ++ map snd (List.filter (whileAwaited awaited) (chunkRetries tasks)) in
  match awaited with
  | Resolved chunkResults => (log, s.2 ++ chunkResults)
  | Rejected _ => (log, s.2 ++ repeat [] (length chunk))
  end.

(** What the tasks of a chunk that was given up still do afterwards, in the
    millisecond in which the timer fired or later: during the rest of the
    cycle or after it.  These actions are not part of the log of the stage,
    and where they fall among the later actions of the server is not
    modelled. *)
Definition abandonedRetries (env : Env) (chunk : list string) : list Action :=
  let tasks := map (historyTask env) chunk in
  map snd (List.filter (fun e => negb (whileAwaited (awaitChunk chunk tasks) e))
             (chunkRetries tasks)).

Definition pauseBetweenChunks {X : Type} (s : list Action * X) : list Action * X :=
  (s.1 ++ [Pause 250], s.2).

Definition fetchAllHistoricalData (env : Env) (symbolsToFetch : list string)
    : M (gmap string (list Bar.t)) :=
  let CHUNK_SIZE := 25 in
  let '(log, allHistoricalData) :=
    chunk_loop CHUNK_SIZE symbolsToFetch (historicalChunk env) pauseBetweenChunks
      (length symbolsToFetch) 0 ([], []) in
  let historicalDataMap :=
    Map_from (imap (fun i symbol => (symbol, default [] (allHistoricalData !! i)))
                symbolsToFetch) in
  (log, Resolved historicalDataMap).

(** The request through the breaker; any failure is [null].  A bar has
    exactly the six fields that the payload keeps, so the [history.map] of
    the source is the identity here. *)
Definition analyzeWithPythonService (env : Env) (stockQuote : Quote.t)
    (history : list Bar.t) (strategies : list Strategy.t)
    : list Action * option Analysis.t :=
  let payload := {| Payload.quote := stockQuote;
                    Payload.history := history;
                    Payload.strategies := strategies |} in
  ([Fire payload],
   match fire env payload with
   | Resolved data => data
   | Rejected _ => None
   end).

(** The record of one symbol. *)
Definition mkStock (stockQuote : Quote.t) (history : list Bar.t)
    (analysisResult : Analysis.t) : Stock.t :=
  let indicators := Analysis.indicators analysisResult in
  {| Stock.symbol := Quote.symbol stockQuote;
     Stock.name := str_or (Quote.longName stockQuote) (Quote.shortName stockQuote);
     Stock.price := Quote.regularMarketPrice stockQuote;
     Stock.change := Quote.regularMarketChangePercent stockQuote;
     Stock.volume := Quote.regularMarketVolume stockQuote;
     Stock.fiftyTwoWeekLow := Quote.fiftyTwoWeekLow stockQuote;
     Stock.fiftyTwoWeekHigh := Quote.fiftyTwoWeekHigh stockQuote;
     Stock.currency := Quote.currency stockQuote;
     Stock.rsi := match indicators with
                  | Some ind => ind !! "rsi"
                  | None => None
                  end;
     Stock.indicators := indicators;
     Stock.signal := Analysis.signal analysisResult;
     Stock.recommendedSignal := Analysis.recommendedSignal analysisResult;
     Stock.history := map (fun h => (Bar.date h, Bar.close h)) (slice_last 30 history);
     Stock.customStrategyMatches :=
       default [] (Analysis.customStrategyMatches analysisResult) |}.

(** The per-symbol task of the analysis stage; [None] is [null].  Nothing
    in it throws on well-typed data, so the [catch] of the source has no
    counterpart. *)
Definition analyzeSymbol (env : Env) (quotesMap : gmap string Quote.t)
    (historicalDataMap : gmap string (list Bar.t)) (strategies : list Strategy.t)
    (symbol : string) : list Action * option Stock.t :=
  match quotesMap !! symbol with
  | None => ([], None)
  | Some stockQuote =>
      match historicalDataMap !! symbol with
      | None => ([], None)
      | Some history =>
          if length history =? 0 then ([], None)
          else
            let '(log, analysisResult) :=
              analyzeWithPythonService env stockQuote history strategies in
            match analysisResult with
            | None => (log, None)
            | Some analysisResult => (log, Some (mkStock stockQuote history analysisResult))
            end
      end
  end.

(** The work on one chunk of the analysis stage: the tasks are started
    together and awaited with [Promise.all], without a timer; the [null]
    results are filtered out. *)
Definition analysisChunk (env : Env) (quotesMap : gmap string Quote.t)
    (historicalDataMap : gmap string (list Bar.t)) (strategies : list Strategy.t)
    (chunk : list string) (s : list Action * list Stock.t)
    : list Action * list Stock.t :=
  let tasks := map (analyzeSymbol env quotesMap historicalDataMap strategies) chunk in
  let chunkResults := map snd tasks in
  (s.1 ++ Dispatch AnalysisStage chunk :: concat (map fst tasks),
   s.2 ++ omap id chunkResults).

Definition analyzeAllStocks (env : Env) (symbolsToFetch : list string)
    (quotesMap : gmap string Quote.t) (historicalDataMap : gmap string (list Bar.t))
    (strategies : list Strategy.t) : M (list Stock.t) :=
  let CHUNK_SIZE := 10 in
  let '(log, allAnalyzedData) :=
    chunk_loop CHUNK_SIZE symbolsToFetch
      (analysisChunk env quotesMap historicalDataMap strategies) pauseBetweenChunks
      (length symbolsToFetch) 0 ([], []) in
  (log, Resolved allAnalyzedData).

(* ===================================================================== *)
(** ** Aggregation *)
(* ===================================================================== *)

(** [stock.indicators?.avgVolume20] *)
Definition avgVolume20 (stock : Stock.t) : jsnum :=
  match Stock.indicators stock with
  | Some ind => ind !! "avgVolume20"
  | None => None
  end.

(** The [map] callback of [getFastVolumeAccumulators]. *)
Definition scoreStock (stock : Stock.t) : Scored.t :=
  let priceChange := num_or (Stock.change stock) 0 in
  let volume := Stock.volume stock in
  let avgVolume := avgVolume20 stock in
  if Qle_bool priceChange 0 || num_falsy volume || num_falsy avgVolume
     || num_is_zero avgVolume
  then {| Scored.stock := stock; Scored.score := DFinite (-1) |}
  else
    match volume, avgVolume with
    | Some volume, Some avgVolume =>
        let volumeRatio := fl_div volume avgVolume in
        let score := fl_add (fl_mul volumeRatio (round64 0.7))
                            (fl_mul (DFinite priceChange) (round64 0.3)) in
        {| Scored.stock := stock; Scored.score := score |}
    | _, _ => {| Scored.stock := stock; Scored.score := DFinite (-1) |}
    end.

(** [(a, b) => b.score - a.score], by its sign. *)
Definition compareScoreDesc (a b : Scored.t) : Q :=
  (extended (Scored.score b) - extended (Scored.score a))%Q.

Definition getFastVolumeAccumulators (allStocks : list Stock.t)
    (fnoSymbols : gset string) : list Scored.t :=
  let fnoStocks :=
    List.filter (fun s => bool_decide (Stock.symbol s ∈ fnoSymbols)) allStocks in
  let scoredStocks :=
    js_sort compareScoreDesc
      (List.filter (fun stock => double_positive (Scored.score stock))
         (map scoreStock fnoStocks)) in
  firstn 5 scoredStocks.

(** Names that an empty object literal already answers to, through
    [Object.prototype]: reading them from [customStrategyResults] gives a
    truthy value that has no [stocks]. *)
Definition Object_prototype_keys : list string :=
  ["constructor"; "__proto__"; "hasOwnProperty"; "isPrototypeOf";
   "propertyIsEnumerable"; "toLocaleString"; "toString"; "valueOf";
   "__defineGetter__"; "__defineSetter__"; "__lookupGetter__";
   "__lookupSetter__"].

(** The body of the inner [forEach]: create the group when the name reads
    falsy, then push the stock. *)
Definition recordMatch (stockData : Stock.t)
    (customStrategyResults : Settled (gmap string Group.t)) (m : Match.t)
    : Settled (gmap string Group.t) :=
  match customStrategyResults with
  | Rejected e => Rejected e
  | Resolved results =>
      let name := Match.name m in
      match results !! name with
      | Some g =>
          Resolved (<[name := {| Group.type := Group.type g;
                                 Group.stocks := Group.stocks g ++ [stockData] |}]>
                      results)
      | None =>
          if bool_decide (name ∈ Object_prototype_keys)
          then Rejected "Cannot read properties of undefined (reading 'push')"
          else Resolved (<[name := {| Group.type := Match.type m;
                                      Group.stocks := [stockData] |}]> results)
      end
  end.

Definition groupByStrategy (mappedData : list Stock.t) : Settled (gmap string Group.t) :=
  foldl (fun acc stockData =>
           foldl (recordMatch stockData) acc (Stock.customStrategyMatches stockData))
        (Resolved ∅) mappedData.

Definition compareChangeDesc (a b : Stock.t) : Q :=
  (num_or (Stock.change b) 0 - num_or (Stock.change a) 0)%Q.

Definition sortAndSlice (g : Group.t) : Group.t :=
  {| Group.type := Group.type g;
     Group.stocks := firstn 10 (js_sort compareChangeDesc (Group.stocks g)) |}.

Definition recommended (label : string) (stock : Stock.t) : bool :=
  match Stock.recommendedSignal stock with
  | Some s => String.eqb s label
  | None => false
  end.

Definition compareRsiAsc (a b : Stock.t) : Q :=
  (num_or (Stock.rsi a) 100 - num_or (Stock.rsi b) 100)%Q.

Definition compareRsiDesc (a b : Stock.t) : Q :=
  (num_or (Stock.rsi b) 0 - num_or (Stock.rsi a) 0)%Q.

Definition topBuys (mappedData : list Stock.t) : list Stock.t :=
  firstn 5 (js_sort compareRsiAsc (List.filter (recommended "STRONG BUY") mappedData)).

Definition topSells (mappedData : list Stock.t) : list Stock.t :=
  firstn 5 (js_sort compareRsiDesc (List.filter (recommended "STRONG SELL") mappedData)).

(* ===================================================================== *)
(** ** The scan entry point *)
(* ===================================================================== *)

Definition pausedStatus : Event :=
  scanStatus "Scan paused: Analysis service is offline." "error".

Definition fetchAndEmitStockUpdates (cfg : Config) (env : Env)
    (isPythonServiceHealthy : bool) : M unit :=
  if negb isPythonServiceHealthy then tell (Emit pausedStatus)
  else
    symbolsToFetch ← getCombinedTrackedSymbols cfg env;
    if length symbolsToFetch =? 0 then mret tt
    else
      try_catch
        (_ ← tell (DbAll "SELECT * FROM strategies");
         strategies ← await (strategyRows env);
         quotesMap ← fetchQuotes env symbolsToFetch;
         historicalDataMap ← fetchAllHistoricalData env symbolsToFetch;
         mappedData ← analyzeAllStocks env symbolsToFetch quotesMap
                        historicalDataMap strategies;
         customStrategyResults ← await (groupByStrategy mappedData);
         let customStrategyResults := sortAndSlice <$> customStrategyResults in
         let fastVolumeAccumulators :=
           getFastVolumeAccumulators mappedData (fnoSymbols cfg) in
         _ ← tell (Emit (stockUpdate mappedData));
         _ ← tell (Emit (topRecommendationsUpdate (topBuys mappedData)
                           (topSells mappedData)));
         _ ← tell (Emit (customStrategiesUpdate customStrategyResults (now env)));
         _ ← tell (Emit (fastVolumeAccumulatorsUpdate fastVolumeAccumulators));
         tell (Emit (scanStatus "Scan complete. Broadcasting updates." "done")))
        (fun message =>
           _ ← tell (Emit (scanStatus ("Scan failed: " +:+ message) "error"));
           tell (Emit (fetchError
             "Unified scan failed. The data provider might be temporarily unavailable."))).

(* ===================================================================== *)
(** ** The server: the health flag and what reaches the entry point *)
(* ===================================================================== *)

Record Server : Type := mkServer {
  isPythonServiceHealthy : bool
}.

(** [let isPythonServiceHealthy = false] *)
Definition initialServer : Server := {| isPythonServiceHealthy := false |}.

(** [checkPythonServiceHealth], given how the GET on the health URL
    settled: only a change of the flag is reported. *)
Definition checkPythonServiceHealth (probe : Settled unit) (st : Server)
    : Server * list Action :=
  match probe with
  | Resolved _ =>
      if negb (isPythonServiceHealthy st)
      then ({| isPythonServiceHealthy := true |}, [Emit (pythonHealthUpdate true)])
      else (st, [])
  | Rejected _ =>
      if isPythonServiceHealthy st
      then ({| isPythonServiceHealthy := false |}, [Emit (pythonHealthUpdate false)])
      else (st, [])
  end.

Inductive BreakerEvent : Type := breakerOpen | breakerClose | breakerHalfOpen.

(** The handlers registered with [pythonApiBreaker.on]. *)
Definition onBreaker (e : BreakerEvent) (st : Server) : Server * list Action :=
  match e with
  | breakerOpen =>
      ({| isPythonServiceHealthy := false |},
       [Emit (pythonHealthUpdate false);
        Emit (scanStatus "Analysis service is overloaded or down. Pausing analysis..."
                "error")])
  | breakerClose =>
      ({| isPythonServiceHealthy := true |},
       [Emit (pythonHealthUpdate true);
        Emit (scanStatus "Analysis service has recovered. Resuming analysis."
                "connecting")])
  | breakerHalfOpen => (st, [])
  end.

Inductive Trigger : Type := TimerTick | WatchlistMutation | SubscriberConnect.

(** What the event loop hands to the server. *)
Inductive Input : Type :=
| HealthProbe (probe : Settled unit)      (* at start and every 30 s *)
| Breaker (e : BreakerEvent)              (* an event of the circuit breaker *)
| Connection (socketId : string)          (* io.on('connection') *)
| Scan (trigger : Trigger) (env : Env).   (* a call of the entry point *)

Definition handle (cfg : Config) (st : Server) (i : Input) : Server * list Action :=
  match i with
  | HealthProbe probe => checkPythonServiceHealth probe st
  | Breaker e => onBreaker e st
  | Connection socketId =>
      (st, [SocketEmit socketId (pythonHealthUpdate (isPythonServiceHealthy st))])
  | Scan _ env =>
      (st, actions (fetchAndEmitStockUpdates cfg env (isPythonServiceHealthy st)))
  end.

(** The server run over a sequence of inputs: the final state and the log
    of each input. *)
Fixpoint run (cfg : Config) (st : Server) (inputs : list Input)
    : Server * list (list Action) :=
  match inputs with
  | [] => (st, [])
  | i :: inputs' =>
      let '(st1, log) := handle cfg st i in
      let '(st2, logs) := run cfg st1 inputs' in
      (st2, log :: logs)
  end.

(** The breaker changes state only on a request that went through it: an
    [open] or [close] event is the consequence of some earlier [Fire]. *)
Definition firesIn (log : list Action) : bool :=
  existsb (fun a => match a with Fire _ => true | _ => false end) log.

Fixpoint breakerCaused (cfg : Config) (st : Server) (fired : bool)
    (inputs : list Input) : bool :=
  match inputs with
  | [] => true
  | i :: inputs' =>
      let '(st1, log) := handle cfg st i in
      match i with
      | Breaker breakerOpen | Breaker breakerClose =>
          fired && breakerCaused cfg st1 fired inputs'
      | _ => breakerCaused cfg st1 (fired || firesIn log) inputs'
      end
  end.

(* ===================================================================== *)
(** ** The watchlist endpoints

    The [watchlists] table has the columns [userId] and [symbol] and the
    primary key [(userId, symbol)]: a list of rows without duplicates, in
    the order of their rowids, which is the order in which they were
    inserted.  Neither [SELECT] has an [ORDER BY]; the order of the answers
    is that of SQLite, which takes the rows of one user from the index of
    the primary key and scans the table for the distinct symbols. *)
(* ===================================================================== *)

Definition Watchlists : Type := list (string * string).

(** [INSERT OR IGNORE INTO watchlists (userId, symbol) VALUES (?, ?)] *)
Definition insertOrIgnore (userId symbol : string) (t : Watchlists) : Watchlists :=
  if bool_decide ((userId, symbol) ∈ t) then t else t ++ [(userId, symbol)].

(** [DELETE FROM watchlists WHERE userId = ? AND symbol = ?] *)
Definition deleteWhere (userId symbol : string) (t : Watchlists) : Watchlists :=
  List.filter (fun row => negb (bool_decide (row = (userId, symbol)))) t.

(** The order of the symbols in the index of the primary key: byte by
    byte. *)
Definition symbolLe (a b : string) : Prop := Is_true (String.leb a b).

(** [SELECT symbol FROM watchlists WHERE userId = ?]: the rows of the user,
    in the order of the index. *)
Definition selectSymbolsOf (userId : string) (t : Watchlists) : list string :=
  merge_sort symbolLe (map snd (List.filter (fun row => String.eqb row.1 userId) t)).

(** [SELECT DISTINCT symbol FROM watchlists]: the table is scanned row by
    row, and a symbol is answered at the first row that has it. *)
Definition selectDistinctSymbols (t : Watchlists) : list string :=
  foldl Set_add [] (map snd t).

(** The bodies the endpoints answer with. *)
Inductive Json : Type :=
| jsonSymbols (symbols : list string)
| jsonError (error : string)
| jsonMessage (message : string).

Record Response : Type := mkResponse {
  status : nat;
  body : Json
}.

(** What handling a request leaves behind: the table, the response, and
    whether [fetchAndEmitStockUpdates()] was called. *)
Record Handled : Type := mkHandled {
  table : Watchlists;
  response : Response;
  scanTriggered : bool
}.

(** [!symbol] on a field of the request body. *)
Definition str_falsy (x : option string) : bool :=
  match x with
  | Some s => String.eqb s ""
  | None => true
  end.

(** [app.get('/api/watchlist/:userId')]; [dbError] is the error of the
    statement when the database throws. *)
Definition getWatchlist (dbError : option string) (userId : string)
    (t : Watchlists) : Response :=
  match dbError with
  | None => {| status := 200; body := jsonSymbols (selectSymbolsOf userId t) |}
  | Some _ => {| status := 500; body := jsonError "Failed to fetch watchlist." |}
  end.

(** [app.post('/api/watchlist/:userId')] *)
Definition postWatchlist (dbError : option string) (userId : string)
    (symbol : option string) (t : Watchlists) : Handled :=
  if str_falsy symbol then
    {| table := t;
       response := {| status := 400; body := jsonError "Symbol is required." |};
       scanTriggered := false |}
  else
    match dbError with
    | None =>
        {| table := insertOrIgnore userId (default "" symbol) t;
           response := {| status := 201;
                          body := jsonMessage "Symbol added to watchlist." |};
           scanTriggered := true |}
    | Some _ =>
        {| table := t;
           response := {| status := 500;
                          body := jsonError "Failed to add symbol to watchlist." |};
           scanTriggered := false |}
    end.

(** [app.delete('/api/watchlist/:userId/:symbol')] *)
Definition deleteWatchlist (dbError : option string) (userId symbol : string)
    (t : Watchlists) : Handled :=
  match dbError with
  | None =>
      {| table := deleteWhere userId symbol t;
         response := {| status := 200;
                        body := jsonMessage "Symbol removed from watchlist." |};
         scanTriggered := true |}
  | Some _ =>
      {| table := t;
         response := {| status := 500;
                        body := jsonError "Failed to remove symbol from watchlist." |};
         scanTriggered := false |}
  end.

(** The outside world of a scan that reads the watchlists from table [t]. *)
Definition readingWatchlists (env : Env) (t : Watchlists) : Env :=
  {| watchlistRows := Resolved (selectDistinctSymbols t);
     strategyRows := strategyRows env;
     quote := quote env;
     historical := historical env;
     fire := fire env;
     now := now env |}.

(* ===================================================================== *)
(** ** Vocabulary of the properties and sample inputs *)
(* ===================================================================== *)

(** Runs the monadic plumbing as far as the next call whose answer is not
    yet known. *)
Ltac run_M :=
  cbv beta iota zeta delta
    [mbind M_bind mret M_ret tell await try_catch fetchQuotes negb fst snd].

(** Events that carry stock data. *)
Definition isStockData (e : Event) : bool :=
  match e with
  | stockUpdate _ | topRecommendationsUpdate _ _
  | customStrategiesUpdate _ _ | fastVolumeAccumulatorsUpdate _ => true
  | _ => false
  end.

(** Calls to the providers and to the analysis service. *)
Definition isOutsideCall (a : Action) : bool :=
  match a with
  | QuoteCall _ | HistoricalCall _ _ | Fire _ => true
  | _ => false
  end.

(** The resolved universe of a cycle: what [getCombinedTrackedSymbols]
    returns. *)
Definition universe (cfg : Config) (env : Env) : list string :=
  match watchlistRows env with
  | Resolved dbSymbols => foldl Set_add (Set_from (defaultSymbols cfg)) dbSymbols
  | Rejected _ => Set_from (defaultSymbols cfg)
  end.

(** An outside world with an empty watchlist and no answers. *)
Definition quietEnv : Env :=
  {| watchlistRows := Resolved [];
     strategyRows := Resolved [];
     quote := fun _ => mkPromise 0 (Resolved []);
     historical := fun _ _ => mkPromise 0 (Resolved []);
     fire := fun _ => Resolved None;
     now := "" |}.

(** The bulk quote call fails: it rejects within the 20 s of the timer, or it
    takes longer than these 20 s. *)
Definition quoteFails (env : Env) (symbols : list string) (message : string) : Prop :=
  ((settlesAfter (quote env symbols) <= 20000)%N
   /\ settlesTo (quote env symbols) = Rejected message)
  \/ ((20000 < settlesAfter (quote env symbols))%N
      /\ message = "Yahoo Finance quote API call timed out").

(** The quote provider takes 25 s to answer. *)
Definition slowQuoteEnv : Env :=
  {| watchlistRows := Resolved ["TCS.NS"];
     strategyRows := Resolved [];
     quote := fun _ => mkPromise 25000 (Resolved []);
     historical := fun _ _ => mkPromise 0 (Resolved []);
     fire := fun _ => Resolved None;
     now := "" |}.

(** The order of a numeric key. *)
Definition keyLe {A : Type} (key : A -> Q) (a b : A) : Prop := (key a <= key b)%Q.

(** Eligibility for the ranking: an F&O stock that is up for the day and has a
    volume and a non-zero 20-period average volume. *)
Definition eligible (fno : gset string) (s : Stock.t) (c v a : Q) : Prop :=
  Stock.symbol s ∈ fno
  /\ Stock.change s = Some c /\ (0 < c)%Q
  /\ Stock.volume s = Some v /\ ~ (v == 0)%Q
  /\ (exists ind, Stock.indicators s = Some ind /\ ind !! "avgVolume20" = Some a)
  /\ ~ (a == 0)%Q.

(** The momentum score, 70% volume surge and 30% price change, as the
    doubles compute [(volume / avgVolume * 0.7) + (priceChange * 0.3)]. *)
Definition momentumScore (c v a : Q) : double :=
  fl_add (fl_mul (fl_div v a) (round64 0.7)) (fl_mul (DFinite c) (round64 0.3)).

(** The scored candidates: what [getFastVolumeAccumulators] sorts. *)
Definition candidates (allStocks : list Stock.t) (fno : gset string) : list Scored.t :=
  List.filter (fun stock => double_positive (Scored.score stock))
    (map scoreStock
       (List.filter (fun s => bool_decide (Stock.symbol s ∈ fno)) allStocks)).

(** The chunks of the loop, in order. *)
Definition chunkCount (C : nat) (items : list string) : nat :=
  ceil_div (length items) C.
Definition chunkAt (C : nat) (items : list string) (k : nat) : list string :=
  slice items (k * C) (k * C + C).
Definition chunksOf (C : nat) (items : list string) : list (list string) :=
  map (chunkAt C items) (seq 0 (chunkCount C items)).

(** The pause that may follow a chunk. *)
Definition pauseIf (b : bool) : list Action := if b then [Pause 250] else [].

(** The markers of a stage's log: chunk dispatches and pauses. *)
Definition isDispatch (a : Action) : bool :=
  match a with Dispatch _ _ => true | _ => false end.
Definition isPause (a : Action) : bool :=
  match a with Pause _ => true | _ => false end.
Definition markers (log : list Action) : list Action :=
  List.filter (fun a => isDispatch a || isPause a) log.

(** Chunks dispatched one after the other with a 250 ms pause between two
    consecutive ones and none after the last. *)
Fixpoint paced (stage : Stage) (chunks : list (list string)) : list Action :=
  match chunks with
  | [] => []
  | chunk :: rest =>
      match rest with
      | [] => [Dispatch stage chunk]
      | _ :: _ => Dispatch stage chunk :: Pause 250 :: paced stage rest
      end
  end.

(** A chunk settles within the 20 s of its timer when its slowest task
    does. *)
Definition chunkInTime (env : Env) (chunk : list string) : bool :=
  (settlesAfter (allTasks (map (historyTask env) chunk)) <=? 20000)%N.

(** What the stage records for a symbol of a chunk. *)
Definition historyOf (env : Env) (chunk : list string) (symbol : string) : list Bar.t :=
  if chunkInTime env chunk then taskResult (historyTask env symbol) else [].

(** What the tasks of a chunk do after their first calls while the stage
    awaits the chunk. *)
Definition retriesDuring (env : Env) (chunk : list string) : list Action :=
  let tasks := map (historyTask env) chunk in
  map snd (List.filter (whileAwaited (awaitChunk chunk tasks)) (chunkRetries tasks)).

(** What a task does after its first call: nothing when the call was
    answered, a wait of 500 ms and a second call when it was refused. *)
Definition retryOf (env : Env) (s : string) : list Action :=
  match settlesTo (historical env s 1) with
  | Resolved _ => []
  | Rejected _ => [Backoff s 500; HistoricalCall s 2]
  end.

(** The provider calls and waits of the tasks of a chunk while the stage
    awaits it. *)
Definition historicalCalls (env : Env) (chunk : list string) : list Action :=
  chunkStarts (map (historyTask env) chunk) ++ retriesDuring env chunk.

(** The entries of the historical map, chunk by chunk. *)
Definition historicalEntries (env : Env) (symbols : list string)
    : list (string * list Bar.t) :=
  concat (map (fun c => map (fun s => (s, historyOf env c s)) c) (chunksOf 25 symbols)).

(** What the analysis stage gives for a symbol, and the requests of a
    chunk. *)
Definition analysisOf (env : Env) (quotesMap : gmap string Quote.t)
    (historicalDataMap : gmap string (list Bar.t)) (strategies : list Strategy.t)
    (symbol : string) : option Stock.t :=
  (analyzeSymbol env quotesMap historicalDataMap strategies symbol).2.

Definition analysisCalls (env : Env) (quotesMap : gmap string Quote.t)
    (historicalDataMap : gmap string (list Bar.t)) (strategies : list Strategy.t)
    (chunk : list string) : list Action :=
  concat (map fst (map (analyzeSymbol env quotesMap historicalDataMap strategies) chunk)).

(** The quote map built by [fetchQuotes] from the provider's answer. *)
Definition quotesMapOf (quoteResults : list (option Quote.t)) : gmap string Quote.t :=
  Map_from (map (fun q => (Quote.symbol q, q)) (omap id quoteResults)).

(** The end of a cycle whose stages all returned: the broadcast, or the
    error events when grouping the strategy matches throws. *)
Definition cycleEnd (cfg : Config) (env : Env) (mappedData : list Stock.t)
    : list Action :=
  match groupByStrategy mappedData with
  | Resolved customStrategyResults =>
      [Emit (stockUpdate mappedData);
       Emit (topRecommendationsUpdate (topBuys mappedData) (topSells mappedData));
       Emit (customStrategiesUpdate (sortAndSlice <$> customStrategyResults) (now env));
       Emit (fastVolumeAccumulatorsUpdate
               (getFastVolumeAccumulators mappedData (fnoSymbols cfg)));
       Emit (scanStatus "Scan complete. Broadcasting updates." "done")]
  | Rejected message =>
      [Emit (scanStatus ("Scan failed: " +:+ message) "error");
       Emit (fetchError
         "Unified scan failed. The data provider might be temporarily unavailable.")]
  end.

(** The mapped data of a cycle, from the answers of the outside. *)
Definition mappedDataOf (cfg : Config) (env : Env) (strategies : list Strategy.t)
    (quoteResults : list (option Quote.t)) : list Stock.t :=
  omap (analysisOf env (quotesMapOf quoteResults)
          (Map_from (historicalEntries env (universe cfg env))) strategies)
       (universe cfg env).

(** A stock with both a quote and an analysis result for symbol [s]: the
    quote map binds [s], the history map binds it to a non-empty series, and
    the request sent for them came back with a body. *)
Definition hasBoth (env : Env) (quotesMap : gmap string Quote.t)
    (historicalDataMap : gmap string (list Bar.t)) (strategies : list Strategy.t)
    (s : string) (stock : Stock.t) : Prop :=
  exists stockQuote history analysisResult,
    quotesMap !! s = Some stockQuote
    /\ historicalDataMap !! s = Some history /\ history <> []
    /\ fire env (Payload.mk stockQuote history strategies) = Resolved (Some analysisResult)
    /\ stock = mkStock stockQuote history analysisResult.

(** *** Sample answers of the outside world *)

Definition sampleBar (d : Z) : Bar.t :=
  {| Bar.date := d; Bar.open := Some 10%Q; Bar.high := Some 12%Q;
     Bar.low := Some 9%Q; Bar.close := Some 11%Q; Bar.volume := Some 1000%Q |}.

Definition sampleQuote (s : string) : Quote.t :=
  {| Quote.symbol := s; Quote.longName := Some s; Quote.shortName := None;
     Quote.regularMarketPrice := Some 100%Q;
     Quote.regularMarketChangePercent := Some 5%Q;
     Quote.regularMarketVolume := Some 300%Q;
     Quote.fiftyTwoWeekLow := Some 80%Q; Quote.fiftyTwoWeekHigh := Some 120%Q;
     Quote.currency := Some "INR" |}.

Definition sampleAnalysis (rsi : Q) (label : string) : Analysis.t :=
  {| Analysis.indicators := Some (<["rsi" := rsi]> (<["avgVolume20" := 100%Q]> ∅));
     Analysis.recommendedSignal := Some label;
     Analysis.signal := Some "BUY";
     Analysis.customStrategyMatches := None |}.

(** An analyzed stock with the given percent change, volume and 20-period
    average volume. *)
Definition accumulatorSample (symbol : string) (change volume avgVolume : Q)
    : Stock.t :=
  {| Stock.symbol := symbol; Stock.name := Some symbol;
     Stock.price := Some 100%Q;
     Stock.change := Some change;
     Stock.volume := Some volume;
     Stock.fiftyTwoWeekLow := Some 80%Q; Stock.fiftyTwoWeekHigh := Some 120%Q;
     Stock.currency := Some "INR";
     Stock.rsi := None;
     Stock.indicators := Some (<["avgVolume20" := avgVolume]> ∅);
     Stock.signal := None;
     Stock.recommendedSignal := None;
     Stock.history := [];
     Stock.customStrategyMatches := [] |}.

(** The history of RELIANCE.NS is refused twice, twelve seconds each time;
    everything else answers at once. *)
Definition slowFailureEnv : Env :=
  {| watchlistRows := Resolved [];
     strategyRows := Resolved [];
     quote := fun symbols =>
       mkPromise 100 (Resolved (map (fun s => Some (sampleQuote s)) symbols));
     historical := fun s _ =>
       if String.eqb s "RELIANCE.NS" then mkPromise 12000 (Rejected "socket hang up")
       else mkPromise 300 (Resolved [sampleBar 1]);
     fire := fun _ => Resolved (Some (sampleAnalysis 40 "HOLD"));
     now := "2024-01-01T00:00:00.000Z" |}.

(** The same, but the history of RELIANCE.NS arrives after twelve
    seconds. *)
Definition slowSuccessEnv : Env :=
  {| watchlistRows := Resolved [];
     strategyRows := Resolved [];
     quote := fun symbols =>
       mkPromise 100 (Resolved (map (fun s => Some (sampleQuote s)) symbols));
     historical := fun s _ =>
       if String.eqb s "RELIANCE.NS" then mkPromise 12000 (Resolved [sampleBar 1])
       else mkPromise 300 (Resolved [sampleBar 1]);
     fire := fun _ => Resolved (Some (sampleAnalysis 40 "HOLD"));
     now := "2024-01-01T00:00:00.000Z" |}.

(** Twenty-seven symbols: two chunks of history, three of analysis. *)
Definition twentySevenSymbols : list string :=
  ["A"; "B"; "C"; "D"; "E"; "F"; "G"; "H"; "I"; "J"; "K"; "L"; "M"; "N"; "O";
   "P"; "Q"; "R"; "S"; "T"; "U"; "V"; "W"; "X"; "Y"; "Z"; "AA"].

(** The answers of the outside world in which ^NSEI has an RSI of 0 and
    RELIANCE.NS an RSI of 30, both recommended as strong buys. *)
Definition oversoldEnv : Env :=
  {| watchlistRows := Resolved [];
     strategyRows := Resolved [];
     quote := fun symbols =>
       mkPromise 100 (Resolved (map (fun s => Some (sampleQuote s)) symbols));
     historical := fun _ _ => mkPromise 300 (Resolved [sampleBar 1]);
     fire := fun payload =>
       if String.eqb (Quote.symbol (Payload.quote payload)) "^NSEI"
       then Resolved (Some (sampleAnalysis 0 "STRONG BUY"))
       else Resolved (Some (sampleAnalysis 30 "STRONG BUY"));
     now := "2024-01-01T00:00:00.000Z" |}.

(** A health probe that found the service up. *)
Definition isSuccessfulProbe (i : Input) : bool :=
  match i with
  | HealthProbe (Resolved _) => true
  | _ => false
  end.

(** The first inputs after a start with the analysis service down. *)
Definition startupInputs : list Input :=
  [Scan SubscriberConnect slowSuccessEnv;
   HealthProbe (Rejected "connect ECONNREFUSED 127.0.0.1:5000");
   Connection "socket-1";
   Scan TimerTick slowSuccessEnv;
   Scan WatchlistMutation slowSuccessEnv].

(** *** Vocabulary of the further properties *)

Definition isHistoricalCall (a : Action) : bool :=
  match a with HistoricalCall _ _ => true | _ => false end.
Definition isBackoff (a : Action) : bool :=
  match a with Backoff _ _ => true | _ => false end.
(** The first call of a task of the historical stage. *)
Definition isFirstCall (a : Action) : bool :=
  match a with HistoricalCall _ 1 => true | _ => false end.
(** The actions of the tasks of the historical stage. *)
Definition isTaskAction (a : Action) : bool := isHistoricalCall a || isBackoff a.
Definition isFire (a : Action) : bool :=
  match a with Fire _ => true | _ => false end.
Definition isQuoteCall (a : Action) : bool :=
  match a with QuoteCall _ => true | _ => false end.

(** A log without its markers: the calls and waits of the tasks. *)
Definition callsOnly (log : list Action) : list Action :=
  List.filter (fun a => negb (isDispatch a || isPause a)) log.

(** The request that the analysis stage sends for a symbol, if any. *)
Definition requestFor (quotesMap : gmap string Quote.t)
    (historicalDataMap : gmap string (list Bar.t)) (strategies : list Strategy.t)
    (symbol : string) : option Action :=
  match quotesMap !! symbol, historicalDataMap !! symbol with
  | Some stockQuote, Some (bar :: history) =>
      Some (Fire (Payload.mk stockQuote (bar :: history) strategies))
  | _, _ => None
  end.

(** The strategy matches of the mapped data, each with its stock, in the
    order in which the two nested [forEach] visit them. *)
Definition allMatches (mappedData : list Stock.t) : list (Stock.t * Match.t) :=
  flat_map (fun stockData =>
              map (fun m => (stockData, m)) (Stock.customStrategyMatches stockData))
           mappedData.

Definition matchesNamed (name : string) (pairs : list (Stock.t * Match.t))
    : list (Stock.t * Match.t) :=
  List.filter (fun p => String.eqb (Match.name p.2) name) pairs.

(** The group that the matches named [name] make up, if there are any. *)
Definition groupOf (name : string) (pairs : list (Stock.t * Match.t))
    : option Group.t :=
  match matchesNamed name pairs with
  | [] => None
  | first :: _ =>
      Some {| Group.type := Match.type first.2;
              Group.stocks := map fst (matchesNamed name pairs) |}
  end.

(** The error events that end a failed cycle. *)
Definition failureEvents (message : string) : list Event :=
  [scanStatus ("Scan failed: " +:+ message) "error";
   fetchError "Unified scan failed. The data provider might be temporarily unavailable."].

(** What an input sets the availability flag to, if it sets it. *)
Definition flagSetter (i : Input) : option bool :=
  match i with
  | HealthProbe (Resolved _) => Some true
  | HealthProbe (Rejected _) => Some false
  | Breaker breakerOpen => Some false
  | Breaker breakerClose => Some true
  | _ => None
  end.

(** The values of the service-availability events of a log. *)
Definition healthUpdates (log : list Action) : list bool :=
  omap (fun a => match a with
                 | Emit (pythonHealthUpdate b) => Some b
                 | _ => None
                 end) log.

(** The values of a sequence that differ from their predecessor. *)
Fixpoint changes (previous : bool) (values : list bool) : list bool :=
  match values with
  | [] => []
  | b :: values' =>
      if Bool.eqb previous b then changes b values'
      else b :: changes b values'
  end.

Definition probeOutcome (probe : Settled unit) : bool :=
  match probe with Resolved _ => true | Rejected _ => false end.

(** *** Further sample inputs *)

(** The analysis service reports a match of a strategy that a user named
    "toString". *)
Definition shadowedNameEnv : Env :=
  {| watchlistRows := Resolved [];
     strategyRows := Resolved [];
     quote := fun symbols =>
       mkPromise 100 (Resolved (map (fun s => Some (sampleQuote s)) symbols));
     historical := fun _ _ => mkPromise 300 (Resolved [sampleBar 1]);
     fire := fun _ =>
       Resolved (Some {| Analysis.indicators := None;
                         Analysis.recommendedSignal := Some "HOLD";
                         Analysis.signal := Some "HOLD";
                         Analysis.customStrategyMatches :=
                           Some [{| Match.name := "toString";
                                    Match.type := Some "Bullish" |}] |});
     now := "2024-01-01T00:00:00.000Z" |}.

(** The strategies table cannot be read. *)
Definition noStrategiesEnv : Env :=
  {| watchlistRows := Resolved [];
     strategyRows := Rejected "SQLITE_BUSY: database is locked";
     quote := fun symbols =>
       mkPromise 100 (Resolved (map (fun s => Some (sampleQuote s)) symbols));
     historical := fun _ _ => mkPromise 300 (Resolved [sampleBar 1]);
     fire := fun _ => Resolved (Some (sampleAnalysis 40 "HOLD"));
     now := "2024-01-01T00:00:00.000Z" |}.

Definition sampleWatchlists : Watchlists :=
  [("alice", "TCS.NS"); ("bob", "TCS.NS"); ("bob", "INFY.NS")].

Definition isDbAll (a : Action) : bool :=
  match a with DbAll _ => true | _ => false end.
Definition isEmit (a : Action) : bool :=
  match a with Emit _ => true | _ => false end.

(** The history of RELIANCE.NS is refused twice, at once. *)
Definition fastFailureEnv : Env :=
  {| watchlistRows := Resolved [];
     strategyRows := Resolved [];
     quote := fun symbols =>
       mkPromise 100 (Resolved (map (fun s => Some (sampleQuote s)) symbols));
     historical := fun s _ =>
       if String.eqb s "RELIANCE.NS" then mkPromise 100 (Rejected "Not Found")
       else mkPromise 300 (Resolved [sampleBar 1]);
     fire := fun _ => Resolved (Some (sampleAnalysis 40 "HOLD"));
     now := "2024-01-01T00:00:00.000Z" |}.

(** Two answers for RELIANCE.NS: the second one is kept. *)
Definition twoQuotesEnv : Env :=
  {| watchlistRows := Resolved [];
     strategyRows := Resolved [];
     quote := fun _ =>
       mkPromise 100 (Resolved [Some (sampleQuote "RELIANCE.NS"); None;
                                Some {| Quote.symbol := "RELIANCE.NS";
                                        Quote.longName := None;
                                        Quote.shortName := Some "RIL";
                                        Quote.regularMarketPrice := Some 101%Q;
                                        Quote.regularMarketChangePercent := None;
                                        Quote.regularMarketVolume := None;
                                        Quote.fiftyTwoWeekLow := None;
                                        Quote.fiftyTwoWeekHigh := None;
                                        Quote.currency := None |}]);
     historical := fun _ _ => mkPromise 300 (Resolved [sampleBar 1]);
     fire := fun _ => Resolved None;
     now := "" |}.

(** What each phase of a cycle may do. *)
Definition isQuery (a : Action) : bool := isDbAll a || isQuoteCall a.
Definition isHistoricalStageAction (a : Action) : bool :=
  match a with
  | Dispatch Historical _ | Pause _ | HistoricalCall _ _ | Backoff _ _ => true
  | _ => false
  end.
Definition isAnalysisStageAction (a : Action) : bool :=
  match a with
  | Dispatch AnalysisStage _ | Pause _ | Fire _ => true
  | _ => false
  end.

(** Two stocks that match the strategy "Breakout", one of which also
    matches "Dip". *)
Definition matchedStocks : list Stock.t :=
  [mkStock (sampleQuote "TCS.NS") [sampleBar 1]
     {| Analysis.indicators := None; Analysis.recommendedSignal := None;
        Analysis.signal := None;
        Analysis.customStrategyMatches :=
          Some [{| Match.name := "Breakout"; Match.type := Some "Bullish" |};
                {| Match.name := "Dip"; Match.type := Some "Bearish" |}] |};
   mkStock (sampleQuote "INFY.NS") [sampleBar 1]
     {| Analysis.indicators := None; Analysis.recommendedSignal := None;
        Analysis.signal := None;
        Analysis.customStrategyMatches :=
          Some [{| Match.name := "Breakout"; Match.type := Some "Bullish" |}] |}].

(* ===================================================================== *)
(** * Properties *)
(* ===================================================================== *)

(** ** The computation monad *)

Lemma bind_resolved {A B : Type} (log : list Action) (a : A) (k : A -> M B) :
  (((log, Resolved a) : M A) ≫= k) = (log ++ (k a).1, (k a).2).
Proof. unfold mbind, M_bind. destruct (k a); reflexivity. Qed.

Lemma bind_rejected {A B : Type} (log : list Action) (e : string) (k : A -> M B) :
  (((log, Rejected e) : M A) ≫= k) = (log, Rejected e).
Proof. reflexivity. Qed.

Lemma try_catch_resolved {A : Type} (log : list Action) (a : A) h :
  try_catch (log, Resolved a) h = (log, Resolved a).
Proof. reflexivity. Qed.

Lemma try_catch_rejected {A : Type} (log : list Action) (e : string)
    (h : string -> M A) :
  try_catch (log, Rejected e) h = (log ++ (h e).1, (h e).2).
Proof. unfold try_catch. destruct (h e); reflexivity. Qed.

(** ** The resolved universe *)

Lemma getCombinedTrackedSymbols_eq cfg env :
  getCombinedTrackedSymbols cfg env =
    ([DbAll "SELECT DISTINCT symbol FROM watchlists"], Resolved (universe cfg env)).
Proof.
  unfold getCombinedTrackedSymbols, universe.
  destruct (watchlistRows env); reflexivity.
Qed.

(** ** The gate *)

(** C2. A call of the entry point while the availability flag is false
    does exactly one thing: it emits the scan-status event saying that the
    scan is paused because the analysis service is offline.  No database,
    quote, history or analysis call is made and no stock data is
    broadcast. *)
Theorem gate_closed_only_paused_status (cfg : Config) (env : Env) :
  fetchAndEmitStockUpdates cfg env false =
    ([Emit (scanStatus "Scan paused: Analysis service is offline." "error")],
     Resolved tt)
  /\ List.filter isOutsideCall (actions (fetchAndEmitStockUpdates cfg env false)) = []
  /\ List.filter isStockData (emitted (actions (fetchAndEmitStockUpdates cfg env false))) = [].
Proof. repeat split. Qed.

(** ** The empty universe *)

(** The guard [if (symbolsToFetch.length === 0)] of the entry point: the
    cycle returns after the watchlist query. *)
Lemma empty_universe_log (cfg : Config) (env : Env) :
  universe cfg env = [] ->
  fetchAndEmitStockUpdates cfg env true =
    ([DbAll "SELECT DISTINCT symbol FROM watchlists"], Resolved tt).
Proof.
  intros Hempty. unfold fetchAndEmitStockUpdates. simpl negb. cbv iota.
  rewrite getCombinedTrackedSymbols_eq, bind_resolved, Hempty. reflexivity.
Qed.

(** ** Failure of the quote stage *)

Lemma quoteFails_timeout env symbols message :
  quoteFails env symbols message ->
  promiseWithTimeout (quote env symbols) 20000
    "Yahoo Finance quote API call timed out" = Rejected message.
Proof.
  unfold promiseWithTimeout. intros [[Hlt Hrej] | [Hge ->]].
  - apply N.leb_le in Hlt. rewrite Hlt. exact Hrej.
  - apply N.leb_gt in Hge. rewrite Hge. reflexivity.
Qed.

(** C3. In a cycle that passed the gate with a non-empty universe and read
    the strategies, a bulk quote fetch that fails or exceeds its 20 s
    timeout ends the cycle: after the quote call the only things done are
    the emission of an error scan-status event and of a fetch-error event;
    no stock data is broadcast and neither the history provider nor the
    analysis service is called. *)
Theorem quote_failure_aborts_cycle (cfg : Config) (env : Env)
    (strategies : list Strategy.t) (message : string) :
  universe cfg env <> [] ->
  strategyRows env = Resolved strategies ->
  quoteFails env (universe cfg env) message ->
  actions (fetchAndEmitStockUpdates cfg env true) =
    [DbAll "SELECT DISTINCT symbol FROM watchlists";
     DbAll "SELECT * FROM strategies";
     QuoteCall (universe cfg env);
     Emit (scanStatus ("Scan failed: " +:+ message) "error");
     Emit (fetchError
       "Unified scan failed. The data provider might be temporarily unavailable.")]
  /\ List.filter isStockData
       (emitted (actions (fetchAndEmitStockUpdates cfg env true))) = [].
Proof.
  intros Hne Hstrat Hfail.
  apply quoteFails_timeout in Hfail.
  assert (Heq : actions (fetchAndEmitStockUpdates cfg env true) =
    [DbAll "SELECT DISTINCT symbol FROM watchlists";
     DbAll "SELECT * FROM strategies";
     QuoteCall (universe cfg env);
     Emit (scanStatus ("Scan failed: " +:+ message) "error");
     Emit (fetchError
       "Unified scan failed. The data provider might be temporarily unavailable.")]).
  { unfold fetchAndEmitStockUpdates. simpl negb. cbv iota.
    rewrite getCombinedTrackedSymbols_eq, bind_resolved.
    destruct (universe cfg env) as [|s0 rest] eqn:Hu; [congruence|].
    simpl length. simpl Nat.eqb. cbv iota.
    unfold fetchQuotes. rewrite Hstrat.
    unfold tell, await. rewrite !bind_resolved. simpl fst. simpl snd.
    rewrite Hfail. reflexivity. }
  split; [exact Heq|]. rewrite Heq. reflexivity.
Qed.

Lemma quote_failure_aborts_cycle_witness :
  actions (fetchAndEmitStockUpdates config slowQuoteEnv true) =
    [DbAll "SELECT DISTINCT symbol FROM watchlists";
     DbAll "SELECT * FROM strategies";
     QuoteCall ["^NSEI"; "RELIANCE.NS"; "TCS.NS"];
     Emit (scanStatus "Scan failed: Yahoo Finance quote API call timed out" "error");
     Emit (fetchError
       "Unified scan failed. The data provider might be temporarily unavailable.")]
  /\ List.filter isStockData
       (emitted (actions (fetchAndEmitStockUpdates config slowQuoteEnv true))) = [].
Proof.
  apply (quote_failure_aborts_cycle config slowQuoteEnv []
           "Yahoo Finance quote API call timed out").
  - vm_compute. discriminate.
  - reflexivity.
  - right. split; reflexivity.
Defined.

(** ** Lists *)

Lemma In_firstn {A : Type} (k : nat) (l : list A) (x : A) :
  In x (firstn k l) -> In x l.
Proof.
  revert k. induction l as [|y l IH]; intros [|k]; simpl; try tauto.
  intros [-> | H]; [left; reflexivity | right; eapply IH, H].
Qed.

Lemma In_skipn {A : Type} (k : nat) (l : list A) (x : A) :
  In x (skipn k l) -> In x l.
Proof.
  revert k. induction l as [|y l IH]; intros [|k]; simpl; try tauto.
  intros H. right. eapply IH, H.
Qed.

Lemma StronglySorted_weaken {A : Type} (R R' : A -> A -> Prop) (l : list A) :
  (forall x y, R x y -> R' x y) -> StronglySorted R l -> StronglySorted R' l.
Proof.
  intros HR. induction 1 as [|x l Hs IH Hall]; constructor; [exact IH|].
  eapply List.Forall_impl; [|exact Hall]. intros y. apply HR.
Qed.

(** ** Array.prototype.sort with a comparator that is a difference of keys *)

Section SortFacts.
Context {A : Type} (compareFn : A -> A -> Q) (key : A -> Q).
Hypothesis compare_key : forall a b, (compareFn a b == key a - key b)%Q.

Lemma compare_le a b : Qle_bool (compareFn a b) 0 = true <-> (keyLe key) a b.
Proof using compare_key.
  unfold keyLe. rewrite Qle_bool_iff, compare_key. split; intros; lra.
Qed.

Lemma compare_gt a b : Qle_bool (compareFn a b) 0 = false -> (key b < key a)%Q.
Proof using compare_key.
  intros H. destruct (Qlt_le_dec (key b) (key a)) as [Hlt | Hle]; [exact Hlt|].
  apply compare_le in Hle. congruence.
Qed.

Lemma sort_insert_perm x l : Permutation (sort_insert compareFn x l) (x :: l).
Proof.
  induction l as [|y l IH]; simpl; [reflexivity|].
  destruct (Qle_bool (compareFn x y) 0); [reflexivity|].
  rewrite IH. apply perm_swap.
Qed.

Lemma js_sort_perm l : Permutation (js_sort compareFn l) l.
Proof.
  induction l as [|x l IH]; simpl; [reflexivity|].
  rewrite sort_insert_perm. apply perm_skip, IH.
Qed.

Lemma js_sort_In x l : In x (js_sort compareFn l) <-> In x l.
Proof.
  split; apply Permutation_in; [|symmetry]; apply js_sort_perm.
Qed.

Lemma js_sort_length l : length (js_sort compareFn l) = length l.
Proof. apply Permutation_length, js_sort_perm. Qed.

Lemma sort_insert_sorted x l :
  StronglySorted (keyLe key) l -> StronglySorted (keyLe key) (sort_insert compareFn x l).
Proof using compare_key.
  induction 1 as [|y l Hs IH Hall]; simpl.
  - constructor; constructor.
  - destruct (Qle_bool (compareFn x y) 0) eqn:Hc.
    + apply compare_le in Hc. constructor.
      * constructor; assumption.
      * constructor; [exact Hc|].
        eapply List.Forall_impl; [|exact Hall].
        intros z Hz. unfold keyLe in *. lra.
    + apply compare_gt in Hc. constructor; [exact IH|].
      eapply Permutation_Forall.
      * symmetry. apply sort_insert_perm.
      * constructor; [unfold keyLe; lra | exact Hall].
Qed.

Lemma js_sort_sorted l : StronglySorted (keyLe key) (js_sort compareFn l).
Proof using compare_key.
  induction l as [|x l IH]; simpl; [constructor|].
  apply sort_insert_sorted, IH.
Qed.

(** Stability: elements of equal key keep their input order. *)
Lemma sort_insert_stable (q : Q) x l :
  List.filter (fun a => Qeq_bool (key a) q) (sort_insert compareFn x l) =
  List.filter (fun a => Qeq_bool (key a) q) (x :: l).
Proof using compare_key.
  induction l as [|y l IH]; [reflexivity|].
  simpl sort_insert.
  destruct (Qle_bool (compareFn x y) 0) eqn:Hc; [reflexivity|].
  apply compare_gt in Hc.
  change (List.filter (fun a => Qeq_bool (key a) q) (y :: sort_insert compareFn x l))
    with (if Qeq_bool (key y) q
          then y :: List.filter (fun a => Qeq_bool (key a) q) (sort_insert compareFn x l)
          else List.filter (fun a => Qeq_bool (key a) q) (sort_insert compareFn x l)).
  rewrite IH. simpl.
  destruct (Qeq_bool (key x) q) eqn:Hx, (Qeq_bool (key y) q) eqn:Hy; try reflexivity.
  apply Qeq_bool_iff in Hx, Hy. lra.
Qed.

Lemma js_sort_stable (q : Q) l :
  List.filter (fun a => Qeq_bool (key a) q) (js_sort compareFn l) =
  List.filter (fun a => Qeq_bool (key a) q) l.
Proof using compare_key.
  induction l as [|x l IH]; [reflexivity|].
  simpl js_sort. rewrite sort_insert_stable. simpl. rewrite IH. reflexivity.
Qed.

(** The first [k] of the sorted list are the [k] smallest keys. *)
Lemma js_sort_top k l x y :
  In x (firstn k (js_sort compareFn l)) ->
  In y (skipn k (js_sort compareFn l)) ->
  (keyLe key) x y.
Proof using compare_key.
  pose proof (js_sort_sorted l) as Hs.
  rewrite <- (firstn_skipn k (js_sort compareFn l)) in Hs.
  revert Hs. generalize (firstn k (js_sort compareFn l)) as front.
  generalize (skipn k (js_sort compareFn l)) as back.
  intros back front. induction front as [|z front IH]; intros Hs Hx Hy.
  - destruct Hx.
  - simpl in Hs. inversion Hs as [|? ? Hs' Hall]; subst.
    destruct Hx as [-> | Hx].
    + rewrite List.Forall_forall in Hall. apply Hall, in_or_app. right. exact Hy.
    + apply IH; assumption.
Qed.

Lemma firstn_sorted k l :
  StronglySorted (keyLe key) l -> StronglySorted (keyLe key) (firstn k l).
Proof.
  intros Hs. revert k. induction Hs as [|y l Hs IH Hall]; intros [|k]; simpl;
    try constructor.
  - apply IH.
  - rewrite List.Forall_forall in *. intros z Hz. apply Hall.
    eapply In_firstn, Hz.
Qed.
End SortFacts.

(** ** Fast volume accumulators *)

Lemma scoreStock_stock s : Scored.stock (scoreStock s) = s.
Proof.
  unfold scoreStock.
  destruct (Qle_bool _ 0 || _ || _ || _); [reflexivity|].
  destruct (Stock.volume s), (avgVolume20 s); reflexivity.
Qed.

Lemma Qeq_bool_false (x y : Q) : Qeq_bool x y = false -> ~ (x == y)%Q.
Proof. intros H Heq. apply Qeq_bool_iff in Heq. congruence. Qed.

Lemma Qle_bool_false (x y : Q) : Qle_bool x y = false -> (y < x)%Q.
Proof.
  intros H. destruct (Qlt_le_dec y x) as [Hlt | Hle]; [exact Hlt|].
  apply Qle_bool_iff in Hle. congruence.
Qed.

(** A finite result of rounding lies between the two infinities. *)
Lemma round64_finite (x q : Q) :
  round64 x = DFinite q -> (- 2 ^ 1024 < q < 2 ^ 1024)%Q.
Proof.
  assert (Hbig : (0 < 2 ^ 1024)%Q) by reflexivity.
  unfold round64. destruct (Qeq_bool x 0); [intros [= <-]; lra|].
  set (e := Z.max (ilog2 (Qabs x) - 52) (-1074)).
  set (m := nearest_even (Qabs x / 2 ^ e)).
  assert (Hpow : (0 < 2 ^ e)%Q) by (apply Qpower_0_lt; reflexivity).
  assert (Hm : (0 <= m)%Z).
  { subst m. unfold nearest_even.
    assert (Hf : (0 <= Qfloor (Qabs x / 2 ^ e))%Z).
    { change 0%Z with (Qfloor 0). apply Qfloor_resp_le.
      apply Qle_shift_div_l; [exact Hpow|]. rewrite Qmult_0_l. apply Qabs_nonneg. }
    destruct (_ ?= _)%Q; [destruct (Z.even _)| |]; lia. }
  assert (Hr : (0 <= inject_Z m * 2 ^ e)%Q).
  { apply Qmult_le_0_compat; [|lra].
    change 0%Q with (inject_Z 0). rewrite <- Zle_Qle. exact Hm. }
  destruct (Qle_bool (2 ^ 1024) (inject_Z m * 2 ^ e)) eqn:Hover; [discriminate|].
  apply Qle_bool_false in Hover.
  intros [= <-]. rewrite Qred_correct. destruct (Qle_bool x 0); lra.
Qed.

(** A positive score is only given to a stock that is up and has volume
    data, and then it is the weighted sum. *)
Lemma scoreStock_positive s :
  double_positive (Scored.score (scoreStock s)) = true ->
  exists c v a,
    Stock.change s = Some c /\ (0 < c)%Q
    /\ Stock.volume s = Some v /\ ~ (v == 0)%Q
    /\ (exists ind, Stock.indicators s = Some ind /\ ind !! "avgVolume20" = Some a)
    /\ ~ (a == 0)%Q
    /\ Scored.score (scoreStock s) = momentumScore c v a.
Proof.
  unfold scoreStock, momentumScore.
  destruct (Qle_bool (num_or (Stock.change s) 0) 0) eqn:Hc; simpl orb.
  { simpl. discriminate. }
  destruct (num_falsy (Stock.volume s)) eqn:Hv; simpl orb.
  { simpl. discriminate. }
  destruct (num_falsy (avgVolume20 s)) eqn:Ha; simpl orb.
  { simpl. discriminate. }
  destruct (Stock.volume s) as [v|]; [|discriminate].
  destruct (avgVolume20 s) as [a|] eqn:Havg; [|discriminate].
  simpl in Hv, Ha. unfold num_is_zero. rewrite Ha. cbv iota.
  apply Qeq_bool_false in Hv, Ha. apply Qle_bool_false in Hc.
  destruct (Stock.change s) as [c|]; unfold num_or in *; [|lra].
  destruct (Qeq_bool c 0); [lra|].
  intros _. exists c, v, a. repeat split; try assumption.
  unfold avgVolume20 in Havg.
  destruct (Stock.indicators s) as [ind|]; [|discriminate]. exists ind. auto.
Qed.

(** An eligible stock gets the weighted sum. *)
Lemma scoreStock_eligible fno s c v a :
  eligible fno s c v a ->
  Scored.score (scoreStock s) = momentumScore c v a.
Proof.
  intros (_ & Hc & Hpos & Hv & Hv0 & (ind & Hind & Ha) & Ha0).
  unfold scoreStock, momentumScore, avgVolume20. rewrite Hc, Hv, Hind, Ha. simpl.
  destruct (Qeq_bool c 0) eqn:Hc0; [apply Qeq_bool_iff in Hc0; lra|].
  destruct (Qle_bool c 0) eqn:Hle; [apply Qle_bool_iff in Hle; lra|].
  destruct (Qeq_bool v 0) eqn:Hv1; [apply Qeq_bool_iff in Hv1; contradiction|].
  destruct (Qeq_bool a 0) eqn:Ha1; [apply Qeq_bool_iff in Ha1; contradiction|].
  reflexivity.
Qed.

Lemma compareScoreDesc_key a b :
  (compareScoreDesc a b
   == (fun e => - extended (Scored.score e)) a - (fun e => - extended (Scored.score e)) b)%Q.
Proof. unfold compareScoreDesc. ring. Qed.

Lemma candidates_In allStocks fno e :
  In e (candidates allStocks fno) <->
  exists s, In s allStocks /\ Stock.symbol s ∈ fno /\ e = scoreStock s
            /\ double_positive (Scored.score e) = true.
Proof.
  unfold candidates. rewrite filter_In, in_map_iff. split.
  - intros [(s & <- & Hs) Hpos]. apply filter_In in Hs as [Hs Hfno].
    apply bool_decide_eq_true in Hfno.
    exists s. repeat split; assumption.
  - intros (s & Hs & Hfno & -> & Hpos). split; [|exact Hpos].
    exists s. split; [reflexivity|]. apply filter_In. split; [exact Hs|].
    apply bool_decide_eq_true, Hfno.
Qed.

Lemma getFastVolumeAccumulators_eq allStocks fno :
  getFastVolumeAccumulators allStocks fno =
  firstn 5 (js_sort compareScoreDesc (candidates allStocks fno)).
Proof. reflexivity. Qed.

(** A positive finite score lies below the place of the infinity. *)
Lemma momentumScore_finite c v a q :
  momentumScore c v a = DFinite q -> (- 2 ^ 1024 < q < 2 ^ 1024)%Q.
Proof.
  unfold momentumScore, fl_add.
  destruct (fl_mul (fl_div v a) (round64 0.7)) as [x| |];
    destruct (fl_mul (DFinite c) (round64 0.3)) as [y| |];
    try destruct (Bool.eqb _ _); try discriminate.
  apply round64_finite.
Qed.

(** With change 5, volume 300 and average volume 100 the score is the
    double below 3.6, and not 3.6. *)
Lemma sample_score_is_not_3_6 :
  Scored.score (scoreStock (accumulatorSample "A" 5 300 100))
    = DFinite (2026619832316723 # 562949953421312)
  /\ (2026619832316723 # 562949953421312 < 3.6)%Q
  /\ map (fun e => Stock.symbol (Scored.stock e))
       (getFastVolumeAccumulators
          [accumulatorSample "A" 5 300 100; accumulatorSample "B" 3.25 375 100]
          {["A"; "B"]})
     = ["B"; "A"].
Proof. split; [|split]; vm_compute; reflexivity. Qed.

(** C8 (amended). The fast-accumulator ranking: every ranked entry is a
    stock of the input that belongs to the F&O set, has a strictly positive
    percent change, a volume and a non-zero 20-period average volume, and
    carries the score (volume / average * 0.7) + (change * 0.3) as the
    doubles compute it, each operation rounded, which is positive and, when
    finite, below the infinity that an overflow of the ratio gives; the
    ranking has at most five entries in descending order of score; an
    eligible stock with a positive score is either ranked or outscored by
    five ranked entries; and change 5, volume 300, average 100 score
    3.5999999999999996, the double below 3.6. *)
Theorem fast_accumulators_top5 (allStocks : list Stock.t) (fno : gset string) :
  let top := getFastVolumeAccumulators allStocks fno in
  (forall e, In e top ->
     In (Scored.stock e) allStocks
     /\ double_positive (Scored.score e) = true
     /\ (forall q, Scored.score e = DFinite q -> (0 < q < 2 ^ 1024)%Q)
     /\ exists c v a, eligible fno (Scored.stock e) c v a
                      /\ Scored.score e = momentumScore c v a)
  /\ length top <= 5
  /\ StronglySorted
       (fun x y => (extended (Scored.score y) <= extended (Scored.score x))%Q) top
  /\ (forall s c v a,
        In s allStocks -> eligible fno s c v a ->
        double_positive (momentumScore c v a) = true ->
        In (scoreStock s) top
        \/ (length top = 5
            /\ forall e, In e top ->
                 (extended (momentumScore c v a) <= extended (Scored.score e))%Q))
  /\ (forall s ind,
        Stock.change s = Some 5%Q -> Stock.volume s = Some 300%Q ->
        Stock.indicators s = Some ind -> ind !! "avgVolume20" = Some 100%Q ->
        Scored.score (scoreStock s) = DFinite (2026619832316723 # 562949953421312)).
Proof.
  intros top. subst top. rewrite getFastVolumeAccumulators_eq.
  set (sorted := js_sort compareScoreDesc (candidates allStocks fno)).
  assert (Hin : forall e, In e sorted <-> In e (candidates allStocks fno)).
  { intros e. apply js_sort_In. }
  split.
  { intros e He.
    apply In_firstn, Hin, candidates_In in He as (s & Hs & Hfno & -> & Hpos).
    destruct (scoreStock_positive s Hpos)
      as (c & v & a & Hc & Hc0 & Hv & Hv0 & Ha & Ha0 & Hsc).
    rewrite scoreStock_stock.
    split; [exact Hs|]. split; [exact Hpos|]. split.
    - intros q Hq. rewrite Hq in Hpos. simpl in Hpos.
      apply negb_true_iff, Qle_bool_false in Hpos.
      rewrite Hsc in Hq. apply momentumScore_finite in Hq. lra.
    - exists c, v, a. split; [|exact Hsc]. repeat split; assumption. }
  split; [apply firstn_le_length|].
  split.
  { pose proof (firstn_sorted (fun e => - extended (Scored.score e)) 5 sorted
                  (js_sort_sorted compareScoreDesc _ compareScoreDesc_key _)) as Hs.
    eapply StronglySorted_weaken; [|exact Hs].
    intros x y Hxy. unfold keyLe in Hxy. lra. }
  split.
  { intros s c v a Hs Hel Hpos.
    pose proof (scoreStock_eligible fno s c v a Hel) as Hsc.
    assert (Hcand : In (scoreStock s) sorted).
    { apply Hin, candidates_In. exists s. destruct Hel as (Hfno & _).
      repeat split; try assumption. rewrite Hsc. exact Hpos. }
    rewrite <- (firstn_skipn 5 sorted) in Hcand.
    apply in_app_or in Hcand as [Hfront | Hback]; [left; exact Hfront | right].
    split.
    + rewrite length_firstn. apply Nat.min_l.
      destruct (le_lt_dec 5 (length sorted)) as [Hle | Hlt]; [exact Hle|].
      rewrite skipn_all2 in Hback by lia. destruct Hback.
    + intros e He.
      pose proof (js_sort_top compareScoreDesc (fun e => - extended (Scored.score e))
                    compareScoreDesc_key 5 _ e (scoreStock s) He Hback) as Hle.
      unfold keyLe in Hle. rewrite <- Hsc. lra. }
  intros s ind Hc Hv Hind Ha.
  unfold scoreStock, avgVolume20. rewrite Hc, Hv, Hind, Ha. vm_compute. reflexivity.
Qed.

(** Two F&O stocks, A with change 5, volume 300 and average 100, B with
    change 3.25, volume 375 and average 100: both are ranked, B first. *)
Lemma fast_accumulators_top5_witness :
  let top := getFastVolumeAccumulators
               [accumulatorSample "A" 5 300 100; accumulatorSample "B" 3.25 375 100]
               {["A"; "B"]} in
  In (scoreStock (accumulatorSample "A" 5 300 100)) top
  /\ StronglySorted
       (fun x y => (extended (Scored.score y) <= extended (Scored.score x))%Q) top
  /\ map (fun e => Scored.score e) top
     = [DFinite (8106479329266893 # 2251799813685248);
        DFinite (2026619832316723 # 562949953421312)].
Proof.
  intros top.
  destruct (fast_accumulators_top5
              [accumulatorSample "A" 5 300 100; accumulatorSample "B" 3.25 375 100]
              {["A"; "B"]}) as (_ & _ & Hsorted & Hranked & _).
  split; [|split; [exact Hsorted | vm_compute; reflexivity]].
  assert (Hel : eligible {["A"; "B"]} (accumulatorSample "A" 5 300 100) 5 300 100).
  { split; [set_solver|]. split; [reflexivity|]. split; [reflexivity|].
    split; [reflexivity|]. split; [intros H; vm_compute in H; discriminate|].
    split; [eexists; split; reflexivity|]. intros H; vm_compute in H; discriminate. }
  destruct (Hranked (accumulatorSample "A" 5 300 100) 5%Q 300%Q 100%Q)
    as [H | [Hlen _]].
  - left. reflexivity.
  - exact Hel.
  - vm_compute. reflexivity.
  - exact H.
  - vm_compute in Hlen. discriminate.
Defined.

(** ** The chunk loop *)

Lemma ceil_div_lt (n c m : nat) : 0 < c -> m < ceil_div n c <-> m * c < n.
Proof.
  intros Hc. unfold ceil_div. split; intros H.
  - destruct (le_lt_dec n (m * c)) as [Hle | Hlt]; [|exact Hlt].
    assert ((n + (c - 1)) / c < S m); [|lia].
    apply Nat.Div0.div_lt_upper_bound. nia.
  - assert (S m <= (n + (c - 1)) / c); [|lia].
    apply Nat.div_le_lower_bound; [lia | nia].
Qed.

Lemma ceil_div_le_length (n c : nat) : 0 < c -> ceil_div n c <= n.
Proof.
  intros Hc. destruct (le_lt_dec (ceil_div n c) n) as [H | H]; [exact H|].
  apply ceil_div_lt in H; [nia | exact Hc].
Qed.

(** [ceil_div] is the ceiling of the quotient: the least number of chunks
    of size [c] that cover [n] items. *)
Lemma ceil_div_spec (n c : nat) :
  0 < c -> n <= ceil_div n c * c /\ forall m, n <= m * c -> ceil_div n c <= m.
Proof.
  intros Hc. split.
  - destruct (le_lt_dec n (ceil_div n c * c)) as [H | H]; [exact H|].
    apply ceil_div_lt in H; [lia | exact Hc].
  - intros m Hm. destruct (le_lt_dec (ceil_div n c) m) as [H | H]; [exact H|].
    apply ceil_div_lt in H; [lia | exact Hc].
Qed.

Section ChunkLoopFacts.
Context {St : Type} (C : nat) (items : list string).
Context (body : list string -> St -> St) (pause : St -> St).
Hypothesis C_pos : 0 < C.

Lemma chunksOf_length : length (chunksOf C items) = ceil_div (length items) C.
Proof. unfold chunksOf. rewrite length_map, length_seq. reflexivity. Qed.

(** The loop runs its body once per chunk; any fuel from the number of
    chunks on gives the same result. *)
Lemma chunk_loop_unfold fuel k s :
  (chunkCount C items) - k <= fuel ->
  chunk_loop C items body pause fuel (k * C) s =
  foldl (fun s k => chunk_iteration C items body pause (k * C) s) s
    (seq k ((chunkCount C items) - k)).
Proof using C_pos.
  revert k s. induction fuel as [|fuel IH]; intros k s Hfuel.
  - replace ((chunkCount C items) - k) with 0 by lia. reflexivity.
  - simpl chunk_loop. destruct (k * C <? length items) eqn:Hlt.
    + apply Nat.ltb_lt, ceil_div_lt in Hlt; [|exact C_pos]. fold (chunkCount C items) in Hlt.
      replace ((chunkCount C items) - k) with (S ((chunkCount C items) - S k)) by lia.
      simpl seq. simpl foldl.
      replace (k * C + C) with (S k * C) by lia.
      apply IH. lia.
    + apply Nat.ltb_ge in Hlt.
      assert (~ k < (chunkCount C items)).
      { intros Hk. apply ceil_div_lt in Hk; [lia | exact C_pos]. }
      replace ((chunkCount C items) - k) with 0 by lia. reflexivity.
Qed.

Lemma chunk_loop_chunks s :
  chunk_loop C items body pause (length items) 0 s =
  foldl (fun s k => chunk_iteration C items body pause (k * C) s) s
    (seq 0 (chunkCount C items)).
Proof using C_pos.
  rewrite <- (Nat.sub_0_r (chunkCount C items)). apply (chunk_loop_unfold _ 0).
  pose proof (ceil_div_le_length (length items) C C_pos). unfold chunkCount. lia.
Qed.

(** Whether a pause follows chunk [k]: it does unless [k] is the last. *)
Lemma pause_after k :
  (k * C + C <? length items) = (S k <? (chunkCount C items)).
Proof using C_pos.
  destruct (S k <? (chunkCount C items)) eqn:H.
  - apply Nat.ltb_lt, ceil_div_lt in H; [|exact C_pos]. apply Nat.ltb_lt. lia.
  - apply Nat.ltb_ge in H. apply Nat.ltb_ge.
    destruct (le_lt_dec (length items) (k * C + C)) as [Hle | Hlt]; [exact Hle|].
    assert (S k < (chunkCount C items)); [|lia].
    apply ceil_div_lt; [exact C_pos | lia].
Qed.

(** The chunks partition the items, in order. *)
Lemma concat_chunks_prefix m :
  concat (map (chunkAt C items) (seq 0 m)) = firstn (m * C) items.
Proof.
  induction m as [|m IH]; [reflexivity|].
  rewrite seq_S, map_app, concat_app, IH. simpl. rewrite app_nil_r.
  unfold chunkAt, slice.
  replace (m * C + C - m * C) with C by lia.
  rewrite take_take_drop. f_equal. lia.
Qed.

Lemma concat_chunksOf : concat (chunksOf C items) = items.
Proof using C_pos.
  unfold chunksOf. rewrite concat_chunks_prefix. apply firstn_all2.
  apply (ceil_div_spec (length items) C C_pos).
Qed.

Lemma chunkAt_length k : length ((chunkAt C items) k) <= C.
Proof.
  unfold chunkAt, slice. rewrite length_firstn. lia.
Qed.

Lemma chunkAt_nonempty k : k < (chunkCount C items) -> (chunkAt C items) k <> [].
Proof using C_pos.
  intros Hk Hnil. apply ceil_div_lt in Hk; [|exact C_pos].
  apply (f_equal (@length string)) in Hnil.
  unfold chunkAt, slice in Hnil. rewrite length_firstn, length_skipn in Hnil.
  simpl in Hnil. lia.
Qed.

Lemma In_chunksOf chunk x : In chunk (chunksOf C items) -> In x chunk -> In x items.
Proof.
  unfold chunksOf. rewrite in_map_iff. intros (k & <- & _) Hx.
  unfold chunkAt, slice in Hx. eapply In_skipn, In_firstn, Hx.
Qed.
End ChunkLoopFacts.

(** Both stages run the loop on a pair of a log and an output list, and
    each chunk appends to both. *)
Section AppendingLoop.
Context {X : Type} (C : nat) (items : list string).
Context (body : list string -> list Action * list X -> list Action * list X).
Context (chunkLog : list string -> list Action) (chunkOut : list string -> list X).
Hypothesis C_pos : 0 < C.
Hypothesis body_appends :
  forall chunk s, body chunk s = (s.1 ++ chunkLog chunk, s.2 ++ chunkOut chunk).

Lemma appending_fold (ks : list nat) (s : list Action * list X) :
  foldl (fun s k => chunk_iteration C items body pauseBetweenChunks (k * C) s) s ks =
  (s.1 ++ concat (map (fun k => chunkLog (chunkAt C items k)
                                 ++ pauseIf (S k <? chunkCount C items)) ks),
   s.2 ++ concat (map (fun k => chunkOut (chunkAt C items k)) ks)).
Proof using C_pos body_appends.
  revert s. induction ks as [|k ks IH]; intros [log out].
  - simpl. rewrite !app_nil_r. reflexivity.
  - simpl foldl. rewrite IH. unfold chunk_iteration.
    rewrite (pause_after C items C_pos), body_appends. fold (chunkAt C items k).
    simpl. destruct (S k <? chunkCount C items);
      unfold pauseBetweenChunks, pauseIf; simpl; rewrite <- ?app_assoc; reflexivity.
Qed.

Lemma appending_loop :
  chunk_loop C items body pauseBetweenChunks (length items) 0 ([], []) =
  (concat (map (fun k => chunkLog (chunkAt C items k)
                           ++ pauseIf (S k <? chunkCount C items))
             (seq 0 (chunkCount C items))),
   concat (map chunkOut (chunksOf C items))).
Proof using C_pos body_appends.
  rewrite (chunk_loop_chunks C items body _ C_pos), appending_fold.
  unfold chunksOf. rewrite map_map. reflexivity.
Qed.
End AppendingLoop.

Lemma paced_dispatches stage chunks :
  List.filter isDispatch (paced stage chunks) = map (Dispatch stage) chunks.
Proof.
  induction chunks as [|c [|c' rest] IH]; try reflexivity.
  change (paced stage (c :: c' :: rest))
    with (Dispatch stage c :: Pause 250 :: paced stage (c' :: rest)).
  set (tail := paced stage (c' :: rest)) in *.
  simpl List.filter. rewrite IH. reflexivity.
Qed.

Lemma paced_pauses stage chunks :
  List.filter isPause (paced stage chunks) = repeat (Pause 250) (length chunks - 1).
Proof.
  induction chunks as [|c [|c' rest] IH]; try reflexivity.
  change (paced stage (c :: c' :: rest))
    with (Dispatch stage c :: Pause 250 :: paced stage (c' :: rest)).
  set (tail := paced stage (c' :: rest)) in *.
  simpl List.filter. rewrite IH. simpl. rewrite Nat.sub_0_r. reflexivity.
Qed.

Lemma paced_last stage chunks :
  chunks <> [] -> exists chunk, last (paced stage chunks) = Some (Dispatch stage chunk).
Proof.
  induction chunks as [|c [|c' rest] IH]; intros Hne; [congruence | |].
  - exists c. reflexivity.
  - destruct IH as [chunk Hlast]; [discriminate|]. exists chunk.
    change (paced stage (c :: c' :: rest))
      with (Dispatch stage c :: Pause 250 :: paced stage (c' :: rest)).
    destruct (paced stage (c' :: rest)) eqn:Hp; [discriminate|]. exact Hlast.
Qed.

Lemma markers_app l1 l2 : markers (l1 ++ l2) = markers l1 ++ markers l2.
Proof. apply List.filter_app. Qed.

Lemma markers_concat_nil (ls : list (list Action)) :
  (forall l, In l ls -> markers l = []) -> markers (concat ls) = [].
Proof.
  induction ls as [|l ls IH]; intros H; [reflexivity|].
  simpl. rewrite markers_app, H, IH; [reflexivity | | left; reflexivity].
  intros l' Hl'. apply H. right. exact Hl'.
Qed.

(** A stage whose chunk logs are a dispatch followed by calls is paced. *)
Lemma paced_stage_log (stage : Stage) (C : nat) (items : list string)
    (calls : list string -> list Action) :
  (forall chunk, markers (calls chunk) = []) ->
  forall j d, j + d = chunkCount C items ->
  markers (concat (map (fun k => (Dispatch stage (chunkAt C items k) :: calls (chunkAt C items k))
                                   ++ pauseIf (S k <? chunkCount C items))
                     (seq j d))) =
  paced stage (map (chunkAt C items) (seq j d)).
Proof.
  intros Hcalls j d. revert j. induction d as [|d IH]; intros j Hjd; [reflexivity|].
  cbn [seq map concat].
  rewrite !markers_app.
  change (markers (Dispatch stage (chunkAt C items j) :: calls (chunkAt C items j)))
    with (Dispatch stage (chunkAt C items j) :: markers (calls (chunkAt C items j))).
  rewrite Hcalls, IH by lia.
  destruct d as [|d].
  - replace (S j <? chunkCount C items) with false; [reflexivity|].
    symmetry. apply Nat.ltb_ge. lia.
  - replace (S j <? chunkCount C items) with true; [reflexivity|].
    symmetry. apply Nat.ltb_lt. lia.
Qed.

(** ** Map *)

Lemma Map_from_snoc {V : Type} (entries : list (string * V)) k v :
  Map_from (entries ++ [(k, v)]) = <[k := v]> (Map_from entries).
Proof. unfold Map_from. rewrite foldl_snoc. reflexivity. Qed.

(** Whatever a key is bound to is one of the entries for that key. *)
Lemma Map_from_lookup {V : Type} (entries : list (string * V)) k v :
  Map_from entries !! k = Some v -> In (k, v) entries.
Proof.
  induction entries as [|[k' v'] entries IH] using rev_ind.
  - unfold Map_from. simpl. rewrite lookup_empty. discriminate.
  - rewrite Map_from_snoc. destruct (decide (k' = k)) as [-> | Hne].
    + rewrite lookup_insert_eq. intros [= ->]. apply in_or_app. right. left. reflexivity.
    + rewrite lookup_insert_ne by exact Hne. intros H.
      apply in_or_app. left. apply IH, H.
Qed.

(** Every key of the entries is bound. *)
Lemma Map_from_bound {V : Type} (entries : list (string * V)) k :
  In k (map fst entries) -> exists v, Map_from entries !! k = Some v.
Proof.
  induction entries as [|[k' v'] entries IH] using rev_ind; [intros []|].
  rewrite map_app, in_app_iff, Map_from_snoc. simpl.
  destruct (decide (k' = k)) as [-> | Hne].
  - intros _. exists v'. apply lookup_insert_eq.
  - intros [H | [H | []]]; [|congruence].
    rewrite lookup_insert_ne by exact Hne. apply IH, H.
Qed.

Lemma Map_from_unbound {V : Type} (entries : list (string * V)) k :
  ~ In k (map fst entries) -> Map_from entries !! k = None.
Proof.
  intros Hk. destruct (Map_from entries !! k) as [v|] eqn:H; [|reflexivity].
  apply Map_from_lookup in H. exfalso. apply Hk.
  apply in_map_iff. exists (k, v). split; [reflexivity | exact H].
Qed.

(** With distinct keys every entry is what its key is bound to. *)
Lemma Map_from_NoDup {V : Type} (entries : list (string * V)) k v :
  List.NoDup (map fst entries) -> In (k, v) entries -> Map_from entries !! k = Some v.
Proof.
  intros Hnd Hin.
  destruct (Map_from_bound entries k) as [v' Hv'].
  { apply in_map_iff. exists (k, v). split; [reflexivity | exact Hin]. }
  rewrite Hv'. f_equal. apply Map_from_lookup in Hv'.
  clear -Hnd Hin Hv'. induction entries as [|[k0 v0] entries IH]; [destruct Hin|].
  simpl in Hnd. inversion Hnd as [|? ? Hnotin Hnd']; subst.
  destruct Hin as [[= -> ->] | Hin], Hv' as [[= <-] | Hv'].
  - reflexivity.
  - exfalso. apply Hnotin, in_map_iff. exists (k, v'). split; [reflexivity | exact Hv'].
  - exfalso. apply Hnotin, in_map_iff. exists (k0, v). split; [reflexivity | exact Hin].
  - apply IH; assumption.
Qed.

(** ** Set *)

Lemma Set_add_In s x y : In y (Set_add s x) <-> In y s \/ y = x.
Proof.
  unfold Set_add. case_bool_decide as Hx.
  - apply list_elem_of_In in Hx. split; [tauto|]. intros [H | ->]; assumption.
  - rewrite in_app_iff. simpl. split; intros [H | H]; try tauto.
    + destruct H as [<- | []]. right. reflexivity.
    + right. left. symmetry. exact H.
Qed.

Lemma Set_add_NoDup s x : List.NoDup s -> List.NoDup (Set_add s x).
Proof.
  intros Hnd. unfold Set_add. case_bool_decide as Hx; [exact Hnd|].
  apply NoDup_ListNoDup, NoDup_app. repeat split.
  - apply NoDup_ListNoDup, Hnd.
  - intros y Hy Hy'. apply list_elem_of_singleton in Hy'. subst. contradiction.
  - apply NoDup_singleton.
Qed.

Lemma foldl_Set_add_NoDup s xs : List.NoDup s -> List.NoDup (foldl Set_add s xs).
Proof.
  revert s. induction xs as [|x xs IH]; intros s Hnd; [exact Hnd|].
  simpl. apply IH, Set_add_NoDup, Hnd.
Qed.

Lemma foldl_Set_add_In s xs y : In y (foldl Set_add s xs) <-> In y s \/ In y xs.
Proof.
  revert s. induction xs as [|x xs IH]; intros s; simpl; [tauto|].
  rewrite IH, Set_add_In. intuition.
Qed.

(** The universe has no duplicates and holds exactly the default symbols
    and the watchlist symbols. *)
Lemma universe_NoDup cfg env : List.NoDup (universe cfg env).
Proof.
  unfold universe, Set_from.
  destruct (watchlistRows env); repeat apply foldl_Set_add_NoDup; constructor.
Qed.

Lemma universe_In cfg env s :
  In s (universe cfg env) <->
  In s (defaultSymbols cfg)
  \/ exists dbSymbols, watchlistRows env = Resolved dbSymbols /\ In s dbSymbols.
Proof.
  unfold universe, Set_from. destruct (watchlistRows env) as [dbSymbols | e].
  - rewrite !foldl_Set_add_In. simpl. split.
    + intros [[[] | H] | H]; [left; exact H | right; eauto].
    + intros [H | (l & [= <-] & H)]; tauto.
  - rewrite foldl_Set_add_In. simpl. split.
    + intros [[] | H]. left. exact H.
    + intros [H | (l & [=] & _)]. right. exact H.
Qed.

(** With the default symbols of config.js the guard is never taken: the
    resolved universe of a cycle holds them, whatever the database
    answers. *)
Lemma shipped_universe_nonempty (env : Env) :
  universe config env <> []
  /\ In "^NSEI" (universe config env) /\ In "RELIANCE.NS" (universe config env).
Proof.
  assert (H : forall s, In s (defaultSymbols config) -> In s (universe config env)).
  { intros s Hs. apply universe_In. left. exact Hs. }
  assert (H1 : In "^NSEI" (universe config env)) by (apply H; simpl; tauto).
  split; [|split; [exact H1 | apply H; simpl; tauto]].
  intros Hnil. rewrite Hnil in H1. destruct H1.
Qed.

(** ** The historical stage *)

Lemma repeat_as_map {A B : Type} (b : B) (l : list A) :
  repeat b (length l) = map (fun _ => b) l.
Proof. induction l as [|x l IH]; simpl; [reflexivity | f_equal; exact IH]. Qed.

Lemma historicalChunk_appends env chunk s :
  historicalChunk env chunk s =
    (s.1 ++ Dispatch Historical chunk :: historicalCalls env chunk,
     s.2 ++ map (historyOf env chunk) chunk).
Proof.
  unfold historicalChunk, historicalCalls, retriesDuring, historyOf, chunkInTime.
  unfold awaitChunk, promiseWithTimeout.
  destruct (settlesAfter (allTasks (map (historyTask env) chunk)) <=? 20000)%N.
  - simpl settlesTo. cbv iota. rewrite !map_map. reflexivity.
  - rewrite repeat_as_map. reflexivity.
Qed.

Lemma delayed_actions ms schedule : map snd (delayed ms schedule) = map snd schedule.
Proof. unfold delayed. rewrite map_map. reflexivity. Qed.

Lemma schedule_insert_perm e schedule :
  Permutation (schedule_insert e schedule) (e :: schedule).
Proof.
  induction schedule as [|e' schedule IH]; simpl; [reflexivity|].
  destruct (e.1 <=? e'.1)%N; [reflexivity|].
  rewrite IH. apply perm_swap.
Qed.

Lemma inTimeOrder_perm schedule : Permutation (inTimeOrder schedule) schedule.
Proof.
  induction schedule as [|e schedule IH]; simpl; [reflexivity|].
  rewrite schedule_insert_perm. apply perm_skip, IH.
Qed.

(** A task's schedule is its first call followed by the rest. *)
Lemma schedule_split (task : HistoryTask) :
  taskLog task
  = map snd (firstn 1 (taskSchedule task)) ++ map snd (skipn 1 (taskSchedule task)).
Proof. unfold taskLog. rewrite <- map_app, firstn_skipn. reflexivity. Qed.

(** Every action of a task is a call to the provider or a wait. *)
Lemma historyAttempts_actions env symbol remaining attempt :
  forallb isTaskAction (taskLog (historyAttempts env symbol remaining attempt)) = true.
Proof.
  revert attempt. induction remaining as [|remaining IH]; intros attempt; [reflexivity|].
  unfold taskLog in *. simpl.
  destruct (settlesTo (historical env symbol attempt)); [reflexivity|].
  destruct (attempt <? maxRetries); simpl; rewrite delayed_actions; apply IH.
Qed.

(** The retries of a chunk, awaited or abandoned, are those of its tasks. *)
Lemma chunkRetries_perm env chunk :
  Permutation (retriesDuring env chunk ++ abandonedRetries env chunk)
    (concat (map (fun s => map snd (skipn 1 (taskSchedule (historyTask env s)))) chunk)).
Proof.
  unfold retriesDuring, abandonedRetries. cbv zeta.
  set (tasks := map (historyTask env) chunk).
  set (p := whileAwaited (awaitChunk chunk tasks)).
  rewrite <- map_app.
  transitivity (map snd (chunkRetries tasks)).
  - apply Permutation_map.
    generalize (chunkRetries tasks) as l. intros l.
    induction l as [|e l IH]; [reflexivity|]. simpl.
    destruct (p e); simpl; [apply perm_skip, IH|].
    rewrite <- Permutation_middle. apply perm_skip, IH.
  - unfold chunkRetries. rewrite inTimeOrder_perm. subst tasks.
    rewrite map_map. clear p.
    induction chunk as [|s chunk IH]; [reflexivity|].
    cbn [map concat]. rewrite map_app, IH. reflexivity.
Qed.

Lemma chunkStarts_eq env chunk :
  chunkStarts (map (historyTask env) chunk)
  = concat (map (fun s => map snd (firstn 1 (taskSchedule (historyTask env s)))) chunk).
Proof. unfold chunkStarts. rewrite map_map. reflexivity. Qed.

(** Every action of a chunk, awaited or abandoned, is an action of the task
    of one of its symbols. *)
Lemma chunk_action_of_task env chunk a :
  In a (historicalCalls env chunk ++ abandonedRetries env chunk) <->
  exists s, In s chunk /\ In a (taskLog (historyTask env s)).
Proof.
  assert (Hretries : In a (retriesDuring env chunk ++ abandonedRetries env chunk)
            <-> In a (concat (map (fun s => map snd (skipn 1
                                (taskSchedule (historyTask env s)))) chunk))).
  { split; apply Permutation_in; [|symmetry]; apply chunkRetries_perm. }
  unfold historicalCalls. rewrite <- app_assoc, in_app_iff, Hretries, chunkStarts_eq.
  rewrite !in_concat. split.
  - intros [(l & Hl & Ha) | (l & Hl & Ha)];
      apply in_map_iff in Hl as (s & <- & Hs); exists s; (split; [exact Hs|]);
      rewrite schedule_split; apply in_or_app; [left | right]; exact Ha.
  - intros (s & Hs & Ha). rewrite schedule_split in Ha.
    apply in_app_or in Ha as [Ha | Ha]; [left | right];
      eexists; (split; [apply in_map_iff; exists s; split; [reflexivity | exact Hs]|]);
      exact Ha.
Qed.

Lemma historicalCalls_actions env chunk :
  forallb isTaskAction (historicalCalls env chunk) = true.
Proof.
  apply forallb_forall. intros a Ha.
  assert (H : In a (historicalCalls env chunk ++ abandonedRetries env chunk))
    by (apply in_or_app; left; exact Ha).
  apply chunk_action_of_task in H as (s & _ & H).
  pose proof (historyAttempts_actions env s maxRetries 1) as Hall.
  rewrite forallb_forall in Hall. apply Hall, H.
Qed.

Lemma taskActions_markers (log : list Action) :
  forallb isTaskAction log = true -> markers log = [].
Proof.
  induction log as [|a log IH]; [reflexivity|]. simpl.
  intros H. apply andb_prop in H as [Ha H]. unfold markers in *. simpl.
  rewrite (IH H). destruct a; try discriminate; reflexivity.
Qed.

Lemma taskActions_emitted (log : list Action) :
  forallb isTaskAction log = true -> emitted log = [].
Proof.
  induction log as [|a log IH]; [reflexivity|]. simpl.
  intros H. apply andb_prop in H as [Ha H]. unfold emitted in *. simpl.
  rewrite (IH H). destruct a; try discriminate; reflexivity.
Qed.

Lemma historicalCalls_markers env chunk : markers (historicalCalls env chunk) = [].
Proof. apply taskActions_markers, historicalCalls_actions. Qed.

(** The first calls of a chunk: one for each symbol, in the order of the
    chunk. *)
Lemma chunkStarts_first_calls env chunk :
  chunkStarts (map (historyTask env) chunk) = map (fun s => HistoricalCall s 1) chunk.
Proof.
  rewrite chunkStarts_eq.
  induction chunk as [|s chunk IH]; [reflexivity|].
  cbn [map concat]. rewrite IH. f_equal.
  unfold historyTask, maxRetries. simpl.
  destruct (settlesTo (historical env s 1)); reflexivity.
Qed.

Lemma task_retry env s :
  map snd (skipn 1 (taskSchedule (historyTask env s))) = retryOf env s.
Proof.
  unfold historyTask, maxRetries, retryOf. simpl.
  destruct (settlesTo (historical env s 1)); [reflexivity|]. simpl.
  destruct (settlesTo (historical env s 2)); reflexivity.
Qed.

Lemma chunk_retries_perm env chunk :
  Permutation (retriesDuring env chunk ++ abandonedRetries env chunk)
    (concat (map (retryOf env) chunk)).
Proof.
  rewrite chunkRetries_perm.
  erewrite map_ext; [reflexivity|]. intros s. apply task_retry.
Qed.

Lemma chunk_in_time_keeps_all env chunk :
  chunkInTime env chunk = true -> abandonedRetries env chunk = [].
Proof.
  unfold chunkInTime, abandonedRetries, awaitChunk, promiseWithTimeout.
  intros ->. simpl.
  induction (chunkRetries (map (historyTask env) chunk)) as [|e l IH]; [reflexivity|].
  exact IH.
Qed.

(** Pairing the items with the outputs of their chunks, position by
    position. *)
Lemma zip_chunks {V : Type} (d : V) (g : list string -> string -> V)
    (cs : list (list string)) :
  imap (fun i symbol =>
          (symbol, default d (concat (map (fun c => map (g c) c) cs) !! i)))
       (concat cs)
  = concat (map (fun c => map (fun s => (s, g c s)) c) cs).
Proof.
  induction cs as [|c cs IH]; [reflexivity|].
  cbn [map concat]. rewrite imap_app. f_equal.
  - rewrite <- (imap_const (fun s => (s, g c s))). apply imap_ext.
    intros i x Hi. simpl. f_equal.
    rewrite lookup_app_l by (rewrite length_map; eapply lookup_lt_Some, Hi).
    rewrite list_lookup_fmap, Hi. reflexivity.
  - rewrite <- IH. apply imap_ext. intros i x Hi. f_equal.
    rewrite lookup_app_r by (rewrite length_map; lia).
    rewrite length_map. replace (length c + i - length c) with i by lia.
    reflexivity.
Qed.

Lemma historicalEntries_keys env symbols :
  map fst (historicalEntries env symbols) = symbols.
Proof.
  unfold historicalEntries.
  rewrite <- (concat_chunksOf 25 symbols) at 2 by lia.
  generalize (chunksOf 25 symbols) as cs.
  induction cs as [|c cs IH]; [reflexivity|].
  cbn [map concat]. rewrite map_app, IH, map_map. simpl. rewrite map_id. reflexivity.
Qed.

Lemma fetchAllHistoricalData_eq env symbols :
  fetchAllHistoricalData env symbols =
    (concat (map (fun k => (Dispatch Historical (chunkAt 25 symbols k)
                              :: historicalCalls env (chunkAt 25 symbols k))
                           ++ pauseIf (S k <? chunkCount 25 symbols))
               (seq 0 (chunkCount 25 symbols))),
     Resolved (Map_from (historicalEntries env symbols))).
Proof.
  unfold fetchAllHistoricalData.
  rewrite (appending_loop 25 symbols (historicalChunk env)
             (fun chunk => Dispatch Historical chunk :: historicalCalls env chunk)
             (fun chunk => map (historyOf env chunk) chunk))
    by (try lia; apply historicalChunk_appends).
  f_equal. f_equal. f_equal. unfold historicalEntries.
  rewrite <- zip_chunks with (d := []).
  f_equal. symmetry. apply concat_chunksOf. lia.
Qed.

(** What the historical map holds for the symbols of a chunk. *)
Lemma historicalDataMap_lookup env symbols chunk s :
  List.NoDup symbols -> In chunk (chunksOf 25 symbols) -> In s chunk ->
  Map_from (historicalEntries env symbols) !! s = Some (historyOf env chunk s).
Proof.
  intros Hnd Hchunk Hs. apply Map_from_NoDup.
  - rewrite historicalEntries_keys. exact Hnd.
  - unfold historicalEntries. apply in_concat.
    exists (map (fun s => (s, historyOf env chunk s)) chunk). split.
    + apply in_map_iff. exists chunk. split; [reflexivity | exact Hchunk].
    + apply in_map_iff. exists s. split; [reflexivity | exact Hs].
Qed.

(** A symbol outside the universe of the cycle has no entry. *)
Lemma historicalDataMap_unbound env symbols s :
  ~ In s symbols -> Map_from (historicalEntries env symbols) !! s = None.
Proof.
  intros Hs. apply Map_from_unbound. rewrite historicalEntries_keys. exact Hs.
Qed.

(** ** The analysis stage *)

Lemma omap_id_map {A B : Type} (f : A -> option B) (l : list A) :
  omap id (map f l) = omap f l.
Proof.
  induction l as [|x l IH]; [reflexivity|].
  cbn [map omap list_omap]. rewrite <- IH. reflexivity.
Qed.

Lemma concat_map_omap {A B : Type} (f : A -> option B) (cs : list (list A)) :
  concat (map (omap f) cs) = omap f (concat cs).
Proof.
  induction cs as [|c cs IH]; [reflexivity|].
  simpl. rewrite omap_app, IH. reflexivity.
Qed.

Lemma In_omap {A B : Type} (f : A -> option B) (l : list A) (y : B) :
  In y (omap f l) <-> exists x, In x l /\ f x = Some y.
Proof.
  rewrite <- list_elem_of_In, list_elem_of_omap.
  split; intros (x & Hx & Hf); exists x; split; try assumption;
    apply list_elem_of_In; assumption.
Qed.

Lemma analysisChunk_appends env quotesMap historicalDataMap strategies chunk s :
  analysisChunk env quotesMap historicalDataMap strategies chunk s =
    (s.1 ++ Dispatch AnalysisStage chunk
            :: analysisCalls env quotesMap historicalDataMap strategies chunk,
     s.2 ++ omap (analysisOf env quotesMap historicalDataMap strategies) chunk).
Proof.
  unfold analysisChunk, analysisCalls. f_equal. f_equal.
  rewrite map_map. apply omap_id_map.
Qed.

(** The request is sent exactly when the symbol has a quote and a
    non-empty history; the stock is built exactly when the answer has a
    body. *)
Lemma analyzeSymbol_cases env quotesMap historicalDataMap strategies symbol :
  (exists stockQuote history,
      quotesMap !! symbol = Some stockQuote
      /\ historicalDataMap !! symbol = Some history /\ history <> []
      /\ analyzeSymbol env quotesMap historicalDataMap strategies symbol =
           ([Fire (Payload.mk stockQuote history strategies)],
            match fire env (Payload.mk stockQuote history strategies) with
            | Resolved (Some analysisResult) =>
                Some (mkStock stockQuote history analysisResult)
            | _ => None
            end))
  \/ ((quotesMap !! symbol = None
       \/ historicalDataMap !! symbol = None
       \/ historicalDataMap !! symbol = Some [])
      /\ analyzeSymbol env quotesMap historicalDataMap strategies symbol = ([], None)).
Proof.
  unfold analyzeSymbol.
  destruct (quotesMap !! symbol) as [stockQuote|]; [|right; tauto].
  destruct (historicalDataMap !! symbol) as [history|]; [|right; tauto].
  destruct history as [|bar history]; [right; tauto|].
  left. exists stockQuote, (bar :: history). repeat split; [discriminate|].
  simpl. unfold analyzeWithPythonService.
  destruct (fire env _) as [[a|]|]; reflexivity.
Qed.

Lemma analysisCalls_markers env quotesMap historicalDataMap strategies chunk :
  markers (analysisCalls env quotesMap historicalDataMap strategies chunk) = [].
Proof.
  apply markers_concat_nil. intros l Hl.
  rewrite map_map in Hl. apply in_map_iff in Hl as (s & <- & _).
  destruct (analyzeSymbol_cases env quotesMap historicalDataMap strategies s)
    as [(q & h & _ & _ & _ & ->) | [_ ->]]; reflexivity.
Qed.

Lemma analyzeAllStocks_eq env symbols quotesMap historicalDataMap strategies :
  analyzeAllStocks env symbols quotesMap historicalDataMap strategies =
    (concat (map (fun k =>
                    (Dispatch AnalysisStage (chunkAt 10 symbols k)
                       :: analysisCalls env quotesMap historicalDataMap strategies
                            (chunkAt 10 symbols k))
                    ++ pauseIf (S k <? chunkCount 10 symbols))
               (seq 0 (chunkCount 10 symbols))),
     Resolved (omap (analysisOf env quotesMap historicalDataMap strategies) symbols)).
Proof.
  unfold analyzeAllStocks.
  rewrite (appending_loop 10 symbols
             (analysisChunk env quotesMap historicalDataMap strategies)
             (fun chunk => Dispatch AnalysisStage chunk
                             :: analysisCalls env quotesMap historicalDataMap strategies chunk)
             (omap (analysisOf env quotesMap historicalDataMap strategies)))
    by (try lia; apply analysisChunk_appends).
  f_equal. f_equal. rewrite concat_map_omap, concat_chunksOf by lia. reflexivity.
Qed.

(** ** The whole cycle *)

(** The log of a cycle that passes the gate with a non-empty universe and
    gets its strategies and quotes. *)
Lemma cycle_log cfg env strategies quoteResults :
  universe cfg env <> [] ->
  strategyRows env = Resolved strategies ->
  promiseWithTimeout (quote env (universe cfg env)) 20000
    "Yahoo Finance quote API call timed out" = Resolved quoteResults ->
  let symbols := universe cfg env in
  let quotesMap := quotesMapOf quoteResults in
  let historicalDataMap := Map_from (historicalEntries env symbols) in
  let mappedData := omap (analysisOf env quotesMap historicalDataMap strategies) symbols in
  actions (fetchAndEmitStockUpdates cfg env true) =
    [DbAll "SELECT DISTINCT symbol FROM watchlists";
     DbAll "SELECT * FROM strategies";
     QuoteCall symbols]
    ++ actions (fetchAllHistoricalData env symbols)
    ++ actions (analyzeAllStocks env symbols quotesMap historicalDataMap strategies)
    ++ cycleEnd cfg env mappedData.
Proof.
  intros Hne Hstrat Hquote symbols quotesMap historicalDataMap mappedData.
  assert (Hlen : (length symbols =? 0) = false).
  { subst symbols. destruct (universe cfg env); [congruence | reflexivity]. }
  unfold fetchAndEmitStockUpdates, actions.
  rewrite getCombinedTrackedSymbols_eq, Hstrat. fold symbols.
  run_M. rewrite Hlen. run_M.
  fold symbols in Hquote. rewrite Hquote. run_M.
  fold (quotesMapOf quoteResults). fold quotesMap.
  rewrite (fetchAllHistoricalData_eq env symbols). run_M.
  fold historicalDataMap.
  rewrite (analyzeAllStocks_eq env symbols quotesMap historicalDataMap strategies).
  run_M. fold mappedData. unfold cycleEnd.
  destruct (groupByStrategy mappedData) as [g | e]; run_M;
    rewrite ?app_nil_r, <- ?app_assoc; reflexivity.
Qed.

(** *** What a cycle emits *)

Lemma emitted_app l1 l2 : emitted (l1 ++ l2) = emitted l1 ++ emitted l2.
Proof. apply omap_app. Qed.

Lemma emitted_concat_nil (ls : list (list Action)) :
  (forall l, In l ls -> emitted l = []) -> emitted (concat ls) = [].
Proof.
  induction ls as [|l ls IH]; intros H; [reflexivity|].
  simpl. rewrite emitted_app, H, IH; [reflexivity | | left; reflexivity].
  intros l' Hl'. apply H. right. exact Hl'.
Qed.

Lemma fetchAllHistoricalData_emitted env symbols :
  emitted (actions (fetchAllHistoricalData env symbols)) = [].
Proof.
  rewrite fetchAllHistoricalData_eq. unfold actions; cbn [fst].
  apply emitted_concat_nil. intros l Hl.
  apply in_map_iff in Hl as (k & <- & _).
  rewrite emitted_app.
  change (emitted (Dispatch Historical ?c :: ?l)) with (emitted l).
  assert (emitted (historicalCalls env (chunkAt 25 symbols k)) = []) as ->
    by apply taskActions_emitted, historicalCalls_actions.
  destruct (S k <? chunkCount 25 symbols); reflexivity.
Qed.

Lemma forallb_concat {A : Type} (p : A -> bool) (ls : list (list A)) :
  (forall l, In l ls -> forallb p l = true) -> forallb p (concat ls) = true.
Proof.
  induction ls as [|l ls IH]; intros H; [reflexivity|].
  simpl. rewrite forallb_app, H, IH; [reflexivity | | left; reflexivity].
  intros l' Hl'. apply H. right. exact Hl'.
Qed.

Lemma fetchAllHistoricalData_actions env symbols :
  forallb isHistoricalStageAction (actions (fetchAllHistoricalData env symbols)) = true.
Proof.
  rewrite fetchAllHistoricalData_eq. unfold actions; cbn [fst].
  apply forallb_concat. intros l Hl. apply in_map_iff in Hl as (k & <- & _).
  rewrite forallb_app. apply andb_true_iff. split.
  - simpl. pose proof (historicalCalls_actions env (chunkAt 25 symbols k)) as H.
    rewrite forallb_forall in *. intros a Ha. specialize (H a Ha).
    destruct a; try discriminate; reflexivity.
  - destruct (S k <? chunkCount 25 symbols); reflexivity.
Qed.

Lemma analyzeAllStocks_emitted env symbols quotesMap historicalDataMap strategies :
  emitted (actions (analyzeAllStocks env symbols quotesMap historicalDataMap strategies))
  = [].
Proof.
  rewrite analyzeAllStocks_eq. unfold actions; cbn [fst].
  apply emitted_concat_nil. intros l Hl.
  apply in_map_iff in Hl as (k & <- & _).
  rewrite emitted_app.
  change (emitted (Dispatch AnalysisStage ?c :: ?l)) with (emitted l).
  assert (emitted (analysisCalls env quotesMap historicalDataMap strategies
                     (chunkAt 10 symbols k)) = []) as ->.
  { apply emitted_concat_nil. intros l Hl. rewrite map_map in Hl.
    apply in_map_iff in Hl as (s & <- & _).
    destruct (analyzeSymbol_cases env quotesMap historicalDataMap strategies s)
      as [(q & h & _ & _ & _ & ->) | [_ ->]]; reflexivity. }
  destruct (S k <? chunkCount 10 symbols); reflexivity.
Qed.

(** A cycle either broadcasts no stock data at all, or it went through
    every stage and ends with the five events of the broadcast. *)
Lemma cycle_emitted cfg env healthy :
  List.filter isStockData (emitted (actions (fetchAndEmitStockUpdates cfg env healthy))) = []
  \/ exists strategies quoteResults customStrategyResults,
       healthy = true
       /\ universe cfg env <> []
       /\ strategyRows env = Resolved strategies
       /\ promiseWithTimeout (quote env (universe cfg env)) 20000
            "Yahoo Finance quote API call timed out" = Resolved quoteResults
       /\ groupByStrategy (mappedDataOf cfg env strategies quoteResults)
            = Resolved customStrategyResults
       /\ emitted (actions (fetchAndEmitStockUpdates cfg env healthy)) =
            let mappedData := mappedDataOf cfg env strategies quoteResults in
            [stockUpdate mappedData;
             topRecommendationsUpdate (topBuys mappedData) (topSells mappedData);
             customStrategiesUpdate (sortAndSlice <$> customStrategyResults) (now env);
             fastVolumeAccumulatorsUpdate
               (getFastVolumeAccumulators mappedData (fnoSymbols cfg));
             scanStatus "Scan complete. Broadcasting updates." "done"].
Proof.
  destruct healthy; [|left; reflexivity].
  destruct (universe cfg env) as [|s0 rest] eqn:Hu.
  { left. rewrite (empty_universe_log cfg env Hu). reflexivity. }
  assert (Hne : universe cfg env <> []) by (rewrite Hu; discriminate).
  destruct (strategyRows env) as [strategies | e] eqn:Hstrat.
  2:{ left. unfold fetchAndEmitStockUpdates, actions.
      rewrite getCombinedTrackedSymbols_eq, Hstrat, Hu. run_M. reflexivity. }
  destruct (promiseWithTimeout (quote env (universe cfg env)) 20000
              "Yahoo Finance quote API call timed out") as [quoteResults | e] eqn:Hquote.
  2:{ left. unfold fetchAndEmitStockUpdates, actions.
      rewrite getCombinedTrackedSymbols_eq, Hstrat. run_M.
      rewrite Hquote, Hu. run_M. reflexivity. }
  pose proof (cycle_log cfg env strategies quoteResults Hne Hstrat Hquote) as Hlog.
  cbv zeta in Hlog. fold (mappedDataOf cfg env strategies quoteResults) in Hlog.
  rewrite <- Hu. rewrite Hlog. rewrite !emitted_app.
  rewrite fetchAllHistoricalData_emitted, analyzeAllStocks_emitted.
  unfold cycleEnd.
  destruct (groupByStrategy (mappedDataOf cfg env strategies quoteResults))
    as [g | e] eqn:Hgroup; [right | left; reflexivity].
  exists strategies, quoteResults, g. repeat split; try assumption.
Qed.

(** ** Analyzed stocks *)

Lemma quotesMapOf_lookup quoteResults s q :
  quotesMapOf quoteResults !! s = Some q ->
  Quote.symbol q = s /\ In (Some q) quoteResults.
Proof.
  intros H. apply Map_from_lookup, in_map_iff in H as (q' & [= <- <-] & Hq).
  split; [reflexivity|].
  apply In_omap in Hq as (o & Ho & Hid). simpl in Hid. subst o. exact Ho.
Qed.

Lemma analysisOf_Some env quotesMap historicalDataMap strategies s stock :
  analysisOf env quotesMap historicalDataMap strategies s = Some stock <->
  hasBoth env quotesMap historicalDataMap strategies s stock.
Proof.
  unfold analysisOf, hasBoth.
  destruct (analyzeSymbol_cases env quotesMap historicalDataMap strategies s)
    as [(q & h & Hq & Hh & Hne & ->) | [Hmissing ->]]; cbn [snd].
  - split.
    + destruct (fire env (Payload.mk q h strategies)) as [[a|]|] eqn:Hfire;
        try discriminate.
      intros [= <-]. exists q, h, a. repeat split; assumption.
    + intros (q' & h' & a & Hq' & Hh' & _ & Hfire & ->).
      rewrite Hq in Hq'. rewrite Hh in Hh'.
      injection Hq' as <-. injection Hh' as <-. rewrite Hfire. reflexivity.
  - split; [discriminate|].
    intros (q' & h' & a & Hq' & Hh' & Hne & _).
    destruct Hmissing as [H | [H | H]]; congruence.
Qed.

Lemma topBuys_In mappedData x : In x (topBuys mappedData) -> In x mappedData.
Proof.
  unfold topBuys. intros H. apply In_firstn in H.
  apply (Permutation_in _ (js_sort_perm compareRsiAsc _)) in H.
  apply filter_In in H. tauto.
Qed.

Lemma topSells_In mappedData x : In x (topSells mappedData) -> In x mappedData.
Proof.
  unfold topSells. intros H. apply In_firstn in H.
  apply (Permutation_in _ (js_sort_perm compareRsiDesc _)) in H.
  apply filter_In in H. tauto.
Qed.

(** The stocks of the strategy groups are stocks of the mapped data. *)
Lemma recordMatch_stocks (l : list Stock.t) stockData acc mt :
  In stockData l ->
  (forall m name g x, acc = Resolved m -> m !! name = Some g ->
     In x (Group.stocks g) -> In x l) ->
  forall m name g x,
    recordMatch stockData acc mt = Resolved m -> m !! name = Some g ->
    In x (Group.stocks g) -> In x l.
Proof.
  intros Hin Hacc m name g x. unfold recordMatch.
  destruct acc as [results | e]; [|discriminate].
  destruct (results !! Match.name mt) as [g0|] eqn:Hlook.
  - intros [= <-]. destruct (decide (Match.name mt = name)) as [-> | Hne].
    + rewrite lookup_insert_eq. intros [= <-]. simpl.
      rewrite in_app_iff. intros [Hx | [<- | []]]; [|exact Hin].
      eapply Hacc; [reflexivity | exact Hlook | exact Hx].
    + rewrite lookup_insert_ne by exact Hne. intros Hg Hx.
      eapply Hacc; [reflexivity | exact Hg | exact Hx].
  - case_bool_decide; [discriminate|].
    intros [= <-]. destruct (decide (Match.name mt = name)) as [-> | Hne].
    + rewrite lookup_insert_eq. intros [= <-]. simpl.
      intros [<- | []]. exact Hin.
    + rewrite lookup_insert_ne by exact Hne. intros Hg Hx.
      eapply Hacc; [reflexivity | exact Hg | exact Hx].
Qed.

Lemma groupByStrategy_stocks mappedData m name g x :
  groupByStrategy mappedData = Resolved m -> m !! name = Some g ->
  In x (Group.stocks g) -> In x mappedData.
Proof.
  unfold groupByStrategy.
  assert (Hgen : forall (l done : list Stock.t) acc,
            (forall s, In s done -> In s l) ->
            (forall m name g x, acc = Resolved m -> m !! name = Some g ->
               In x (Group.stocks g) -> In x l) ->
            forall m name g x,
              foldl (fun acc stockData =>
                       foldl (recordMatch stockData) acc
                         (Stock.customStrategyMatches stockData)) acc done
                = Resolved m ->
              m !! name = Some g -> In x (Group.stocks g) -> In x l).
  { intros l done. induction done as [|stockData done IH]; intros acc Hsub Hacc.
    - simpl. intros m' name' g' x' ->. eapply Hacc. reflexivity.
    - simpl. apply IH; [intros s Hs; apply Hsub; right; exact Hs|].
      assert (Hs : In stockData l) by (apply Hsub; left; reflexivity).
      generalize (Stock.customStrategyMatches stockData) as matches.
      intros matches. revert acc Hacc.
      induction matches as [|mt matches IHm]; intros acc Hacc.
      + simpl. intros m' name' g' x' ->. eapply Hacc. reflexivity.
      + simpl. apply IHm. apply recordMatch_stocks; assumption. }
  intros Hgroup. eapply (Hgen mappedData mappedData (Resolved ∅)); eauto.
  intros m' name' g' x' [= <-]. rewrite lookup_empty. discriminate.
Qed.

Lemma sortAndSlice_stocks g x :
  In x (Group.stocks (sortAndSlice g)) -> In x (Group.stocks g).
Proof.
  unfold sortAndSlice. simpl. intros H.
  apply In_firstn in H. apply (Permutation_in _ (js_sort_perm compareChangeDesc _)) in H.
  exact H.
Qed.

(** C1. Whenever a cycle broadcasts the analyzed stocks, the cycle had its
    strategies and its quotes, and: every broadcast stock carries a symbol of
    the resolved universe and was built from the quote bound to that symbol
    in the quote map and from a non-null analysis result for it; a symbol of
    the universe has a stock in the broadcast exactly when it has both, so
    that a symbol missing either is dropped; and the broadcast
    recommendations, strategy groups and accumulators are drawn from the
    same stocks. *)
Theorem analyzed_stocks_have_quote_and_analysis (cfg : Config) (env : Env)
    (healthy : bool) (data : list Stock.t) :
  In (stockUpdate data) (emitted (actions (fetchAndEmitStockUpdates cfg env healthy))) ->
  exists strategies quoteResults,
    strategyRows env = Resolved strategies
    /\ promiseWithTimeout (quote env (universe cfg env)) 20000
         "Yahoo Finance quote API call timed out" = Resolved quoteResults
    /\ (forall stock, In stock data ->
          In (Stock.symbol stock) (universe cfg env)
          /\ hasBoth env (quotesMapOf quoteResults)
               (Map_from (historicalEntries env (universe cfg env))) strategies
               (Stock.symbol stock) stock)
    /\ (forall s, In s (universe cfg env) ->
          (exists stock, In stock data /\ Stock.symbol stock = s)
          <-> (exists stock, hasBoth env (quotesMapOf quoteResults)
                 (Map_from (historicalEntries env (universe cfg env))) strategies
                 s stock))
    /\ (forall buys sells x,
          In (topRecommendationsUpdate buys sells)
             (emitted (actions (fetchAndEmitStockUpdates cfg env healthy))) ->
          In x buys \/ In x sells -> In x data)
    /\ (forall groups timestamp name g x,
          In (customStrategiesUpdate groups timestamp)
             (emitted (actions (fetchAndEmitStockUpdates cfg env healthy))) ->
          groups !! name = Some g -> In x (Group.stocks g) -> In x data)
    /\ (forall top x,
          In (fastVolumeAccumulatorsUpdate top)
             (emitted (actions (fetchAndEmitStockUpdates cfg env healthy))) ->
          In x top -> In (Scored.stock x) data).
Proof.
  intros Hdata.
  destruct (cycle_emitted cfg env healthy)
    as [Hnone | (strategies & quoteResults & groups & _ & _ & Hstrat & Hquote & Hgroup
                 & Hemitted)].
  { exfalso.
    assert (Hin : In (stockUpdate data)
              (List.filter isStockData
                 (emitted (actions (fetchAndEmitStockUpdates cfg env healthy))))).
    { apply filter_In. split; [exact Hdata | reflexivity]. }
    rewrite Hnone in Hin. exact Hin. }
  rewrite Hemitted in *. cbv zeta in Hdata.
  assert (Heq : data = mappedDataOf cfg env strategies quoteResults).
  { destruct Hdata as [[= <-] | [H | [H | [H | [H | []]]]]];
      [reflexivity | discriminate..]. }
  clear Hdata Hemitted. exists strategies, quoteResults.
  set (quotesMap := quotesMapOf quoteResults).
  set (historicalDataMap := Map_from (historicalEntries env (universe cfg env))).
  assert (Hstock : forall stock s,
            analysisOf env quotesMap historicalDataMap strategies s = Some stock ->
            Stock.symbol stock = s).
  { intros stock s H. apply analysisOf_Some in H as (q & h & a & Hq & _ & _ & _ & ->).
    apply quotesMapOf_lookup in Hq as [Hsym _]. exact Hsym. }
  split; [exact Hstrat|]. split; [exact Hquote|]. subst data. repeat split.
  - apply In_omap in H as (s & Hs & Hsome).
    rewrite (Hstock _ _ Hsome). exact Hs.
  - apply In_omap in H as (s & Hs & Hsome).
    rewrite (Hstock _ _ Hsome). apply analysisOf_Some, Hsome.
  - intros (stock & Hin & Hsym). exists stock.
    apply In_omap in Hin as (s' & Hs' & Hsome).
    rewrite (Hstock _ _ Hsome) in Hsym. subst s'. apply analysisOf_Some, Hsome.
  - intros (stock & Hboth). exists stock. apply analysisOf_Some in Hboth.
    split; [|apply (Hstock _ _ Hboth)].
    apply In_omap. exists s. split; assumption.
  - intros buys sells x Hrec Hx. cbv zeta in Hrec.
    destruct Hrec as [H | [[= <- <-] | [H | [H | [H | []]]]]]; try discriminate.
    destruct Hx as [Hx | Hx]; [apply topBuys_In, Hx | apply topSells_In, Hx].
  - intros groups' timestamp name g x Hev Hg Hx. cbv zeta in Hev.
    destruct Hev as [H | [H | [[= <- _] | [H | [H | []]]]]]; try discriminate.
    rewrite lookup_fmap in Hg.
    destruct (groups !! name) as [g0|] eqn:Hg0; [|discriminate].
    injection Hg as <-. apply sortAndSlice_stocks in Hx.
    apply (groupByStrategy_stocks _ _ _ _ _ Hgroup Hg0 Hx).
  - intros top x Htop Hx. cbv zeta in Htop.
    destruct Htop as [H | [H | [H | [[= <-] | [H | []]]]]]; try discriminate.
    rewrite getFastVolumeAccumulators_eq in Hx.
    apply In_firstn, js_sort_In, candidates_In in Hx as (s & Hs & _ & -> & _).
    rewrite scoreStock_stock. exact Hs.
Qed.

(** ** Pacing and isolation of the chunked stages *)

Lemma fetchAllHistoricalData_markers env symbols :
  markers (actions (fetchAllHistoricalData env symbols)) =
  paced Historical (chunksOf 25 symbols).
Proof.
  rewrite fetchAllHistoricalData_eq. unfold actions; cbn [fst].
  apply (paced_stage_log Historical 25 symbols (historicalCalls env)).
  - apply historicalCalls_markers.
  - reflexivity.
Qed.

Lemma analyzeAllStocks_markers env symbols quotesMap historicalDataMap strategies :
  markers (actions (analyzeAllStocks env symbols quotesMap historicalDataMap strategies)) =
  paced AnalysisStage (chunksOf 10 symbols).
Proof.
  rewrite analyzeAllStocks_eq. unfold actions; cbn [fst].
  apply (paced_stage_log AnalysisStage 10 symbols
           (analysisCalls env quotesMap historicalDataMap strategies)).
  - apply analysisCalls_markers.
  - reflexivity.
Qed.

Lemma filter_markers (p : Action -> bool) (log : list Action) :
  (forall a, p a = true -> isDispatch a || isPause a = true) ->
  List.filter p (markers log) = List.filter p log.
Proof.
  intros Hp. induction log as [|a log IH]; [reflexivity|].
  unfold markers in *. simpl.
  destruct (isDispatch a || isPause a) eqn:Hm; simpl; rewrite IH; [reflexivity|].
  destruct (p a) eqn:Hpa; [|reflexivity]. apply Hp in Hpa. congruence.
Qed.

(** The number of dispatches and of pauses in a paced log. *)
Lemma paced_counts stage (log : list Action) (chunks : list (list string)) :
  markers log = paced stage chunks ->
  length (List.filter isDispatch log) = length chunks
  /\ List.filter isPause log = repeat (Pause 250) (length chunks - 1).
Proof.
  intros H. split.
  - rewrite <- (filter_markers isDispatch), H, paced_dispatches, length_map;
      [reflexivity|]. intros a ->. reflexivity.
  - rewrite <- (filter_markers isPause), H; [apply paced_pauses|].
    intros a ->. apply orb_true_r.
Qed.

(** The task of a symbol looks at the answers for that symbol only. *)
Lemma historyAttempts_ext env env' symbol remaining attempt :
  (forall n, historical env symbol n = historical env' symbol n) ->
  historyAttempts env symbol remaining attempt =
  historyAttempts env' symbol remaining attempt.
Proof.
  intros Hsame. revert attempt.
  induction remaining as [|remaining IH]; intros attempt; [reflexivity|].
  simpl. rewrite Hsame, IH. reflexivity.
Qed.

(** Both attempts rejected: the empty series. *)
Lemma historyTask_failed env symbol :
  (forall n, exists message, settlesTo (historical env symbol n) = Rejected message) ->
  taskResult (historyTask env symbol) = [].
Proof.
  intros Hfail. unfold historyTask, maxRetries. simpl.
  destruct (Hfail 1) as [m1 ->]. destruct (Hfail 2) as [m2 ->]. reflexivity.
Qed.

(** A chunk settles within its 20 s exactly when each of its tasks does. *)
Lemma chunkInTime_tasks env chunk :
  chunkInTime env chunk = true
  <-> Forall (fun s => (taskTime (historyTask env s) <= 20000)%N) chunk.
Proof.
  unfold chunkInTime, allTasks. cbn [settlesAfter]. rewrite N.leb_le.
  induction chunk as [|s chunk IH]; simpl.
  - split; [constructor | lia].
  - rewrite List.Forall_cons_iff, <- IH. lia.
Qed.

(** Every symbol of the list is bound in the historical map, to what one of
    the chunks that hold it recorded for it. *)
Lemma historicalDataMap_bound env symbols s :
  In s symbols ->
  exists chunk,
    In chunk (chunksOf 25 symbols) /\ In s chunk
    /\ Map_from (historicalEntries env symbols) !! s = Some (historyOf env chunk s).
Proof.
  intros Hs.
  destruct (Map_from_bound (historicalEntries env symbols) s) as [v Hv].
  { rewrite historicalEntries_keys. exact Hs. }
  pose proof (Map_from_lookup _ _ _ Hv) as Hin.
  unfold historicalEntries in Hin. apply in_concat in Hin as (l & Hl & Hin).
  apply in_map_iff in Hl as (chunk & <- & Hchunk).
  apply in_map_iff in Hin as (s' & [= -> <-] & Hs').
  exists chunk. auto.
Qed.

(** C6 (amended). For a list of N symbols the historical stage dispatches
    ceil(N/25) chunks and the analysis stage ceil(N/10), each stage pausing
    250 ms between two consecutive chunks and not after the last.  In the
    historical stage every symbol is mapped to what a chunk that holds it
    recorded for it: the result of its own retried fetch, the empty series
    when both attempts fail, whatever happens to the other symbols, when
    the chunk settles within its 20 s, and the empty series when the chunk
    takes more than 20 s; the other chunks are not affected.  In the
    analysis stage the output holds, in order, the stock of each symbol
    that has a quote, a non-empty history and an answer with a body to its
    own request: a failed request drops that symbol only. *)
Theorem chunked_stages_paced_and_isolated (env : Env) (symbols : list string)
    (quotesMap : gmap string Quote.t) (historicalDataMap : gmap string (list Bar.t))
    (strategies : list Strategy.t) :
  let historicalLog := actions (fetchAllHistoricalData env symbols) in
  let analysisLog :=
    actions (analyzeAllStocks env symbols quotesMap historicalDataMap strategies) in
  (length (List.filter isDispatch historicalLog) = ceil_div (length symbols) 25
   /\ List.filter isPause historicalLog
        = repeat (Pause 250) (ceil_div (length symbols) 25 - 1)
   /\ markers historicalLog = paced Historical (chunksOf 25 symbols))
  /\ (length (List.filter isDispatch analysisLog) = ceil_div (length symbols) 10
      /\ List.filter isPause analysisLog
           = repeat (Pause 250) (ceil_div (length symbols) 10 - 1)
      /\ markers analysisLog = paced AnalysisStage (chunksOf 10 symbols))
  /\ (exists m,
        result (fetchAllHistoricalData env symbols) = Resolved m
        /\ forall s, In s symbols ->
             exists chunk,
               In chunk (chunksOf 25 symbols) /\ In s chunk
               /\ m !! s = Some (if chunkInTime env chunk
                                 then taskResult (historyTask env s) else []))
  /\ (forall chunk,
        chunkInTime env chunk = true
        <-> Forall (fun s => (taskTime (historyTask env s) <= 20000)%N) chunk)
  /\ (forall s env',
        (forall n, historical env s n = historical env' s n) ->
        historyTask env s = historyTask env' s)
  /\ (forall s,
        (forall n, exists message, settlesTo (historical env s n) = Rejected message) ->
        taskResult (historyTask env s) = [])
  /\ result (analyzeAllStocks env symbols quotesMap historicalDataMap strategies)
       = Resolved (omap (analysisOf env quotesMap historicalDataMap strategies) symbols)
  /\ (forall s stock,
        analysisOf env quotesMap historicalDataMap strategies s = Some stock
        <-> hasBoth env quotesMap historicalDataMap strategies s stock).
Proof.
  intros historicalLog analysisLog.
  pose proof (paced_counts Historical historicalLog _
                (fetchAllHistoricalData_markers env symbols)) as [Hd1 Hp1].
  pose proof (paced_counts AnalysisStage analysisLog _
                (analyzeAllStocks_markers env symbols quotesMap historicalDataMap
                   strategies)) as [Hd2 Hp2].
  rewrite chunksOf_length in Hd1, Hp1, Hd2, Hp2.
  split; [repeat split; try assumption; apply fetchAllHistoricalData_markers|].
  split; [repeat split; try assumption; apply analyzeAllStocks_markers|].
  split.
  { exists (Map_from (historicalEntries env symbols)). split.
    - rewrite fetchAllHistoricalData_eq. reflexivity.
    - intros s Hs. apply (historicalDataMap_bound env symbols s Hs). }
  split; [apply chunkInTime_tasks|].
  split.
  { intros s env' Hsame. unfold historyTask.
    apply (historyAttempts_ext env env' s _ _ Hsame). }
  split; [apply historyTask_failed|].
  split; [rewrite analyzeAllStocks_eq; reflexivity|].
  intros s stock. apply analysisOf_Some.
Qed.

(** The fetch for ^NSEI succeeds at once, yet the failure of its sibling
    RELIANCE.NS, retried, pushes their chunk past the 20 s timer and ^NSEI
    is recorded with the empty series and is left out of the broadcast; had
    the sibling's fetch succeeded after the same twelve seconds, ^NSEI would
    have kept its history and been broadcast. *)
Lemma sibling_lost_to_slow_failure :
  settlesTo (historical slowFailureEnv "^NSEI" 1) = Resolved [sampleBar 1]
  /\ (exists m, result (fetchAllHistoricalData slowFailureEnv ["^NSEI"; "RELIANCE.NS"])
                = Resolved m
                /\ m !! "^NSEI" = Some [])
  /\ (exists m, result (fetchAllHistoricalData slowSuccessEnv ["^NSEI"; "RELIANCE.NS"])
                = Resolved m
                /\ m !! "^NSEI" = Some [sampleBar 1])
  /\ In (stockUpdate []) (emitted (actions (fetchAndEmitStockUpdates config slowFailureEnv true)))
  /\ exists data,
       In (stockUpdate data)
          (emitted (actions (fetchAndEmitStockUpdates config slowSuccessEnv true)))
       /\ map Stock.symbol data = ["^NSEI"; "RELIANCE.NS"].
Proof.
  split; [reflexivity|].
  split; [eexists; split; [reflexivity | vm_compute; reflexivity]|].
  split; [eexists; split; [reflexivity | vm_compute; reflexivity]|].
  split; [vm_compute; left; reflexivity|].
  eexists. split; [vm_compute; left; reflexivity | reflexivity].
Qed.

Lemma chunked_stages_paced_and_isolated_witness :
  length (List.filter isDispatch
               (actions (fetchAllHistoricalData slowSuccessEnv twentySevenSymbols))) = 2
  /\ length (List.filter isDispatch
               (actions (analyzeAllStocks slowSuccessEnv twentySevenSymbols ∅ ∅ []))) = 3.
Proof.
  pose proof (chunked_stages_paced_and_isolated slowSuccessEnv twentySevenSymbols
                ∅ ∅ []) as H.
  cbv zeta in H. destruct H as ((Hd1 & _) & (Hd2 & _) & _).
  split; [exact Hd1 | exact Hd2].
Defined.

Lemma analyzed_stocks_have_quote_and_analysis_witness :
  exists data,
    In (stockUpdate data)
       (emitted (actions (fetchAndEmitStockUpdates config slowSuccessEnv true)))
    /\ map Stock.symbol data = ["^NSEI"; "RELIANCE.NS"]
    /\ forall stock, In stock data ->
         In (Stock.symbol stock) (universe config slowSuccessEnv)
         /\ exists quotesMap strategies,
              hasBoth slowSuccessEnv quotesMap
                (Map_from (historicalEntries slowSuccessEnv
                             (universe config slowSuccessEnv)))
                strategies (Stock.symbol stock) stock.
Proof.
  eexists. split; [vm_compute; left; reflexivity|].
  split; [reflexivity|].
  match goal with
  | |- forall stock, In stock ?data -> _ =>
      assert (H : In (stockUpdate data)
                    (emitted (actions (fetchAndEmitStockUpdates config slowSuccessEnv
                                         true))))
        by (vm_compute; left; reflexivity);
      destruct (analyzed_stocks_have_quote_and_analysis config slowSuccessEnv true
                  data H)
        as (strategies & quoteResults & _ & _ & Hall & _)
  end.
  intros stock Hstock. destruct (Hall stock Hstock) as [Hu Hboth].
  split; [exact Hu|]. exists (quotesMapOf quoteResults), strategies. exact Hboth.
Defined.

(** ** The retried history fetch *)

(** What the tasks of a chunk do while the stage awaits it is in the log
    of the stage. *)
Lemma historicalCalls_in_stage env symbols chunk a :
  In chunk (chunksOf 25 symbols) -> In a (historicalCalls env chunk) ->
  In a (actions (fetchAllHistoricalData env symbols)).
Proof.
  intros Hchunk Ha. rewrite fetchAllHistoricalData_eq. unfold actions; cbn [fst].
  unfold chunksOf in Hchunk. apply in_map_iff in Hchunk as (k & <- & Hk).
  apply in_concat. eexists. split.
  - apply in_map_iff. exists k. split; [reflexivity | exact Hk].
  - apply in_or_app. left. right. exact Ha.
Qed.

Lemma In_chunk_of (symbols : list string) (s : string) :
  In s symbols -> exists chunk, In chunk (chunksOf 25 symbols) /\ In s chunk.
Proof.
  intros Hs. rewrite <- (concat_chunksOf 25 symbols) in Hs by lia.
  apply in_concat in Hs as (chunk & Hchunk & Hs). exists chunk. auto.
Qed.

Lemma filter_nil_of {A : Type} (p q : A -> bool) (l : list A) :
  forallb q l = true -> (forall a, q a = true -> p a = false) -> List.filter p l = [].
Proof.
  intros Hall Hpq. induction l as [|a l IH]; [reflexivity|].
  simpl in *. apply andb_prop in Hall as [Ha Hall].
  rewrite (Hpq a Ha). apply IH, Hall.
Qed.

(** C7. The history fetch of a symbol makes at most two attempts.  When the
    first attempt succeeds its result is returned after that single call;
    when it fails the fetch waits 500 ms times the attempt number, that is
    500 ms, and tries once more: a second attempt that succeeds gives its
    result after exactly one retry and one delay, and a second attempt that
    fails gives the empty series, as a value, with no further delay.  The
    stage runs this fetch for every symbol it is given: the first call is
    made by the stage, the wait and the second call happen while the stage
    awaits the chunk of the symbol or, when the stage has given that chunk
    up, afterwards; and the map of the stage binds the symbol to the result
    of the fetch when its chunk settled within 20 s, to the empty series
    otherwise.  The stage itself always returns its map, so that a cycle
    which has its strategies and quotes sends the analysis requests and
    ends as a cycle does whose stages all returned, whatever the history
    provider answered. *)
Theorem history_fetch_retries_then_empty (cfg : Config) (env : Env) (symbol : string) :
  maxRetries = 2
  /\ (forall history,
        settlesTo (historical env symbol 1) = Resolved history ->
        taskResult (historyTask env symbol) = history
        /\ taskLog (historyTask env symbol) = [HistoricalCall symbol 1]
        /\ taskTime (historyTask env symbol) = settlesAfter (historical env symbol 1))
  /\ (forall message history,
        settlesTo (historical env symbol 1) = Rejected message ->
        settlesTo (historical env symbol 2) = Resolved history ->
        taskResult (historyTask env symbol) = history
        /\ taskLog (historyTask env symbol) =
             [HistoricalCall symbol 1; Backoff symbol (500 * 1); HistoricalCall symbol 2]
        /\ taskTime (historyTask env symbol) =
             (settlesAfter (historical env symbol 1) + 500 * 1
              + settlesAfter (historical env symbol 2))%N)
  /\ (forall message1 message2,
        settlesTo (historical env symbol 1) = Rejected message1 ->
        settlesTo (historical env symbol 2) = Rejected message2 ->
        taskResult (historyTask env symbol) = []
        /\ taskLog (historyTask env symbol) =
             [HistoricalCall symbol 1; Backoff symbol (500 * 1); HistoricalCall symbol 2]
        /\ taskTime (historyTask env symbol) =
             (settlesAfter (historical env symbol 1) + 500 * 1
              + settlesAfter (historical env symbol 2))%N)
  /\ (forall symbols, In symbol symbols ->
        In (HistoricalCall symbol 1) (actions (fetchAllHistoricalData env symbols))
        /\ (forall a, In a (taskLog (historyTask env symbol)) ->
              In a (actions (fetchAllHistoricalData env symbols))
              \/ exists chunk,
                   In chunk (chunksOf 25 symbols) /\ In symbol chunk
                   /\ chunkInTime env chunk = false
                   /\ In a (abandonedRetries env chunk))
        /\ exists m chunk,
             result (fetchAllHistoricalData env symbols) = Resolved m
             /\ In chunk (chunksOf 25 symbols) /\ In symbol chunk
             /\ m !! symbol = Some (if chunkInTime env chunk
                                    then taskResult (historyTask env symbol) else []))
  /\ (forall symbols, exists m,
        result (fetchAllHistoricalData env symbols) = Resolved m)
  /\ (forall strategies quoteResults,
        universe cfg env <> [] ->
        strategyRows env = Resolved strategies ->
        promiseWithTimeout (quote env (universe cfg env)) 20000
          "Yahoo Finance quote API call timed out" = Resolved quoteResults ->
        exists historicalDataMap,
          result (fetchAllHistoricalData env (universe cfg env)) = Resolved historicalDataMap
          /\ List.filter isFire (actions (fetchAndEmitStockUpdates cfg env true))
             = List.filter isFire
                 (actions (analyzeAllStocks env (universe cfg env)
                             (quotesMapOf quoteResults) historicalDataMap strategies))
          /\ map Emit (emitted (actions (fetchAndEmitStockUpdates cfg env true)))
             = cycleEnd cfg env
                 (omap (analysisOf env (quotesMapOf quoteResults) historicalDataMap
                          strategies)
                    (universe cfg env))).
Proof.
  split; [reflexivity|]. unfold historyTask, maxRetries.
  split.
  { intros history H1. unfold taskLog. simpl. rewrite H1. repeat split. }
  split.
  { intros message history H1 H2. unfold taskLog. simpl. rewrite H1, H2. simpl.
    repeat split. }
  split.
  { intros message1 message2 H1 H2. unfold taskLog. simpl. rewrite H1, H2. simpl.
    repeat split. rewrite N.add_0_r. reflexivity. }
  fold (historyTask env symbol).
  split.
  { intros symbols Hs. destruct (In_chunk_of symbols symbol Hs) as (chunk & Hchunk & Hin).
    split.
    { apply (historicalCalls_in_stage env symbols chunk _ Hchunk).
      unfold historicalCalls. apply in_or_app. left.
      rewrite chunkStarts_first_calls. apply in_map_iff. exists symbol. auto. }
    split.
    { intros a Ha.
      assert (H : In a (historicalCalls env chunk ++ abandonedRetries env chunk)).
      { apply chunk_action_of_task. exists symbol. auto. }
      apply in_app_or in H as [H | H].
      - left. apply (historicalCalls_in_stage env symbols chunk _ Hchunk H).
      - right. exists chunk. repeat split; try assumption.
        destruct (chunkInTime env chunk) eqn:Ht; [|reflexivity].
        rewrite (chunk_in_time_keeps_all env chunk Ht) in H. destruct H. }
    destruct (historicalDataMap_bound env symbols symbol Hs) as (c & Hc & Hsc & Hm).
    exists (Map_from (historicalEntries env symbols)), c.
    split; [rewrite fetchAllHistoricalData_eq; reflexivity|]. auto. }
  split.
  { intros symbols. rewrite fetchAllHistoricalData_eq. eexists. reflexivity. }
  intros strategies quoteResults Hne Hstrat Hquote.
  exists (Map_from (historicalEntries env (universe cfg env))).
  split; [rewrite fetchAllHistoricalData_eq; reflexivity|].
  pose proof (cycle_log cfg env strategies quoteResults Hne Hstrat Hquote) as Hlog.
  cbv zeta in Hlog. rewrite Hlog. split.
  - rewrite !List.filter_app.
    rewrite (filter_nil_of isFire isHistoricalStageAction
               (actions (fetchAllHistoricalData env (universe cfg env))))
      by (try apply fetchAllHistoricalData_actions; intros []; try discriminate; reflexivity).
    rewrite (filter_nil_of isFire isEmit (cycleEnd _ _ _))
      by (try (unfold cycleEnd; destruct (groupByStrategy _); reflexivity);
          intros []; try discriminate; reflexivity).
    rewrite app_nil_r. reflexivity.
  - rewrite !emitted_app, fetchAllHistoricalData_emitted, analyzeAllStocks_emitted.
    simpl. unfold cycleEnd. destruct (groupByStrategy _); reflexivity.
Qed.

Lemma history_fetch_retries_then_empty_witness :
  taskResult (historyTask slowFailureEnv "RELIANCE.NS") = []
  /\ taskLog (historyTask slowFailureEnv "RELIANCE.NS") =
       [HistoricalCall "RELIANCE.NS" 1; Backoff "RELIANCE.NS" 500;
        HistoricalCall "RELIANCE.NS" 2]
  /\ taskTime (historyTask slowFailureEnv "RELIANCE.NS") = 24500%N
  /\ In (HistoricalCall "RELIANCE.NS" 1)
        (actions (fetchAllHistoricalData slowFailureEnv ["^NSEI"; "RELIANCE.NS"])).
Proof.
  destruct (history_fetch_retries_then_empty config slowFailureEnv "RELIANCE.NS")
    as (_ & _ & _ & Hfail & Hstage & _).
  destruct (Hfail "socket hang up" "socket hang up") as (Hr & Hl & Ht);
    [reflexivity | reflexivity |].
  destruct (Hstage ["^NSEI"; "RELIANCE.NS"]) as (Hcall & _);
    [right; left; reflexivity|].
  split; [exact Hr|]. split; [exact Hl|]. split; [exact Ht | exact Hcall].
Defined.

(** ** Top recommendations *)

(** C9, at the failing input.  Two strong buys, ^NSEI with RSI 0 and
    RELIANCE.NS with RSI 30: the broadcast top-buy list has RELIANCE.NS
    first and ^NSEI, the more oversold of the two, last. *)
Theorem top_buys_rsi_zero_sorted_last :
  exists buys sells,
    In (topRecommendationsUpdate buys sells)
       (emitted (actions (fetchAndEmitStockUpdates config oversoldEnv true)))
    /\ map (fun stock => (Stock.symbol stock, Stock.rsi stock, Stock.recommendedSignal stock))
         buys
       = [("RELIANCE.NS", Some 30%Q, Some "STRONG BUY");
          ("^NSEI", Some 0%Q, Some "STRONG BUY")].
Proof.
  eexists. eexists. split.
  - vm_compute. right. left. reflexivity.
  - vm_compute. reflexivity.
Qed.

Lemma compareRsiAsc_key a b :
  (compareRsiAsc a b
   == (fun s => num_or (Stock.rsi s) 100) a - (fun s => num_or (Stock.rsi s) 100) b)%Q.
Proof. unfold compareRsiAsc. ring. Qed.

Lemma compareRsiDesc_key a b :
  (compareRsiDesc a b
   == (fun s => - num_or (Stock.rsi s) 0) a - (fun s => - num_or (Stock.rsi s) 0) b)%Q.
Proof. unfold compareRsiDesc. ring. Qed.

(** X17. The strong buys of a cycle: the stocks recommended STRONG BUY, in
    ascending order of [rsi || 100], equal keys in input order, cut after
    five; what is cut off has no smaller key than what is kept. *)
Lemma topBuys_spec mappedData :
  (forall x, In x (topBuys mappedData) ->
     In x mappedData /\ Stock.recommendedSignal x = Some "STRONG BUY")
  /\ length (topBuys mappedData) <= 5
  /\ StronglySorted
       (fun x y => (num_or (Stock.rsi x) 100 <= num_or (Stock.rsi y) 100)%Q)
       (topBuys mappedData)
  /\ exists rest,
       Permutation (topBuys mappedData ++ rest)
         (List.filter (recommended "STRONG BUY") mappedData)
       /\ (forall q,
             List.filter (fun s => Qeq_bool (num_or (Stock.rsi s) 100) q)
               (topBuys mappedData ++ rest)
             = List.filter (fun s => Qeq_bool (num_or (Stock.rsi s) 100) q)
                 (List.filter (recommended "STRONG BUY") mappedData))
       /\ forall x y, In x (topBuys mappedData) -> In y rest ->
            (num_or (Stock.rsi x) 100 <= num_or (Stock.rsi y) 100)%Q.
Proof.
  unfold topBuys.
  set (buys := List.filter (recommended "STRONG BUY") mappedData).
  split; [|split; [|split]].
  - intros x Hx. apply In_firstn, (js_sort_In compareRsiAsc), filter_In in Hx as [Hin Hrec].
    split; [exact Hin|]. unfold recommended in Hrec.
    destruct (Stock.recommendedSignal x) as [s|]; [|discriminate].
    apply String.eqb_eq in Hrec. subst. reflexivity.
  - apply firstn_le_length.
  - apply (firstn_sorted (fun s => num_or (Stock.rsi s) 100)).
    apply (js_sort_sorted compareRsiAsc _ compareRsiAsc_key).
  - exists (skipn 5 (js_sort compareRsiAsc buys)).
    rewrite firstn_skipn. repeat split.
    + apply js_sort_perm.
    + intros q. apply (js_sort_stable compareRsiAsc _ compareRsiAsc_key).
    + intros x y Hx Hy.
      apply (js_sort_top compareRsiAsc _ compareRsiAsc_key 5 buys x y Hx Hy).
Qed.

(** X18. The strong sells of a cycle: the stocks recommended STRONG SELL, in
    descending order of [rsi || 0], equal keys in input order, cut after
    five; what is cut off has no larger key than what is kept. *)
Lemma topSells_spec mappedData :
  (forall x, In x (topSells mappedData) ->
     In x mappedData /\ Stock.recommendedSignal x = Some "STRONG SELL")
  /\ length (topSells mappedData) <= 5
  /\ StronglySorted
       (fun x y => (num_or (Stock.rsi y) 0 <= num_or (Stock.rsi x) 0)%Q)
       (topSells mappedData)
  /\ exists rest,
       Permutation (topSells mappedData ++ rest)
         (List.filter (recommended "STRONG SELL") mappedData)
       /\ (forall q,
             List.filter (fun s => Qeq_bool (- num_or (Stock.rsi s) 0) q)
               (topSells mappedData ++ rest)
             = List.filter (fun s => Qeq_bool (- num_or (Stock.rsi s) 0) q)
                 (List.filter (recommended "STRONG SELL") mappedData))
       /\ forall x y, In x (topSells mappedData) -> In y rest ->
            (num_or (Stock.rsi y) 0 <= num_or (Stock.rsi x) 0)%Q.
Proof.
  unfold topSells.
  set (sells := List.filter (recommended "STRONG SELL") mappedData).
  split; [|split; [|split]].
  - intros x Hx. apply In_firstn, (js_sort_In compareRsiDesc), filter_In in Hx as [Hin Hrec].
    split; [exact Hin|]. unfold recommended in Hrec.
    destruct (Stock.recommendedSignal x) as [s|]; [|discriminate].
    apply String.eqb_eq in Hrec. subst. reflexivity.
  - apply firstn_le_length.
  - eapply StronglySorted_weaken;
      [|apply (firstn_sorted (fun s => - num_or (Stock.rsi s) 0)),
          (js_sort_sorted compareRsiDesc _ compareRsiDesc_key)].
    intros x y Hxy. unfold keyLe in Hxy. lra.
  - exists (skipn 5 (js_sort compareRsiDesc sells)).
    rewrite firstn_skipn. repeat split.
    + apply js_sort_perm.
    + intros q. apply (js_sort_stable compareRsiDesc _ compareRsiDesc_key).
    + intros x y Hx Hy.
      pose proof (js_sort_top compareRsiDesc _ compareRsiDesc_key 5 sells x y Hx Hy) as H.
      unfold keyLe in H. lra.
Qed.

(** ** The availability flag *)

Lemma handle_raises_flag cfg st i :
  isPythonServiceHealthy st = false ->
  isPythonServiceHealthy (handle cfg st i).1 = true ->
  isSuccessfulProbe i = true \/ i = Breaker breakerClose.
Proof.
  intros Hdown Hup. destruct i as [[u | e] | [ | | ] | socketId | trigger env];
    simpl in *; try (left; reflexivity); try (right; reflexivity);
    try rewrite Hdown in Hup; simpl in Hup; congruence.
Qed.

Lemma run_gate_closed cfg st fired inputs :
  isPythonServiceHealthy st = false ->
  fired = false ->
  breakerCaused cfg st fired inputs = true ->
  forallb (fun i => negb (isSuccessfulProbe i)) inputs = true ->
  isPythonServiceHealthy (run cfg st inputs).1 = false
  /\ forall k trigger env,
       inputs !! k = Some (Scan trigger env) ->
       (run cfg st inputs).2 !! k = Some [Emit pausedStatus].
Proof.
  intros Hdown ->. revert st Hdown.
  induction inputs as [|i inputs IH]; intros st Hdown Hcaused Hprobe.
  - split; [exact Hdown|]. intros k trigger env Hk. discriminate.
  - simpl in Hprobe. apply andb_true_iff in Hprobe as [Hi Hprobe].
    assert (Hstep : isPythonServiceHealthy (handle cfg st i).1 = false
                    /\ firesIn (handle cfg st i).2 = false
                    /\ (forall trigger env, i = Scan trigger env ->
                          (handle cfg st i).2 = [Emit pausedStatus])
                    /\ breakerCaused cfg (handle cfg st i).1 false inputs = true).
    { destruct i as [[u | e] | [ | | ] | socketId | trigger env];
        simpl in Hcaused, Hi |- *; try discriminate;
        rewrite ?Hdown in *; simpl in *;
        repeat split; try assumption; try reflexivity; try discriminate. }
    destruct Hstep as (Hdown' & _ & Hscan & Hcaused').
    simpl run. destruct (handle cfg st i) as [st1 log] eqn:Hh. simpl in *.
    destruct (IH st1 Hdown' Hcaused' Hprobe) as [Hfinal Hlogs].
    destruct (run cfg st1 inputs) as [st2 logs]. simpl in *.
    split; [exact Hfinal|].
    intros [|k] trigger env Hk; simpl in *.
    + injection Hk as ->. f_equal. eapply Hscan. reflexivity.
    + eapply Hlogs, Hk.
Qed.

(** C10. The flag is false when the process starts; a step of the server
    takes it from false to true only on a successful health probe or on a
    close event of the breaker; and, the breaker changing state only after a
    request went through it, in every run that starts with the process and
    has seen no successful probe yet the flag is still false and every call
    of the entry point, whatever triggered it, did nothing but emit the
    paused status: no database, provider or analysis call. *)
Theorem scans_skipped_until_first_successful_probe (cfg : Config) (inputs : list Input) :
  isPythonServiceHealthy initialServer = false
  /\ (forall st i,
        isPythonServiceHealthy st = false ->
        isPythonServiceHealthy (handle cfg st i).1 = true ->
        isSuccessfulProbe i = true \/ i = Breaker breakerClose)
  /\ (breakerCaused cfg initialServer false inputs = true ->
      forallb (fun i => negb (isSuccessfulProbe i)) inputs = true ->
      isPythonServiceHealthy (run cfg initialServer inputs).1 = false
      /\ forall k trigger env,
           inputs !! k = Some (Scan trigger env) ->
           (run cfg initialServer inputs).2 !! k
             = Some [Emit (scanStatus "Scan paused: Analysis service is offline." "error")]).
Proof.
  split; [reflexivity|]. split; [apply handle_raises_flag|].
  intros Hcaused Hprobe.
  apply (run_gate_closed cfg initialServer false inputs); auto.
Qed.

Lemma scans_skipped_until_first_successful_probe_witness :
  isPythonServiceHealthy (run config initialServer startupInputs).1 = false
  /\ (run config initialServer startupInputs).2 !! 3
       = Some [Emit (scanStatus "Scan paused: Analysis service is offline." "error")].
Proof.
  destruct (scans_skipped_until_first_successful_probe config startupInputs)
    as (_ & _ & Hrun).
  destruct Hrun as [Hflag Hscans]; [reflexivity | reflexivity |].
  split; [exact Hflag|].
  apply (Hscans 3 TimerTick slowSuccessEnv). reflexivity.
Defined.

(** ** Worked cycles *)

(** A cycle in which every call succeeds: both default symbols are analyzed
    and broadcast, and RELIANCE.NS, the one F&O symbol, is ranked with the
    score that the doubles give to (300 / 100 * 0.7) + (5 * 0.3),
    3.5999999999999996. *)
Example full_cycle_broadcast :
  exists data buys sells groups top,
    emitted (actions (fetchAndEmitStockUpdates config slowSuccessEnv true)) =
      [stockUpdate data; topRecommendationsUpdate buys sells;
       customStrategiesUpdate groups "2024-01-01T00:00:00.000Z";
       fastVolumeAccumulatorsUpdate top;
       scanStatus "Scan complete. Broadcasting updates." "done"]
    /\ map Stock.symbol data = ["^NSEI"; "RELIANCE.NS"]
    /\ buys = [] /\ sells = [] /\ groups = ∅
    /\ map (fun e => Stock.symbol (Scored.stock e)) top = ["RELIANCE.NS"]
    /\ Forall (fun e => Scored.score e
                         = DFinite (2026619832316723 # 562949953421312)) top.
Proof.
  do 5 eexists. split; [vm_compute; reflexivity|].
  repeat split. repeat constructor.
Qed.

(** The calls of that cycle, in order: one chunk of history, one chunk of
    analysis, no pause. *)
Example full_cycle_calls :
  map (fun a => match a with
                | DbAll sql => "db"
                | QuoteCall _ => "quote"
                | Dispatch Historical _ => "history chunk"
                | Dispatch AnalysisStage _ => "analysis chunk"
                | HistoricalCall symbol _ => "history " +:+ symbol
                | Fire payload => "analyze " +:+ Quote.symbol (Payload.quote payload)
                | Backoff _ _ => "backoff"
                | Pause _ => "pause"
                | Emit _ | SocketEmit _ _ => "emit"
                end)
      (actions (fetchAndEmitStockUpdates config slowSuccessEnv true))
  = ["db"; "db"; "quote";
     "history chunk"; "history ^NSEI"; "history RELIANCE.NS";
     "analysis chunk"; "analyze ^NSEI"; "analyze RELIANCE.NS";
     "emit"; "emit"; "emit"; "emit"; "emit"].
Proof. vm_compute. reflexivity. Qed.

(** With non-zero RSI values the strong buys come out in ascending order of
    RSI, whatever their input order. *)
Example top_buys_ascending :
  map Stock.rsi
    (topBuys (map (fun rsi => mkStock (sampleQuote "X") [sampleBar 1]
                                (sampleAnalysis rsi "STRONG BUY"))
                [45; 12; 30; 28; 70; 5; 33]%Q))
  = [Some 5; Some 12; Some 28; Some 30; Some 33]%Q.
Proof. vm_compute. reflexivity. Qed.

(** A strategy named like a property of [Object.prototype] makes the
    grouping throw, and the cycle ends with the error events instead of the
    broadcast. *)
Example prototype_named_strategy_fails_cycle :
  groupByStrategy
    [mkStock (sampleQuote "X") [sampleBar 1]
       {| Analysis.indicators := None; Analysis.recommendedSignal := None;
          Analysis.signal := None;
          Analysis.customStrategyMatches :=
            Some [{| Match.name := "constructor"; Match.type := Some "Bullish" |}] |}]
  = Rejected "Cannot read properties of undefined (reading 'push')".
Proof. reflexivity. Qed.

(* ===================================================================== *)
(** * Further properties of the scan pipeline *)
(* ===================================================================== *)

(** ** The tracked symbols *)

Lemma foldl_Set_add_prefix s xs : exists rest, foldl Set_add s xs = s ++ rest.
Proof.
  revert s. induction xs as [|x xs IH]; intros s.
  - exists []. simpl. rewrite app_nil_r. reflexivity.
  - simpl. destruct (IH (Set_add s x)) as [rest Hrest]. rewrite Hrest.
    unfold Set_add. case_bool_decide.
    + exists rest. reflexivity.
    + exists (x :: rest). rewrite <- app_assoc. reflexivity.
Qed.

Lemma foldl_Set_add_fresh s xs :
  List.NoDup (s ++ xs) -> foldl Set_add s xs = s ++ xs.
Proof.
  revert s. induction xs as [|x xs IH]; intros s Hnd.
  - simpl. rewrite app_nil_r. reflexivity.
  - simpl. unfold Set_add at 2. case_bool_decide as Hx.
    + exfalso. apply NoDup_ListNoDup, NoDup_app in Hnd as (_ & Hdisj & _).
      apply (Hdisj x Hx). left.
    + rewrite IH; rewrite <- app_assoc; [reflexivity | exact Hnd].
Qed.

(** X1. The tracked symbols are read with one query and never fail.  The
    result has no duplicates, holds exactly the default symbols and, when
    the query succeeds, the watchlist symbols, and begins with the default
    symbols; a failing query leaves the default symbols alone.  Default
    symbols without duplicates keep their configured order. *)
Theorem tracked_symbols_union_defaults_first (cfg : Config) (env : Env) :
  getCombinedTrackedSymbols cfg env =
    ([DbAll "SELECT DISTINCT symbol FROM watchlists"], Resolved (universe cfg env))
  /\ List.NoDup (universe cfg env)
  /\ (forall s,
        In s (universe cfg env) <->
        In s (defaultSymbols cfg)
        \/ exists dbSymbols, watchlistRows env = Resolved dbSymbols /\ In s dbSymbols)
  /\ (exists rest, universe cfg env = Set_from (defaultSymbols cfg) ++ rest)
  /\ (List.NoDup (defaultSymbols cfg) -> Set_from (defaultSymbols cfg) = defaultSymbols cfg)
  /\ (forall message,
        watchlistRows env = Rejected message ->
        universe cfg env = Set_from (defaultSymbols cfg)).
Proof.
  split; [apply getCombinedTrackedSymbols_eq|].
  split; [apply universe_NoDup|].
  split; [apply universe_In|].
  split.
  { unfold universe. destruct (watchlistRows env) as [dbSymbols | e].
    - apply foldl_Set_add_prefix.
    - exists []. rewrite app_nil_r. reflexivity. }
  split.
  { intros Hnd. unfold Set_from. apply (foldl_Set_add_fresh [] _ Hnd). }
  intros message Hrows. unfold universe. rewrite Hrows. reflexivity.
Qed.

Lemma tracked_symbols_union_defaults_first_witness :
  List.NoDup (defaultSymbols config)
  /\ Set_from (defaultSymbols config) = ["^NSEI"; "RELIANCE.NS"].
Proof.
  assert (Hnd : List.NoDup (defaultSymbols config)).
  { apply NoDup_ListNoDup. apply (bool_decide_unpack _). vm_compute. exact I. }
  split; [exact Hnd|].
  destruct (tracked_symbols_union_defaults_first config quietEnv)
    as (_ & _ & _ & _ & Hid & _).
  apply (Hid Hnd).
Defined.

(** ** The quote map *)

Lemma snoc_split_last {A : Type} (before after l : list A) (x y : A) :
  l ++ [y] = before ++ x :: after ->
  (after = [] /\ x = y /\ before = l)
  \/ exists after', after = after' ++ [y] /\ l = before ++ x :: after'.
Proof.
  intros H. destruct after as [|a after] using rev_ind.
  - left. apply app_inj_tail in H as [-> ->]. auto.
  - right. clear IHafter. exists after.
    change (before ++ x :: after ++ [a]) with (before ++ (x :: after) ++ [a]) in H.
    rewrite app_assoc in H. apply app_inj_tail in H as [-> ->]. auto.
Qed.

(** A symbol is bound to the last quote of the list that carries it. *)
Lemma Map_from_last_wins (quotes : list Quote.t) s q :
  Map_from (map (fun q => (Quote.symbol q, q)) quotes) !! s = Some q <->
  exists before after,
    quotes = before ++ q :: after
    /\ Quote.symbol q = s
    /\ Forall (fun q' => Quote.symbol q' <> s) after.
Proof.
  induction quotes as [|q0 quotes IH] using rev_ind.
  - unfold Map_from. simpl. rewrite lookup_empty. split; [discriminate|].
    intros (before & after & H & _). destruct before; discriminate.
  - rewrite map_app. simpl. rewrite Map_from_snoc.
    destruct (decide (Quote.symbol q0 = s)) as [Hs | Hs].
    + rewrite Hs, lookup_insert_eq. split.
      * intros [= <-]. exists quotes, []. auto.
      * intros (before & after & Hsplit & _ & Hafter).
        apply snoc_split_last in Hsplit as [(_ & -> & _) | (after' & -> & _)];
          [reflexivity|].
        apply List.Forall_app in Hafter as [_ Hlast].
        inversion Hlast; subst. contradiction.
    + rewrite lookup_insert_ne by exact Hs. rewrite IH. split.
      * intros (before & after & -> & Hq & Hafter).
        exists before, (after ++ [q0]). rewrite <- app_assoc. repeat split; auto.
        apply List.Forall_app. split; [exact Hafter|]. constructor; [exact Hs | constructor].
      * intros (before & after & Hsplit & Hq & Hafter).
        apply snoc_split_last in Hsplit as [(_ & -> & _) | (after' & -> & ->)];
          [contradiction|].
        exists before, after'. repeat split; auto.
        apply List.Forall_app in Hafter as [Hafter _]. exact Hafter.
Qed.

(** X2. When the quote stage returns, the provider answered within the 20 s
    of the timer, and the map binds a symbol exactly to the last non-null quote of the answer that
    carries this symbol: every binding is keyed by the quote's own symbol,
    and of two quotes for one symbol the later one replaces the earlier. *)
Theorem quote_map_keeps_last_quote_per_symbol (env : Env) (symbols : list string)
    (quotesMap : gmap string Quote.t) :
  result (fetchQuotes env symbols) = Resolved quotesMap ->
  actions (fetchQuotes env symbols) = [QuoteCall symbols]
  /\ exists quoteResults,
       (settlesAfter (quote env symbols) <= 20000)%N
       /\ settlesTo (quote env symbols) = Resolved quoteResults
       /\ forall s q,
            quotesMap !! s = Some q <->
            exists before after,
              omap id quoteResults = before ++ q :: after
              /\ Quote.symbol q = s
              /\ Forall (fun q' => Quote.symbol q' <> s) after.
Proof.
  unfold fetchQuotes, promiseWithTimeout, result, actions. run_M.
  destruct (settlesAfter (quote env symbols) <=? 20000)%N eqn:Hlt; [|discriminate].
  destruct (settlesTo (quote env symbols)) as [quoteResults | e]; [|discriminate].
  cbn [snd fst]. intros [= <-]. split; [reflexivity|].
  exists quoteResults. split; [apply N.leb_le, Hlt|]. split; [reflexivity|].
  intros s q. apply Map_from_last_wins.
Qed.

Lemma quote_map_keeps_last_quote_per_symbol_witness :
  exists quotesMap,
    result (fetchQuotes twoQuotesEnv ["RELIANCE.NS"]) = Resolved quotesMap
    /\ actions (fetchQuotes twoQuotesEnv ["RELIANCE.NS"]) = [QuoteCall ["RELIANCE.NS"]].
Proof.
  eexists. split; [reflexivity|].
  eapply quote_map_keeps_last_quote_per_symbol. reflexivity.
Defined.

(** ** The chunks *)

Lemma chunkAt_full (C : nat) (items : list string) k :
  0 < C -> S k < chunkCount C items -> length (chunkAt C items k) = C.
Proof.
  intros HC Hk. apply ceil_div_lt in Hk; [|exact HC].
  unfold chunkAt, slice. rewrite length_firstn, length_skipn. simpl in Hk. lia.
Qed.

(** X3. The chunks that a stage dispatches are the consecutive slices of the
    symbol list: put end to end they give the list back, none is empty,
    each holds at most the chunk size, and each but the last holds exactly
    the chunk size.  This holds for the 25 of the historical stage and the
    10 of the analysis stage. *)
Theorem stage_chunks_partition_symbols (env : Env) (symbols : list string)
    (quotesMap : gmap string Quote.t) (historicalDataMap : gmap string (list Bar.t))
    (strategies : list Strategy.t) :
  (List.filter isDispatch (actions (fetchAllHistoricalData env symbols))
     = map (Dispatch Historical) (chunksOf 25 symbols)
   /\ List.filter isDispatch
        (actions (analyzeAllStocks env symbols quotesMap historicalDataMap strategies))
      = map (Dispatch AnalysisStage) (chunksOf 10 symbols))
  /\ forall C, C = 25 \/ C = 10 ->
       concat (chunksOf C symbols) = symbols
       /\ Forall (fun chunk => chunk <> [] /\ length chunk <= C) (chunksOf C symbols)
       /\ forall k chunk,
            chunksOf C symbols !! k = Some chunk ->
            S k < length (chunksOf C symbols) ->
            length chunk = C.
Proof.
  split.
  { split.
    - rewrite <- (filter_markers isDispatch) by (intros a ->; reflexivity).
      rewrite fetchAllHistoricalData_markers. apply paced_dispatches.
    - rewrite <- (filter_markers isDispatch) by (intros a ->; reflexivity).
      rewrite analyzeAllStocks_markers. apply paced_dispatches. }
  intros C HC. assert (Hpos : 0 < C) by (destruct HC; lia).
  split; [apply concat_chunksOf, Hpos|]. split.
  - apply List.Forall_forall. intros chunk Hchunk.
    unfold chunksOf in Hchunk. apply in_map_iff in Hchunk as (k & <- & Hk).
    apply in_seq in Hk. split.
    + apply chunkAt_nonempty; [exact Hpos | lia].
    + apply chunkAt_length; exact Hpos.
  - intros k chunk Hlook Hlast. unfold chunksOf in *.
    rewrite length_map, length_seq in Hlast.
    rewrite list_lookup_fmap in Hlook.
    rewrite lookup_seq_lt in Hlook by lia. simpl in Hlook. injection Hlook as <-.
    apply chunkAt_full; assumption.
Qed.

(** ** The calls of the stages *)

Lemma callsOnly_app l1 l2 : callsOnly (l1 ++ l2) = callsOnly l1 ++ callsOnly l2.
Proof. apply List.filter_app. Qed.

Lemma callsOnly_id (log : list Action) : markers log = [] -> callsOnly log = log.
Proof.
  unfold markers, callsOnly. induction log as [|a log IH]; [reflexivity|].
  simpl. destruct (isDispatch a || isPause a); simpl; [discriminate|].
  intros H. rewrite IH by exact H. reflexivity.
Qed.

Lemma callsOnly_concat (ls : list (list Action)) :
  callsOnly (concat ls) = concat (map callsOnly ls).
Proof.
  induction ls as [|l ls IH]; [reflexivity|].
  simpl. rewrite callsOnly_app, IH. reflexivity.
Qed.

(** Without its markers, the log of a stage is the logs of the tasks of its
    items, in the order of the items. *)
Lemma callsOnly_stage (stage : Stage) (C : nat) (items : list string)
    (itemLog : string -> list Action) :
  0 < C ->
  (forall s, markers (itemLog s) = []) ->
  callsOnly (concat (map (fun k => (Dispatch stage (chunkAt C items k)
                                      :: concat (map itemLog (chunkAt C items k)))
                                   ++ pauseIf (S k <? chunkCount C items))
                       (seq 0 (chunkCount C items))))
  = concat (map itemLog items).
Proof.
  intros HC Hitem.
  rewrite callsOnly_concat, map_map.
  transitivity (concat (map (fun chunk => concat (map itemLog chunk)) (chunksOf C items))).
  - unfold chunksOf. rewrite map_map. f_equal. apply map_ext. intros k.
    rewrite callsOnly_app.
    change (callsOnly (Dispatch stage ?c :: ?l)) with (callsOnly l).
    rewrite callsOnly_id by (apply markers_concat_nil; intros l Hl;
                             apply in_map_iff in Hl as (s & <- & _); apply Hitem).
    destruct (S k <? chunkCount C items); simpl; rewrite ?app_nil_r; reflexivity.
  - rewrite <- (concat_chunksOf C items HC) at 2.
    generalize (chunksOf C items) as cs. intros cs.
    induction cs as [|c cs IH]; [reflexivity|].
    simpl. rewrite map_app, concat_app, IH. reflexivity.
Qed.

Lemma filter_callsOnly (p : Action -> bool) (log : list Action) :
  (forall a, p a = true -> isDispatch a || isPause a = false) ->
  List.filter p log = List.filter p (callsOnly log).
Proof.
  intros Hp. unfold callsOnly. induction log as [|a l IH]; [reflexivity|]. simpl.
  destruct (p a) eqn:Hpa.
  - rewrite (Hp a Hpa). simpl. rewrite Hpa, IH. reflexivity.
  - destruct (isDispatch a || isPause a); simpl; rewrite ?Hpa; exact IH.
Qed.

Lemma filter_perm_length {A : Type} (p : A -> bool) (l l' : list A) :
  Permutation l l' -> length (List.filter p l) = length (List.filter p l').
Proof.
  induction 1 as [|x l l' _ IH|x y l|l l' l'' _ IH1 _ IH2]; simpl.
  - reflexivity.
  - destruct (p x); simpl; rewrite IH; reflexivity.
  - destruct (p x), (p y); reflexivity.
  - rewrite IH1. exact IH2.
Qed.

Lemma callsOnly_historical env symbols :
  callsOnly (actions (fetchAllHistoricalData env symbols))
  = concat (map (fun chunk => map (fun s => HistoricalCall s 1) chunk
                              ++ retriesDuring env chunk)
              (chunksOf 25 symbols)).
Proof.
  rewrite fetchAllHistoricalData_eq. unfold actions; cbn [fst].
  rewrite callsOnly_concat, map_map. unfold chunksOf. rewrite map_map.
  f_equal. apply map_ext. intros k.
  rewrite callsOnly_app.
  change (callsOnly (Dispatch Historical ?c :: ?l)) with (callsOnly l).
  rewrite callsOnly_id by apply historicalCalls_markers.
  unfold historicalCalls. rewrite chunkStarts_first_calls.
  destruct (S k <? chunkCount 25 symbols); simpl; rewrite ?app_nil_r; reflexivity.
Qed.

Lemma retry_is_no_first_call env chunk a :
  In a (retriesDuring env chunk ++ abandonedRetries env chunk) -> isFirstCall a = false.
Proof.
  intros Ha. apply (Permutation_in _ (chunk_retries_perm env chunk)) in Ha.
  apply in_concat in Ha as (l & Hl & Ha). apply in_map_iff in Hl as (s & <- & _).
  unfold retryOf in Ha. destruct (settlesTo (historical env s 1)); [destruct Ha|].
  destruct Ha as [<- | [<- | []]]; reflexivity.
Qed.

Lemma filter_none {A : Type} (p : A -> bool) (l : list A) :
  (forall a, In a l -> p a = false) -> List.filter p l = [].
Proof.
  induction l as [|a l IH]; intros H; [reflexivity|].
  simpl. rewrite (H a) by (left; reflexivity). apply IH.
  intros a' Ha'. apply H. right. exact Ha'.
Qed.

Lemma filter_every {A : Type} (p : A -> bool) (l : list A) :
  (forall a, In a l -> p a = true) -> List.filter p l = l.
Proof.
  induction l as [|a l IH]; intros H; [reflexivity|].
  simpl. rewrite (H a) by (left; reflexivity). f_equal. apply IH.
  intros a' Ha'. apply H. right. exact Ha'.
Qed.

(** X4. The first calls to the history provider are made in the order of the
    symbols, one for each symbol, those of a chunk one after the other
    right after the chunk is dispatched (the tasks of a chunk are started
    together).  A symbol gets a wait of 500 ms and a second call exactly
    when its first call was refused; these retries happen while the stage
    awaits the chunk or, when the stage has given the chunk up, afterwards.
    Nothing is left over from a chunk that settles within its 20 s.  The
    stage makes no other call, and for N symbols there are between N and 2N
    calls in all, and as many waits as there are calls beyond N. *)
Theorem historical_calls_once_or_twice_per_symbol (env : Env) (symbols : list string) :
  let log := actions (fetchAllHistoricalData env symbols) in
  let late := concat (map (abandonedRetries env) (chunksOf 25 symbols)) in
  List.filter isFirstCall log = map (fun s => HistoricalCall s 1) symbols
  /\ (forall chunk, In chunk (chunksOf 25 symbols) ->
        exists before after,
          log = before ++ Dispatch Historical chunk
                  :: map (fun s => HistoricalCall s 1) chunk ++ after)
  /\ Permutation (callsOnly log)
       (map (fun s => HistoricalCall s 1) symbols
        ++ concat (map (retriesDuring env) (chunksOf 25 symbols)))
  /\ (forall chunk,
        Permutation (retriesDuring env chunk ++ abandonedRetries env chunk)
          (concat (map (fun s => match settlesTo (historical env s 1) with
                                 | Resolved _ => []
                                 | Rejected _ => [Backoff s 500; HistoricalCall s 2]
                                 end) chunk)))
  /\ (forall chunk, chunkInTime env chunk = true -> abandonedRetries env chunk = [])
  /\ length symbols <= length (List.filter isHistoricalCall (log ++ late))
       <= 2 * length symbols
  /\ length (List.filter isHistoricalCall (log ++ late))
       = length symbols + length (List.filter isBackoff (log ++ late)).
Proof.
  intros log late.
  split.
  { rewrite (filter_callsOnly isFirstCall log)
      by (intros [] H; try discriminate; reflexivity).
    subst log. rewrite callsOnly_historical.
    rewrite <- (concat_chunksOf 25 symbols) at 2 by lia.
    generalize (chunksOf 25 symbols) as cs. intros cs.
    induction cs as [|c cs IH]; [reflexivity|].
    cbn [map concat]. rewrite !List.filter_app, IH, map_app. f_equal.
    rewrite (filter_none isFirstCall (retriesDuring env c)), app_nil_r.
    - apply filter_every. intros a Ha. apply in_map_iff in Ha as (s & <- & _).
      reflexivity.
    - intros a Ha. apply (retry_is_no_first_call env c). apply in_or_app. left.
      exact Ha. }
  split.
  { intros chunk Hchunk. subst log. rewrite fetchAllHistoricalData_eq.
    unfold actions; cbn [fst].
    unfold chunksOf in Hchunk. apply in_map_iff in Hchunk as (k & <- & Hk).
    apply in_split in Hk as (l1 & l2 & ->).
    rewrite map_app, concat_app. cbn [map concat].
    unfold historicalCalls. rewrite chunkStarts_first_calls.
    rewrite <- !app_assoc. cbn [app]. rewrite <- !app_assoc.
    eexists _, _. reflexivity. }
  split.
  { subst log. rewrite callsOnly_historical.
    rewrite <- (concat_chunksOf 25 symbols) at 2 by lia.
    generalize (chunksOf 25 symbols) as cs. intros cs.
    induction cs as [|c cs IH]; [reflexivity|].
    cbn [map concat]. rewrite IH, map_app.
    rewrite <- !app_assoc. apply Permutation_app_head.
    rewrite !app_assoc. apply Permutation_app_tail. apply Permutation_app_comm. }
  split; [intros chunk; apply chunk_retries_perm|].
  split; [apply chunk_in_time_keeps_all|].
  assert (Hgen : forall cs : list (list string),
            let inStage := concat (map (fun chunk => map (fun s => HistoricalCall s 1) chunk
                                                     ++ retriesDuring env chunk) cs) in
            let left := concat (map (abandonedRetries env) cs) in
            length (List.filter isHistoricalCall inStage)
              + length (List.filter isHistoricalCall left)
            = length (concat cs)
              + (length (List.filter isBackoff inStage)
                 + length (List.filter isBackoff left))
            /\ length (List.filter isBackoff inStage)
                 + length (List.filter isBackoff left) <= length (concat cs)).
  { induction cs as [|c cs IH]; [simpl; lia|].
    cbv zeta in *. cbn [map concat]. rewrite !List.filter_app, !length_app.
    pose proof (filter_perm_length isHistoricalCall _ _ (chunk_retries_perm env c)) as Hc.
    pose proof (filter_perm_length isBackoff _ _ (chunk_retries_perm env c)) as Hb.
    rewrite List.filter_app, length_app in Hc, Hb.
    assert (Hfirst : length (List.filter isHistoricalCall
                               (map (fun s => HistoricalCall s 1) c)) = length c
                     /\ length (List.filter isBackoff
                                  (map (fun s => HistoricalCall s 1) c)) = 0).
    { clear. induction c as [|s c [IH1 IH2]]; [split; reflexivity|].
      simpl. rewrite IH1, IH2. split; reflexivity. }
    assert (Hretry : length (List.filter isHistoricalCall (concat (map (retryOf env) c)))
                     = length (List.filter isBackoff (concat (map (retryOf env) c)))
                     /\ length (List.filter isBackoff (concat (map (retryOf env) c)))
                        <= length c).
    { clear. induction c as [|s c [IH1 IH2]]; [split; reflexivity|].
      cbn [map concat]. rewrite !List.filter_app, !length_app, IH1.
      unfold retryOf at 1 3 5.
      destruct (settlesTo (historical env s 1)); simpl; lia. }
    destruct Hfirst as [Hf1 Hf2]. destruct Hretry as [Hr1 Hr2]. lia. }
  specialize (Hgen (chunksOf 25 symbols)). cbv zeta in Hgen.
  rewrite (concat_chunksOf 25 symbols) in Hgen by lia.
  rewrite !List.filter_app, !length_app.
  rewrite (filter_callsOnly isHistoricalCall log), (filter_callsOnly isBackoff log)
    by (intros [] H; try discriminate; reflexivity).
  subst log late. rewrite callsOnly_historical. lia.
Qed.

(** ** The historical map *)

Lemma historyTask_result env symbol :
  taskResult (historyTask env symbol) = []
  \/ exists attempt,
       (attempt = 1 \/ attempt = 2)
       /\ settlesTo (historical env symbol attempt)
            = Resolved (taskResult (historyTask env symbol)).
Proof.
  unfold historyTask, maxRetries. simpl.
  destruct (settlesTo (historical env symbol 1)) as [h1 | e1] eqn:H1.
  - right. exists 1. auto.
  - simpl. destruct (settlesTo (historical env symbol 2)) as [h2 | e2] eqn:H2.
    + right. exists 2. auto.
    + left. reflexivity.
Qed.

(** X5. The historical stage always returns its map, and the map has an entry
    for exactly the symbols it was given, duplicates or not, timeouts or
    not.  The series of a symbol is either empty or what the provider
    answered to one of the two calls for this very symbol: a symbol never
    gets the series of another one. *)
Theorem historical_map_covers_every_symbol (env : Env) (symbols : list string) :
  exists m,
    result (fetchAllHistoricalData env symbols) = Resolved m
    /\ (forall s, is_Some (m !! s) <-> In s symbols)
    /\ forall s series,
         m !! s = Some series ->
         series = []
         \/ exists attempt,
              (attempt = 1 \/ attempt = 2)
              /\ settlesTo (historical env s attempt) = Resolved series.
Proof.
  exists (Map_from (historicalEntries env symbols)).
  split; [rewrite fetchAllHistoricalData_eq; reflexivity|]. split.
  - intros s. split.
    + intros [series Hs]. apply Map_from_lookup in Hs.
      rewrite <- (historicalEntries_keys env symbols).
      apply in_map_iff. exists (s, series). split; [reflexivity | exact Hs].
    + intros Hs. destruct (Map_from_bound (historicalEntries env symbols) s) as [v Hv].
      * rewrite historicalEntries_keys. exact Hs.
      * exists v. exact Hv.
  - intros s series Hs. apply Map_from_lookup in Hs.
    unfold historicalEntries in Hs. apply in_concat in Hs as (l & Hl & Hs).
    apply in_map_iff in Hl as (chunk & <- & _).
    apply in_map_iff in Hs as (s' & [= -> <-] & _).
    unfold historyOf. destruct (chunkInTime env chunk); [|left; reflexivity].
    apply historyTask_result.
Qed.

(** ** The requests of the analysis stage *)

Lemma analyzeSymbol_log env quotesMap historicalDataMap strategies s :
  (analyzeSymbol env quotesMap historicalDataMap strategies s).1
  = match requestFor quotesMap historicalDataMap strategies s with
    | Some request => [request]
    | None => []
    end.
Proof.
  unfold analyzeSymbol, requestFor.
  destruct (quotesMap !! s) as [q|]; [|reflexivity].
  destruct (historicalDataMap !! s) as [[|bar h]|]; try reflexivity.
  simpl. destruct (fire env _) as [[a|]|]; reflexivity.
Qed.

Lemma concat_map_option {A B : Type} (f : A -> option B) (l : list A) :
  concat (map (fun x => match f x with Some y => [y] | None => [] end) l) = omap f l.
Proof.
  induction l as [|x l IH]; [reflexivity|].
  cbn [map concat omap list_omap]. rewrite IH. destruct (f x); reflexivity.
Qed.

(** X6. The analysis service is asked once for each symbol that has a quote and
    a non-empty history, in the order of the symbol list, with this quote,
    this history and the strategies of the cycle; it is never asked for a
    symbol that lacks a quote or whose history is missing or empty.  The
    stage returns, with no more stocks than requests were sent. *)
Theorem analysis_requests_only_with_quote_and_history (env : Env)
    (symbols : list string) (quotesMap : gmap string Quote.t)
    (historicalDataMap : gmap string (list Bar.t)) (strategies : list Strategy.t) :
  let stage := analyzeAllStocks env symbols quotesMap historicalDataMap strategies in
  callsOnly (actions stage)
    = omap (requestFor quotesMap historicalDataMap strategies) symbols
  /\ (forall payload,
        In (Fire payload) (actions stage) ->
        exists s,
          In s symbols
          /\ quotesMap !! s = Some (Payload.quote payload)
          /\ historicalDataMap !! s = Some (Payload.history payload)
          /\ Payload.history payload <> []
          /\ Payload.strategies payload = strategies)
  /\ (exists stocks,
        result stage = Resolved stocks
        /\ length stocks <= length (List.filter isFire (actions stage))
        /\ length (List.filter isFire (actions stage)) <= length symbols).
Proof.
  intros stage.
  assert (Hcalls : callsOnly (actions stage)
                   = omap (requestFor quotesMap historicalDataMap strategies) symbols).
  { subst stage. rewrite analyzeAllStocks_eq. unfold actions; cbn [fst].
    unfold analysisCalls.
    rewrite <- concat_map_option.
    rewrite <- (callsOnly_stage AnalysisStage 10 symbols
                  (fun s => match requestFor quotesMap historicalDataMap strategies s with
                            | Some request => [request]
                            | None => []
                            end)); [|lia|].
    - f_equal. f_equal. apply map_ext. intros k. rewrite map_map.
      f_equal. f_equal. f_equal. apply map_ext. intros s. apply analyzeSymbol_log.
    - intros s. destruct (requestFor _ _ _ s) as [request|] eqn:Hr; [|reflexivity].
      unfold requestFor in Hr.
      destruct (quotesMap !! s); [|discriminate].
      destruct (historicalDataMap !! s) as [[|]|]; try discriminate.
      injection Hr as <-. reflexivity. }
  assert (Hfire : forall a, In a (callsOnly (actions stage)) <->
                            exists s, In s symbols
                              /\ requestFor quotesMap historicalDataMap strategies s = Some a).
  { intros a. rewrite Hcalls. apply In_omap. }
  split; [exact Hcalls|]. split.
  - intros payload Hin.
    assert (Hc : In (Fire payload) (callsOnly (actions stage))).
    { apply filter_In. split; [exact Hin | reflexivity]. }
    apply Hfire in Hc as (s & Hs & Hreq). exists s. split; [exact Hs|].
    unfold requestFor in Hreq.
    destruct (quotesMap !! s) as [q|]; [|discriminate].
    destruct (historicalDataMap !! s) as [[|bar h]|]; try discriminate.
    injection Hreq as <-. simpl. repeat split. discriminate.
  - exists (omap (analysisOf env quotesMap historicalDataMap strategies) symbols).
    split; [subst stage; rewrite analyzeAllStocks_eq; reflexivity|].
    assert (Hf : List.filter isFire (actions stage)
                 = omap (requestFor quotesMap historicalDataMap strategies) symbols).
    { rewrite (filter_callsOnly isFire) by (intros [] H; try discriminate; reflexivity).
      rewrite Hcalls. clear.
      induction symbols as [|s symbols IH]; [reflexivity|].
      cbn [omap list_omap].
      destruct (requestFor quotesMap historicalDataMap strategies s) as [request|] eqn:Hr;
        [|exact IH].
      unfold requestFor in Hr.
      destruct (quotesMap !! s); [|discriminate].
      destruct (historicalDataMap !! s) as [[|]|]; try discriminate.
      injection Hr as <-. simpl. f_equal. exact IH. }
    rewrite Hf. clear. induction symbols as [|s symbols IH]; [simpl; lia|].
    cbn [omap list_omap length].
    unfold analysisOf at 1.
    destruct (analyzeSymbol_cases env quotesMap historicalDataMap strategies s)
      as [(q & h & Hq & Hh & Hne & ->) | [Hmissing ->]]; cbn [snd].
    + assert (Hreq : requestFor quotesMap historicalDataMap strategies s
                     = Some (Fire (Payload.mk q h strategies))).
      { unfold requestFor. rewrite Hq, Hh. destruct h; [congruence | reflexivity]. }
      rewrite Hreq.
      destruct (fire env _) as [[a|]|]; simpl in *; lia.
    + destruct (requestFor quotesMap historicalDataMap strategies s); simpl in *; lia.
Qed.

(** ** How a cycle ends *)

Lemma try_catch_unit (m : M unit) (handler : string -> M unit) :
  (forall e, (handler e).2 = Resolved tt) -> (try_catch m handler).2 = Resolved tt.
Proof.
  intros H. destruct m as [log [[] | e]]; [reflexivity|].
  unfold try_catch. specialize (H e). destruct (handler e). exact H.
Qed.

Lemma fetchAndEmitStockUpdates_result cfg env healthy :
  result (fetchAndEmitStockUpdates cfg env healthy) = Resolved tt.
Proof.
  unfold result, fetchAndEmitStockUpdates. destruct healthy; [|reflexivity].
  simpl negb. cbv iota. rewrite getCombinedTrackedSymbols_eq, bind_resolved. cbn [snd].
  destruct (length (universe cfg env) =? 0); [reflexivity|].
  apply try_catch_unit. intros e. reflexivity.
Qed.

(** The log of a cycle whose strategies query fails. *)
Lemma strategies_failure_log cfg env message :
  universe cfg env <> [] ->
  strategyRows env = Rejected message ->
  actions (fetchAndEmitStockUpdates cfg env true) =
    [DbAll "SELECT DISTINCT symbol FROM watchlists"; DbAll "SELECT * FROM strategies"]
    ++ map Emit (failureEvents message).
Proof.
  intros Hne Hstrat. unfold fetchAndEmitStockUpdates, actions.
  rewrite getCombinedTrackedSymbols_eq, Hstrat.
  destruct (universe cfg env) as [|s0 rest]; [congruence|]. run_M. reflexivity.
Qed.

(** The log of a cycle whose quote call fails. *)
Lemma quote_failure_log cfg env strategies message :
  universe cfg env <> [] ->
  strategyRows env = Resolved strategies ->
  promiseWithTimeout (quote env (universe cfg env)) 20000
    "Yahoo Finance quote API call timed out" = Rejected message ->
  actions (fetchAndEmitStockUpdates cfg env true) =
    [DbAll "SELECT DISTINCT symbol FROM watchlists"; DbAll "SELECT * FROM strategies";
     QuoteCall (universe cfg env)]
    ++ map Emit (failureEvents message).
Proof.
  intros Hne Hstrat Hquote. unfold fetchAndEmitStockUpdates, actions.
  rewrite getCombinedTrackedSymbols_eq, Hstrat. run_M. rewrite Hquote.
  destruct (universe cfg env) as [|s0 rest]; [congruence|]. run_M. reflexivity.
Qed.

(** X7. The entry point never throws, and a cycle ends in one of four ways: the
    paused status alone when the gate is closed; nothing when there is no
    symbol; the error status followed by the fetch error when the strategies
    query, the quote call or the grouping of the matches fails; or the four
    data events followed by the done status.  Stock data is thus broadcast
    completely or not at all, and the done status is emitted exactly when it
    is. *)
Theorem cycle_broadcasts_all_or_nothing (cfg : Config) (env : Env) (healthy : bool) :
  let events := emitted (actions (fetchAndEmitStockUpdates cfg env healthy)) in
  result (fetchAndEmitStockUpdates cfg env healthy) = Resolved tt
  /\ ((healthy = false /\ events = [pausedStatus])
      \/ (healthy = true /\ universe cfg env = [] /\ events = [])
      \/ (healthy = true /\ universe cfg env <> []
          /\ exists message,
               events = failureEvents message
               /\ (strategyRows env = Rejected message
                   \/ (exists strategies, strategyRows env = Resolved strategies
                       /\ (promiseWithTimeout (quote env (universe cfg env)) 20000
                             "Yahoo Finance quote API call timed out" = Rejected message
                           \/ exists quoteResults,
                                promiseWithTimeout (quote env (universe cfg env)) 20000
                                  "Yahoo Finance quote API call timed out"
                                  = Resolved quoteResults
                                /\ groupByStrategy
                                     (mappedDataOf cfg env strategies quoteResults)
                                   = Rejected message))))
      \/ (healthy = true /\ universe cfg env <> []
          /\ exists data buys sells groups top,
               events = [stockUpdate data; topRecommendationsUpdate buys sells;
                         customStrategiesUpdate groups (now env);
                         fastVolumeAccumulatorsUpdate top;
                         scanStatus "Scan complete. Broadcasting updates." "done"])).
Proof.
  intros events. split; [apply fetchAndEmitStockUpdates_result|]. subst events.
  destruct healthy; [|left; split; reflexivity]. right.
  destruct (universe cfg env) as [|s0 rest] eqn:Hu.
  { left. rewrite (empty_universe_log cfg env Hu). auto. }
  right. assert (Hne : universe cfg env <> []) by (rewrite Hu; discriminate).
  rewrite <- Hu.
  destruct (strategyRows env) as [strategies | e] eqn:Hstrat.
  2:{ left. repeat split; try assumption. exists e.
      rewrite (strategies_failure_log cfg env e Hne Hstrat). split; [reflexivity | auto]. }
  destruct (promiseWithTimeout (quote env (universe cfg env)) 20000
              "Yahoo Finance quote API call timed out") as [quoteResults | e] eqn:Hquote.
  2:{ left. repeat split; try assumption. exists e.
      rewrite (quote_failure_log cfg env strategies e Hne Hstrat Hquote).
      split; [reflexivity|]. right. exists strategies. auto. }
  pose proof (cycle_log cfg env strategies quoteResults Hne Hstrat Hquote) as Hlog.
  cbv zeta in Hlog. fold (mappedDataOf cfg env strategies quoteResults) in Hlog.
  rewrite Hlog, !emitted_app, fetchAllHistoricalData_emitted, analyzeAllStocks_emitted.
  unfold cycleEnd.
  destruct (groupByStrategy (mappedDataOf cfg env strategies quoteResults))
    as [g | e] eqn:Hgroup.
  - right. repeat split; try assumption. do 5 eexists. reflexivity.
  - left. repeat split; try assumption. exists e. split; [reflexivity|].
    right. exists strategies. split; [reflexivity|]. right. exists quoteResults. auto.
Qed.

(** X8. When the strategies cannot be read, the cycle stops there: it has made
    its two database queries and emits the error status, carrying the
    database's message, and the fetch error; neither the quote provider, nor
    the history provider, nor the analysis service is called. *)
Theorem strategies_failure_aborts_before_any_provider_call (cfg : Config) (env : Env)
    (message : string) :
  universe cfg env <> [] ->
  strategyRows env = Rejected message ->
  actions (fetchAndEmitStockUpdates cfg env true) =
    [DbAll "SELECT DISTINCT symbol FROM watchlists";
     DbAll "SELECT * FROM strategies";
     Emit (scanStatus ("Scan failed: " +:+ message) "error");
     Emit (fetchError
       "Unified scan failed. The data provider might be temporarily unavailable.")]
  /\ List.filter isOutsideCall (actions (fetchAndEmitStockUpdates cfg env true)) = [].
Proof.
  intros Hne Hstrat.
  rewrite (strategies_failure_log cfg env message Hne Hstrat). split; reflexivity.
Qed.

Lemma strategies_failure_aborts_before_any_provider_call_witness :
  emitted (actions (fetchAndEmitStockUpdates config noStrategiesEnv true)) =
    [scanStatus "Scan failed: SQLITE_BUSY: database is locked" "error";
     fetchError "Unified scan failed. The data provider might be temporarily unavailable."].
Proof.
  destruct (strategies_failure_aborts_before_any_provider_call config noStrategiesEnv
              "SQLITE_BUSY: database is locked") as [Hlog _].
  - vm_compute. discriminate.
  - reflexivity.
  - rewrite Hlog. reflexivity.
Defined.

(** ** The broadcast stocks *)

(** The data of a broadcast is the mapped data of the cycle. *)
Lemma stockUpdate_data cfg env healthy data :
  In (stockUpdate data) (emitted (actions (fetchAndEmitStockUpdates cfg env healthy))) ->
  exists strategies quoteResults, data = mappedDataOf cfg env strategies quoteResults.
Proof.
  intros Hdata.
  destruct (cycle_emitted cfg env healthy)
    as [Hnone | (strategies & quoteResults & g & _ & _ & _ & _ & _ & Hemitted)].
  - exfalso.
    assert (Hin : In (stockUpdate data)
              (List.filter isStockData
                 (emitted (actions (fetchAndEmitStockUpdates cfg env healthy))))).
    { apply filter_In. split; [exact Hdata | reflexivity]. }
    rewrite Hnone in Hin. exact Hin.
  - exists strategies, quoteResults. rewrite Hemitted in Hdata. cbv zeta in Hdata.
    destruct Hdata as [[= <-] | [H | [H | [H | [H | []]]]]];
      [reflexivity | discriminate..].
Qed.

Lemma mappedData_stock cfg env strategies quoteResults stock :
  In stock (mappedDataOf cfg env strategies quoteResults) ->
  In (Stock.symbol stock) (universe cfg env)
  /\ hasBoth env (quotesMapOf quoteResults)
       (Map_from (historicalEntries env (universe cfg env))) strategies
       (Stock.symbol stock) stock.
Proof.
  unfold mappedDataOf. intros H. apply In_omap in H as (s & Hs & Hsome).
  apply analysisOf_Some in Hsome as Hboth.
  destruct Hboth as (q & h & a & Hq & Hh & Hne & Hfire & ->).
  apply quotesMapOf_lookup in Hq as Hsym. destruct Hsym as [Hsym _].
  simpl. rewrite Hsym. split; [exact Hs|].
  exists q, h, a. repeat split; assumption.
Qed.

(** X9. A symbol whose recorded history is empty, because both of its fetches
    were refused, or the provider had no bar for it, or its chunk took more
    than 20 s, is in no broadcast of that cycle. *)
Theorem symbol_without_history_is_not_broadcast (cfg : Config) (env : Env)
    (healthy : bool) (data : list Stock.t) (chunk : list string) (s : string) :
  In (stockUpdate data) (emitted (actions (fetchAndEmitStockUpdates cfg env healthy))) ->
  In chunk (chunksOf 25 (universe cfg env)) -> In s chunk ->
  taskResult (historyTask env s) = [] \/ chunkInTime env chunk = false ->
  forall stock, In stock data -> Stock.symbol stock <> s.
Proof.
  intros Hdata Hchunk Hs Hempty stock Hstock Hsym.
  destruct (stockUpdate_data cfg env healthy data Hdata) as (strategies & quoteResults & ->).
  apply mappedData_stock in Hstock as [_ (q & h & a & _ & Hh & Hne & _)].
  rewrite Hsym in Hh.
  rewrite (historicalDataMap_lookup env _ chunk s (universe_NoDup cfg env) Hchunk Hs) in Hh.
  injection Hh as <-. apply Hne. unfold historyOf.
  destruct Hempty as [-> | ->]; [destruct (chunkInTime env chunk)|]; reflexivity.
Qed.

Lemma symbol_without_history_is_not_broadcast_witness :
  exists data,
    In (stockUpdate data)
       (emitted (actions (fetchAndEmitStockUpdates config fastFailureEnv true)))
    /\ map Stock.symbol data = ["^NSEI"]
    /\ forall stock, In stock data -> Stock.symbol stock <> "RELIANCE.NS".
Proof.
  eexists. split; [vm_compute; left; reflexivity|]. split; [reflexivity|].
  eapply (symbol_without_history_is_not_broadcast config fastFailureEnv true _
            ["^NSEI"; "RELIANCE.NS"] "RELIANCE.NS").
  - vm_compute. left. reflexivity.
  - vm_compute. left. reflexivity.
  - right. left. reflexivity.
  - left. reflexivity.
Defined.

Lemma omap_symbols_sublist (f : string -> option Stock.t) (l : list string) :
  (forall s stock, f s = Some stock -> Stock.symbol stock = s) ->
  sublist (map Stock.symbol (omap f l)) l.
Proof.
  intros Hf. induction l as [|s l IH]; [constructor|].
  cbn [omap list_omap]. destruct (f s) as [stock|] eqn:Hs.
  - simpl. rewrite (Hf s stock Hs). apply sublist_skip, IH.
  - apply sublist_cons, IH.
Qed.

(** X10. The stocks of a broadcast come in the order of the resolved universe,
    each symbol at most once. *)
Theorem broadcast_follows_universe_order (cfg : Config) (env : Env) (healthy : bool)
    (data : list Stock.t) :
  In (stockUpdate data) (emitted (actions (fetchAndEmitStockUpdates cfg env healthy))) ->
  sublist (map Stock.symbol data) (universe cfg env)
  /\ List.NoDup (map Stock.symbol data).
Proof.
  intros Hdata.
  destruct (stockUpdate_data cfg env healthy data Hdata) as (strategies & quoteResults & ->).
  assert (Hsub : sublist (map Stock.symbol (mappedDataOf cfg env strategies quoteResults))
                   (universe cfg env)).
  { apply omap_symbols_sublist. intros s stock Hsome.
    apply analysisOf_Some in Hsome as (q & h & a & Hq & _ & _ & _ & ->).
    apply quotesMapOf_lookup in Hq as [Hsym _]. exact Hsym. }
  split; [exact Hsub|].
  apply NoDup_ListNoDup. eapply sublist_NoDup; [|exact Hsub].
  apply NoDup_ListNoDup, universe_NoDup.
Qed.

Lemma broadcast_follows_universe_order_witness :
  exists data,
    In (stockUpdate data)
       (emitted (actions (fetchAndEmitStockUpdates config slowSuccessEnv true)))
    /\ List.NoDup (map Stock.symbol data).
Proof.
  eexists. split; [vm_compute; left; reflexivity|].
  refine (proj2 (broadcast_follows_universe_order config slowSuccessEnv true _ _)).
  vm_compute. left. reflexivity.
Defined.

Lemma slice_last_suffix {A : Type} (n : nat) (l : list A) :
  exists earlier,
    l = earlier ++ slice_last n l /\ length (slice_last n l) = Nat.min n (length l).
Proof.
  unfold slice_last. exists (firstn (length l - n) l). split.
  - symmetry. apply firstn_skipn.
  - rewrite length_skipn. lia.
Qed.

(** X11. Each broadcast stock carries the dates and closing prices of the last
    bars of the series recorded for its symbol: all of them when there are
    at most 30, the 30 most recent otherwise, never none. *)
Theorem broadcast_history_is_last_thirty_bars (cfg : Config) (env : Env)
    (healthy : bool) (data : list Stock.t) :
  In (stockUpdate data) (emitted (actions (fetchAndEmitStockUpdates cfg env healthy))) ->
  forall stock, In stock data ->
    exists earlier recent,
      Map_from (historicalEntries env (universe cfg env)) !! Stock.symbol stock
        = Some (earlier ++ recent)
      /\ Stock.history stock = map (fun h => (Bar.date h, Bar.close h)) recent
      /\ length recent = Nat.min 30 (length (earlier ++ recent))
      /\ 1 <= length (Stock.history stock) <= 30.
Proof.
  intros Hdata stock Hstock.
  destruct (stockUpdate_data cfg env healthy data Hdata) as (strategies & quoteResults & ->).
  apply mappedData_stock in Hstock as [_ (q & h & a & _ & Hh & Hne & _ & ->)].
  destruct (slice_last_suffix 30 h) as (earlier & Hsplit & Hlen).
  exists earlier, (slice_last 30 h). rewrite <- Hsplit.
  simpl. repeat split; try assumption.
  - rewrite length_map, Hlen. destruct h; [congruence | simpl; lia].
  - rewrite length_map, Hlen. lia.
Qed.

Lemma broadcast_history_is_last_thirty_bars_witness :
  exists data,
    In (stockUpdate data)
       (emitted (actions (fetchAndEmitStockUpdates config slowSuccessEnv true)))
    /\ forall stock, In stock data -> 1 <= length (Stock.history stock) <= 30.
Proof.
  eexists. split; [vm_compute; left; reflexivity|].
  intros stock Hstock.
  edestruct (broadcast_history_is_last_thirty_bars config slowSuccessEnv true)
    as (earlier & recent & _ & _ & _ & Hlen); [| exact Hstock | exact Hlen].
  vm_compute. left. reflexivity.
Defined.

(** ** The strategy groups *)

Lemma groupByStrategy_fold mappedData :
  groupByStrategy mappedData =
  foldl (fun acc p => recordMatch p.1 acc p.2) (Resolved ∅) (allMatches mappedData).
Proof.
  unfold groupByStrategy, allMatches. generalize (Resolved (∅ : gmap string Group.t)) as acc.
  induction mappedData as [|stockData mappedData IH]; intros acc; [reflexivity|].
  simpl. rewrite foldl_app, IH. f_equal.
  generalize (Stock.customStrategyMatches stockData) as matches. intros matches.
  revert acc. induction matches as [|m matches IHm]; intros acc; [reflexivity|].
  simpl. apply IHm.
Qed.

Lemma matchesNamed_snoc name pairs p :
  matchesNamed name (pairs ++ [p]) =
  matchesNamed name pairs ++ (if String.eqb (Match.name p.2) name then [p] else []).
Proof. unfold matchesNamed. rewrite List.filter_app. reflexivity. Qed.

Lemma matchesNamed_In name pairs p :
  In p (matchesNamed name pairs) <-> In p pairs /\ Match.name p.2 = name.
Proof.
  unfold matchesNamed. rewrite filter_In, String.eqb_eq. reflexivity.
Qed.

(** Folding the matches either throws, when one of them is named like a
    property of [Object.prototype], or collects them by name. *)
Lemma fold_matches (pairs : list (Stock.t * Match.t)) :
  (Exists (fun p => In (Match.name p.2) Object_prototype_keys) pairs
   /\ foldl (fun acc p => recordMatch p.1 acc p.2) (Resolved ∅) pairs
      = Rejected "Cannot read properties of undefined (reading 'push')")
  \/ (Forall (fun p => ~ In (Match.name p.2) Object_prototype_keys) pairs
      /\ exists groups,
           foldl (fun acc p => recordMatch p.1 acc p.2) (Resolved ∅) pairs
             = Resolved groups
           /\ forall name, groups !! name = groupOf name pairs).
Proof.
  induction pairs as [|[stockData m] pairs IH] using rev_ind.
  - right. split; [constructor|]. exists ∅. split; [reflexivity|].
    intros name. rewrite lookup_empty. reflexivity.
  - rewrite foldl_snoc. cbn [fst snd].
    destruct IH as [[Hex ->] | (Hall & groups & -> & Hgroups)].
    + left. split; [apply List.Exists_app; left; exact Hex | reflexivity].
    + unfold recordMatch. rewrite Hgroups.
      destruct (groupOf (Match.name m) pairs) as [g|] eqn:Hg.
      * right. unfold groupOf in Hg.
        destruct (matchesNamed (Match.name m) pairs) as [|first rest] eqn:Hnamed;
          [discriminate|]. injection Hg as <-.
        assert (Hfirst : In first pairs /\ Match.name first.2 = Match.name m).
        { apply matchesNamed_In. rewrite Hnamed. left. reflexivity. }
        split.
        { apply List.Forall_app. split; [exact Hall|]. constructor; [|constructor].
          cbn [snd]. destruct Hfirst as [Hin <-].
          rewrite List.Forall_forall in Hall. apply (Hall first Hin). }
        eexists. split; [reflexivity|]. intros name.
        unfold groupOf. rewrite matchesNamed_snoc. cbn [snd].
        destruct (decide (Match.name m = name)) as [<- | Hne].
        -- rewrite lookup_insert_eq, String.eqb_refl, Hnamed. simpl.
           rewrite map_app. reflexivity.
        -- rewrite lookup_insert_ne by exact Hne.
           apply String.eqb_neq in Hne. rewrite Hne, app_nil_r.
           rewrite Hgroups. reflexivity.
      * case_bool_decide as Hproto.
        -- left. split; [|reflexivity]. apply List.Exists_app. right.
           constructor. cbn [snd]. apply list_elem_of_In, Hproto.
        -- right. split.
           { apply List.Forall_app. split; [exact Hall|]. constructor; [|constructor].
             cbn [snd]. intros Hin. apply Hproto, list_elem_of_In, Hin. }
           eexists. split; [reflexivity|]. intros name.
           unfold groupOf in *. rewrite matchesNamed_snoc. cbn [snd].
           destruct (matchesNamed (Match.name m) pairs) as [|first rest] eqn:Hnamed;
             [|discriminate].
           destruct (decide (Match.name m = name)) as [<- | Hne].
           ++ rewrite lookup_insert_eq, String.eqb_refl, Hnamed. reflexivity.
           ++ rewrite lookup_insert_ne by exact Hne.
              apply String.eqb_neq in Hne. rewrite Hne, app_nil_r.
              rewrite Hgroups. reflexivity.
Qed.

Lemma allMatches_In mappedData p :
  In p (allMatches mappedData) <->
  In p.1 mappedData /\ In p.2 (Stock.customStrategyMatches p.1).
Proof.
  unfold allMatches. rewrite in_flat_map. split.
  - intros (stockData & Hs & Hp). apply in_map_iff in Hp as (m & <- & Hm). auto.
  - intros [Hs Hm]. exists p.1. split; [exact Hs|].
    apply in_map_iff. exists p.2. split; [destruct p; reflexivity | exact Hm].
Qed.

(** X12. Grouping the matches throws a TypeError exactly when some stock has a
    match whose strategy is named like a property that every object
    inherits ("constructor", "toString", "valueOf", "__proto__", ...).  A
    cycle that has come through all its stages then ends with the error
    status and the fetch error, and none of its analyzed stocks is
    broadcast. *)
Theorem inherited_strategy_name_fails_the_cycle (cfg : Config) (env : Env)
    (mappedData : list Stock.t) :
  (groupByStrategy mappedData
     = Rejected "Cannot read properties of undefined (reading 'push')"
   <-> exists stock m,
         In stock mappedData /\ In m (Stock.customStrategyMatches stock)
         /\ In (Match.name m) Object_prototype_keys)
  /\ ((exists groups, groupByStrategy mappedData = Resolved groups)
      <-> forall stock m,
            In stock mappedData -> In m (Stock.customStrategyMatches stock) ->
            ~ In (Match.name m) Object_prototype_keys)
  /\ (forall strategies quoteResults,
        universe cfg env <> [] ->
        strategyRows env = Resolved strategies ->
        promiseWithTimeout (quote env (universe cfg env)) 20000
          "Yahoo Finance quote API call timed out" = Resolved quoteResults ->
        mappedData = mappedDataOf cfg env strategies quoteResults ->
        (exists stock m,
           In stock mappedData /\ In m (Stock.customStrategyMatches stock)
           /\ In (Match.name m) Object_prototype_keys) ->
        emitted (actions (fetchAndEmitStockUpdates cfg env true))
          = failureEvents "Cannot read properties of undefined (reading 'push')").
Proof.
  assert (Hrej : groupByStrategy mappedData
                   = Rejected "Cannot read properties of undefined (reading 'push')"
                 <-> exists stock m,
                       In stock mappedData /\ In m (Stock.customStrategyMatches stock)
                       /\ In (Match.name m) Object_prototype_keys).
  { rewrite groupByStrategy_fold.
    destruct (fold_matches (allMatches mappedData))
      as [[Hex ->] | (Hall & groups & -> & _)].
    - split; [intros _ | reflexivity].
      apply List.Exists_exists in Hex as ([stock m] & Hin & Hproto).
      apply allMatches_In in Hin as [Hs Hm]. exists stock, m. auto.
    - split; [discriminate|]. intros (stock & m & Hs & Hm & Hproto). exfalso.
      rewrite List.Forall_forall in Hall. apply (Hall (stock, m)); [|exact Hproto].
      apply allMatches_In. auto. }
  split; [exact Hrej|]. split.
  - destruct (groupByStrategy mappedData) as [groups | e] eqn:Hg.
    + split; [|eauto]. intros _ stock m Hs Hm Hproto.
      assert (Hbad : Resolved groups
                     = Rejected "Cannot read properties of undefined (reading 'push')").
      { apply Hrej. eauto. }
      discriminate.
    + assert (He : e = "Cannot read properties of undefined (reading 'push')").
      { rewrite groupByStrategy_fold in Hg.
        destruct (fold_matches (allMatches mappedData))
          as [[_ Hfold] | (_ & groups & Hfold & _)]; congruence. }
      subst e. split; [intros [groups [=]]|]. intros Hnone. exfalso.
      destruct Hrej as [Hrej _]. destruct (Hrej eq_refl) as (stock & m & Hs & Hm & Hproto).
      apply (Hnone stock m Hs Hm Hproto).
  - intros strategies quoteResults Hne Hstrat Hquote -> Hex.
    apply Hrej in Hex.
    pose proof (cycle_log cfg env strategies quoteResults Hne Hstrat Hquote) as Hlog.
    cbv zeta in Hlog. fold (mappedDataOf cfg env strategies quoteResults) in Hlog.
    rewrite Hlog, !emitted_app, fetchAllHistoricalData_emitted, analyzeAllStocks_emitted.
    unfold cycleEnd. rewrite Hex. reflexivity.
Qed.

Lemma inherited_strategy_name_fails_the_cycle_witness :
  emitted (actions (fetchAndEmitStockUpdates config shadowedNameEnv true))
    = [scanStatus "Scan failed: Cannot read properties of undefined (reading 'push')"
         "error";
       fetchError "Unified scan failed. The data provider might be temporarily unavailable."].
Proof.
  destruct (inherited_strategy_name_fails_the_cycle config shadowedNameEnv
              (mappedDataOf config shadowedNameEnv []
                 (map (fun s => Some (sampleQuote s)) ["^NSEI"; "RELIANCE.NS"])))
    as (_ & _ & Hcycle).
  apply (Hcycle [] (map (fun s => Some (sampleQuote s)) ["^NSEI"; "RELIANCE.NS"])).
  - vm_compute. discriminate.
  - reflexivity.
  - reflexivity.
  - reflexivity.
  - eexists. eexists. split; [vm_compute; left; reflexivity|].
    split; [left; reflexivity|]. vm_compute. auto 10.
Defined.

Lemma compareChangeDesc_key a b :
  (compareChangeDesc a b
   == (fun s => - num_or (Stock.change s) 0) a - (fun s => - num_or (Stock.change s) 0) b)%Q.
Proof. unfold compareChangeDesc. ring. Qed.

(** X13. When the grouping returns, there is one group for each strategy name
    that was matched: it has the type of the first match with this name and
    holds the stock of every match with this name, in the order of the
    matches.  What is broadcast of a group are at most ten of its stocks, in
    descending order of percent change, a missing change counting as 0. *)
Theorem strategy_groups_collect_matches_by_name (mappedData : list Stock.t)
    (groups : gmap string Group.t) :
  groupByStrategy mappedData = Resolved groups ->
  (forall name, groups !! name = groupOf name (allMatches mappedData))
  /\ (forall name g,
        (sortAndSlice <$> groups) !! name = Some g ->
        exists collected,
          groups !! name = Some collected
          /\ Group.type g = Group.type collected
          /\ length (Group.stocks g) = Nat.min 10 (length (Group.stocks collected))
          /\ StronglySorted
               (fun x y => (num_or (Stock.change y) 0 <= num_or (Stock.change x) 0)%Q)
               (Group.stocks g)
          /\ (forall x, In x (Group.stocks g) ->
                exists m, In x mappedData /\ In m (Stock.customStrategyMatches x)
                          /\ Match.name m = name)
          /\ (forall x y, In x (Group.stocks g) -> In y (Group.stocks collected) ->
                In y (Group.stocks g)
                \/ (num_or (Stock.change y) 0 <= num_or (Stock.change x) 0)%Q)).
Proof.
  intros Hgroup.
  assert (Hgroups : forall name, groups !! name = groupOf name (allMatches mappedData)).
  { rewrite groupByStrategy_fold in Hgroup.
    destruct (fold_matches (allMatches mappedData))
      as [[_ Hfold] | (_ & groups' & Hfold & Hg)]; [congruence|].
    rewrite Hfold in Hgroup. injection Hgroup as <-. exact Hg. }
  split; [exact Hgroups|].
  intros name g Hg. rewrite lookup_fmap in Hg.
  destruct (groups !! name) as [collected|] eqn:Hc; [|discriminate].
  injection Hg as <-. exists collected. split; [reflexivity|]. split; [reflexivity|].
  unfold sortAndSlice. cbn [Group.stocks].
  set (sorted := js_sort compareChangeDesc (Group.stocks collected)).
  split; [rewrite length_firstn; unfold sorted; rewrite js_sort_length; reflexivity|].
  split.
  { eapply StronglySorted_weaken;
      [|apply (firstn_sorted (fun s => - num_or (Stock.change s) 0)),
          (js_sort_sorted compareChangeDesc _ compareChangeDesc_key)].
    intros x y Hxy. unfold keyLe in Hxy. lra. }
  split.
  { intros x Hx. apply In_firstn in Hx. unfold sorted in Hx.
    apply (proj1 (js_sort_In compareChangeDesc x (Group.stocks collected))) in Hx.
    assert (Hstocks : Group.stocks collected
                      = map fst (matchesNamed name (allMatches mappedData))).
    { rewrite Hgroups in Hc. unfold groupOf in Hc.
      destruct (matchesNamed name (allMatches mappedData)); [discriminate|].
      injection Hc as <-. reflexivity. }
    rewrite Hstocks in Hx.
    apply in_map_iff in Hx as ([x' m] & <- & Hin).
    apply matchesNamed_In in Hin as [Hin Hname].
    apply allMatches_In in Hin as [Hs Hm]. exists m. auto. }
  intros x y Hx Hy.
  apply (proj2 (js_sort_In compareChangeDesc y (Group.stocks collected))) in Hy.
  fold sorted in Hy.
  rewrite <- (firstn_skipn 10 sorted) in Hy.
  apply in_app_or in Hy as [Hy | Hy]; [left; exact Hy | right].
  pose proof (js_sort_top compareChangeDesc _ compareChangeDesc_key 10
                (Group.stocks collected) x y Hx Hy) as Hle.
  unfold keyLe in Hle. lra.
Qed.

Lemma strategy_groups_collect_matches_by_name_witness :
  exists groups,
    groupByStrategy matchedStocks = Resolved groups
    /\ map Stock.symbol (default [] (Group.stocks <$> groups !! "Breakout"))
       = ["TCS.NS"; "INFY.NS"]
    /\ forall name, groups !! name = groupOf name (allMatches matchedStocks).
Proof.
  eexists. split; [vm_compute; reflexivity|]. split; [vm_compute; reflexivity|].
  eapply (proj1 (strategy_groups_collect_matches_by_name matchedStocks _ _)).
  Unshelve. vm_compute. reflexivity.
Defined.

(** ** The order of a cycle's actions *)

Lemma analyzeAllStocks_actions env symbols quotesMap historicalDataMap strategies :
  forallb isAnalysisStageAction
    (actions (analyzeAllStocks env symbols quotesMap historicalDataMap strategies)) = true.
Proof.
  rewrite analyzeAllStocks_eq. unfold actions; cbn [fst].
  apply forallb_concat. intros l Hl. apply in_map_iff in Hl as (k & <- & _).
  rewrite forallb_app. apply andb_true_iff. split.
  - simpl. apply forallb_concat. intros l Hl. unfold analysisCalls in Hl.
    rewrite map_map in Hl. apply in_map_iff in Hl as (s & <- & _).
    rewrite analyzeSymbol_log.
    destruct (requestFor quotesMap historicalDataMap strategies s) as [request|] eqn:Hr;
      [|reflexivity].
    unfold requestFor in Hr. destruct (quotesMap !! s); [|discriminate].
    destruct (historicalDataMap !! s) as [[|]|]; try discriminate.
    injection Hr as <-. reflexivity.
  - destruct (S k <? chunkCount 10 symbols); reflexivity.
Qed.

(** X14. In a cycle whose historical chunks all settle within their 20 s, the
    actions fall into four consecutive phases: the queries (the database,
    and the quote provider at most once, for the whole universe and never
    for an empty list); the historical stage; the analysis stage; the
    emissions of the cycle.  No task of the historical stage is left
    running, so that no analysis request is sent before the last history
    call has been made, and the cycle emits nothing before its last
    call. *)
Theorem cycle_actions_in_four_phases (cfg : Config) (env : Env) (healthy : bool) :
  (forall chunk, In chunk (chunksOf 25 (universe cfg env)) ->
     chunkInTime env chunk = true) ->
  (forall chunk, In chunk (chunksOf 25 (universe cfg env)) ->
     abandonedRetries env chunk = [])
  /\ exists queries history analysis emissions,
       actions (fetchAndEmitStockUpdates cfg env healthy)
         = queries ++ history ++ analysis ++ emissions
       /\ forallb isQuery queries = true
       /\ forallb isHistoricalStageAction history = true
       /\ forallb isAnalysisStageAction analysis = true
       /\ forallb isEmit emissions = true
       /\ length (List.filter isQuoteCall queries) <= 1
       /\ forall symbols, In (QuoteCall symbols) queries ->
            symbols = universe cfg env /\ symbols <> [].
Proof.
  intros HinTime.
  split; [intros chunk Hchunk; apply chunk_in_time_keeps_all, HinTime, Hchunk|].
  clear HinTime. destruct healthy.
  2:{ exists [], [], [], [Emit pausedStatus]. repeat split; try reflexivity.
      - simpl. lia.
      - destruct H.
      - destruct H. }
  destruct (universe cfg env) as [|s0 rest] eqn:Hu.
  { exists [DbAll "SELECT DISTINCT symbol FROM watchlists"], [], [], [].
    rewrite (empty_universe_log cfg env Hu). repeat split; try reflexivity.
    - simpl. lia.
    - destruct H as [[=] | []].
    - destruct H as [[=] | []]. }
  assert (Hne : universe cfg env <> []) by (rewrite Hu; discriminate).
  rewrite <- Hu.
  destruct (strategyRows env) as [strategies | e] eqn:Hstrat.
  2:{ exists [DbAll "SELECT DISTINCT symbol FROM watchlists";
              DbAll "SELECT * FROM strategies"], [], [], (map Emit (failureEvents e)).
      rewrite (strategies_failure_log cfg env e Hne Hstrat).
      repeat split; try reflexivity.
      - simpl. lia.
      - destruct H as [[=] | [[=] | []]].
      - destruct H as [[=] | [[=] | []]]. }
  assert (Hq : forall symbols,
            In (QuoteCall symbols)
               [DbAll "SELECT DISTINCT symbol FROM watchlists";
                DbAll "SELECT * FROM strategies"; QuoteCall (universe cfg env)] ->
            symbols = universe cfg env /\ symbols <> []).
  { intros symbols [[=] | [[=] | [[= <-] | []]]]. split; [reflexivity | exact Hne]. }
  destruct (promiseWithTimeout (quote env (universe cfg env)) 20000
              "Yahoo Finance quote API call timed out") as [quoteResults | e] eqn:Hquote.
  2:{ exists [DbAll "SELECT DISTINCT symbol FROM watchlists";
              DbAll "SELECT * FROM strategies"; QuoteCall (universe cfg env)],
             [], [], (map Emit (failureEvents e)).
      rewrite (quote_failure_log cfg env strategies e Hne Hstrat Hquote).
      split; [reflexivity|]. repeat split; try reflexivity; try (simpl; lia);
        apply Hq; assumption. }
  pose proof (cycle_log cfg env strategies quoteResults Hne Hstrat Hquote) as Hlog.
  cbv zeta in Hlog. eexists _, _, _, _. split; [exact Hlog|].
  split; [reflexivity|].
  split; [apply fetchAllHistoricalData_actions|].
  split; [apply analyzeAllStocks_actions|].
  split; [unfold cycleEnd; destruct (groupByStrategy _); reflexivity|].
  split; [simpl; lia | exact Hq].
Qed.

Lemma cycle_actions_in_four_phases_witness :
  abandonedRetries slowSuccessEnv ["^NSEI"; "RELIANCE.NS"] = []
  /\ exists queries history analysis emissions,
       actions (fetchAndEmitStockUpdates config slowSuccessEnv true)
         = queries ++ history ++ analysis ++ emissions
       /\ forallb isQuery queries = true
       /\ forallb isHistoricalStageAction history = true
       /\ forallb isAnalysisStageAction analysis = true
       /\ forallb isEmit emissions = true.
Proof.
  assert (HinTime : forall chunk,
            In chunk (chunksOf 25 (universe config slowSuccessEnv)) ->
            chunkInTime slowSuccessEnv chunk = true).
  { intros chunk [<- | []]. reflexivity. }
  destruct (cycle_actions_in_four_phases config slowSuccessEnv true HinTime)
    as (Hnone & queries & history & analysis & emissions & Hlog & Hq & Hh & Ha & He & _).
  split; [apply Hnone; left; reflexivity|].
  exists queries, history, analysis, emissions. auto.
Defined.

(** ** The availability flag over a run *)

Lemma handle_flag cfg st i :
  isPythonServiceHealthy (handle cfg st i).1
  = default (isPythonServiceHealthy st) (flagSetter i).
Proof.
  destruct i as [[u | e] | [ | | ] | socketId | trigger env]; simpl; try reflexivity.
  - destruct (isPythonServiceHealthy st) eqn:H; simpl; [exact H | reflexivity].
  - destruct (isPythonServiceHealthy st) eqn:H; simpl; [reflexivity | exact H].
Qed.

Lemma run_flag cfg st inputs :
  isPythonServiceHealthy (run cfg st inputs).1
  = default (isPythonServiceHealthy st) (last (omap flagSetter inputs)).
Proof.
  revert st. induction inputs as [|i inputs IH]; intros st; [reflexivity|].
  simpl run. destruct (handle cfg st i) as [st1 log] eqn:Hh.
  specialize (IH st1). destruct (run cfg st1 inputs) as [st2 logs].
  cbn [fst] in *.
  rewrite IH. pose proof (handle_flag cfg st i) as Hflag. rewrite Hh in Hflag.
  cbn [fst] in Hflag. rewrite Hflag.
  change (omap flagSetter (i :: inputs))
    with (match flagSetter i with
          | Some b => b :: omap flagSetter inputs
          | None => omap flagSetter inputs
          end).
  generalize (omap flagSetter inputs) as l. intros l.
  destruct (flagSetter i) as [b|]; [|reflexivity].
  destruct l as [|b' l]; [reflexivity|].
  change (last (b :: b' :: l)) with (last (b' :: l)).
  destruct (last (b' :: l)) eqn:Hlast; [reflexivity|].
  apply last_None in Hlast. discriminate.
Qed.

(** X15. After any run the flag is what the last health probe or breaker event
    of the run made it: true after a successful probe or a close event,
    false after a failed probe or an open event, whichever came last; scans,
    connections and half-open events leave it alone, so that without any
    such input it is unchanged.  In particular a successful probe reopens
    the gate while the breaker is open. *)
Theorem flag_follows_last_probe_or_breaker_event (cfg : Config) (st : Server)
    (inputs : list Input) :
  isPythonServiceHealthy (run cfg st inputs).1
  = default (isPythonServiceHealthy st) (last (omap flagSetter inputs)).
Proof. apply run_flag. Qed.

Lemma healthUpdates_probe st probe :
  healthUpdates (checkPythonServiceHealth probe st).2
  = changes (isPythonServiceHealthy st) [probeOutcome probe]
  /\ isPythonServiceHealthy (checkPythonServiceHealth probe st).1 = probeOutcome probe.
Proof.
  destruct probe as [u | e], (isPythonServiceHealthy st) eqn:H; simpl; rewrite H; auto.
Qed.

(** The values that differ from their predecessor alternate. *)
Lemma changes_alternate previous values :
  match changes previous values with
  | [] => True
  | b :: _ => b = negb previous
  end
  /\ forall l1 b1 b2 l2, changes previous values = l1 ++ b1 :: b2 :: l2 -> b2 = negb b1.
Proof.
  revert previous. induction values as [|b values IH]; intros previous.
  - split; [exact I|]. intros l1 b1 b2 l2 H. destruct l1; discriminate.
  - simpl. destruct (IH b) as [Hhead Htail].
    destruct (Bool.eqb previous b) eqn:Heq.
    + apply Bool.eqb_prop in Heq. subst. split; assumption.
    + split; [destruct previous, b; try reflexivity; discriminate|].
      intros [|b0 l1] b1 b2 l2 H.
      * injection H as <- H. rewrite H in Hhead. exact Hhead.
      * injection H as <- H. eapply Htail, H.
Qed.

Lemma probes_updates cfg (probes : list (Settled unit)) st :
  healthUpdates (concat (run cfg st (map HealthProbe probes)).2)
    = changes (isPythonServiceHealthy st) (map probeOutcome probes)
  /\ Forall (fun log => length log <= 1) (run cfg st (map HealthProbe probes)).2.
Proof.
  revert st. induction probes as [|probe probes IH]; intros st.
  - split; [reflexivity | constructor].
  - simpl map. simpl run.
    destruct (healthUpdates_probe st probe) as [Hup Hflag].
    destruct (checkPythonServiceHealth probe st) as [st1 log] eqn:Hc.
    destruct (IH st1) as [IHup IHlen].
    destruct (run cfg st1 (map HealthProbe probes)) as [st2 logs]. simpl in *.
    split.
    + unfold healthUpdates in *. rewrite omap_app, IHup, Hup, Hflag.
      destruct (Bool.eqb (isPythonServiceHealthy st) (probeOutcome probe)); reflexivity.
    + constructor; [|exact IHlen].
      assert (log = (checkPythonServiceHealth probe st).2) as -> by (rewrite Hc; reflexivity).
      unfold checkPythonServiceHealth.
      destruct probe, (isPythonServiceHealthy st); simpl; lia.
Qed.

Lemma probes_final_flag cfg (probes : list (Settled unit)) st :
  isPythonServiceHealthy (run cfg st (map HealthProbe probes)).1
  = default (isPythonServiceHealthy st) (last (map probeOutcome probes)).
Proof.
  revert st. induction probes as [|probe probes IH]; intros st; [reflexivity|].
  simpl map. simpl run.
  destruct (healthUpdates_probe st probe) as [_ Hflag].
  destruct (checkPythonServiceHealth probe st) as [st1 log].
  specialize (IH st1).
  destruct (run cfg st1 (map HealthProbe probes)) as [st2 logs].
  cbn [fst snd] in *. rewrite IH, Hflag.
  destruct (map probeOutcome probes) as [|b l]; [reflexivity|].
  change (last (probeOutcome probe :: b :: l)) with (last (b :: l)).
  destruct (last (b :: l)) eqn:Hlast; [reflexivity|].
  apply last_None in Hlast. discriminate.
Qed.

(** X16. Health probes report changes only: over any sequence of probes, the
    availability events that are broadcast are the probe outcomes that
    differ from the flag left by the probe before, the first one from the
    flag at the start; a probe that confirms the flag emits nothing.  The
    broadcast values therefore alternate, and the flag ends as the outcome of
    the last probe. *)
Theorem probes_report_changes_only (cfg : Config) (st : Server)
    (probes : list (Settled unit)) :
  healthUpdates (concat (run cfg st (map HealthProbe probes)).2)
    = changes (isPythonServiceHealthy st) (map probeOutcome probes)
  /\ Forall (fun log => length log <= 1) (run cfg st (map HealthProbe probes)).2
  /\ (forall l1 b1 b2 l2,
        healthUpdates (concat (run cfg st (map HealthProbe probes)).2)
          = l1 ++ b1 :: b2 :: l2 ->
        b2 = negb b1)
  /\ isPythonServiceHealthy (run cfg st (map HealthProbe probes)).1
       = default (isPythonServiceHealthy st) (last (map probeOutcome probes)).
Proof.
  destruct (probes_updates cfg probes st) as [Hup Hlen].
  split; [exact Hup|]. split; [exact Hlen|]. split.
  - intros l1 b1 b2 l2 H. rewrite Hup in H.
    eapply (proj2 (changes_alternate _ _)), H.
  - apply probes_final_flag.
Qed.


(** ** The watchlist endpoints *)

Lemma selectSymbolsOf_In userId t s :
  In s (selectSymbolsOf userId t) <-> In (userId, s) t.
Proof.
  unfold selectSymbolsOf.
  assert (Hsort : forall l, In s (merge_sort symbolLe l) <-> In s l).
  { intros l. split; apply Permutation_in; [|symmetry]; apply merge_sort_Permutation. }
  rewrite Hsort, in_map_iff. split.
  - intros ([u s'] & <- & Hrow). apply filter_In in Hrow as [Hrow Hu].
    simpl in Hu. apply String.eqb_eq in Hu. subst. exact Hrow.
  - intros Hrow. exists (userId, s). split; [reflexivity|].
    apply filter_In. split; [exact Hrow | apply String.eqb_refl].
Qed.

Lemma insertOrIgnore_In userId symbol t row :
  In row (insertOrIgnore userId symbol t) <-> In row t \/ row = (userId, symbol).
Proof.
  unfold insertOrIgnore. case_bool_decide as Hin.
  - apply list_elem_of_In in Hin. split; [tauto|]. intros [H | ->]; assumption.
  - rewrite in_app_iff. simpl. split; intros [H | H]; try tauto.
    + destruct H as [<- | []]. right. reflexivity.
    + right. left. symmetry. exact H.
Qed.

Lemma insertOrIgnore_NoDup userId symbol t :
  List.NoDup t -> List.NoDup (insertOrIgnore userId symbol t).
Proof.
  intros Hnd. unfold insertOrIgnore. case_bool_decide as Hin; [exact Hnd|].
  apply NoDup_ListNoDup, NoDup_app. repeat split.
  - apply NoDup_ListNoDup, Hnd.
  - intros y Hy Hy'. apply list_elem_of_singleton in Hy'. subst. contradiction.
  - apply NoDup_singleton.
Qed.

Lemma deleteWhere_In userId symbol t row :
  In row (deleteWhere userId symbol t) <-> In row t /\ row <> (userId, symbol).
Proof.
  unfold deleteWhere. rewrite filter_In, negb_true_iff, bool_decide_eq_false.
  reflexivity.
Qed.

Lemma filter_all {A : Type} (p : A -> bool) (l : list A) :
  (forall x, In x l -> p x = true) -> List.filter p l = l.
Proof.
  induction l as [|x l IH]; intros H; [reflexivity|].
  simpl. rewrite H by (left; reflexivity). f_equal. apply IH.
  intros y Hy. apply H. right. exact Hy.
Qed.

Lemma selectSymbolsOf_other userId other t t' :
  (forall s, In (other, s) t' <-> In (other, s) t) ->
  other <> userId ->
  forall s, In s (selectSymbolsOf other t') <-> In s (selectSymbolsOf other t).
Proof. intros H _ s. rewrite !selectSymbolsOf_In. apply H. Qed.

(** X19. Adding a symbol to a watchlist: a request with a non-empty symbol is
    answered 201 and triggers a scan; afterwards the user's list holds the
    symbol and what it held before, the lists of the other users are
    unchanged, and the table still has no duplicate row.  Adding is
    idempotent, and removing a newly added symbol gives the table back. *)
Theorem watchlist_add_then_read (t : Watchlists) (userId symbol : string) :
  List.NoDup t -> symbol <> "" ->
  let handled := postWatchlist None userId (Some symbol) t in
  status (response handled) = 201
  /\ scanTriggered handled = true
  /\ List.NoDup (table handled)
  /\ (exists symbols,
        getWatchlist None userId (table handled)
          = {| status := 200; body := jsonSymbols symbols |}
        /\ forall s, In s symbols <-> s = symbol \/ In s (selectSymbolsOf userId t))
  /\ (forall other, other <> userId ->
        getWatchlist None other (table handled) = getWatchlist None other t)
  /\ table (postWatchlist None userId (Some symbol) (table handled)) = table handled
  /\ (~ In (userId, symbol) t ->
      table (deleteWatchlist None userId symbol (table handled)) = t).
Proof.
  intros Hnd Hsym handled.
  assert (Htable : table handled = insertOrIgnore userId symbol t
                   /\ status (response handled) = 201 /\ scanTriggered handled = true).
  { subst handled. unfold postWatchlist. simpl.
    destruct (String.eqb symbol "") eqn:He; [apply String.eqb_eq in He; contradiction|].
    auto. }
  destruct Htable as (Htable & Hstatus & Hscan).
  split; [exact Hstatus|]. split; [exact Hscan|]. rewrite Htable.
  split; [apply insertOrIgnore_NoDup, Hnd|]. split.
  { eexists. split; [reflexivity|]. intros s.
    rewrite !selectSymbolsOf_In, insertOrIgnore_In. split.
    - intros [H | [= ->]]; auto.
    - intros [-> | H]; auto. }
  split.
  { intros other Hother. unfold getWatchlist. f_equal. f_equal.
    unfold selectSymbolsOf, insertOrIgnore. case_bool_decide; [reflexivity|].
    rewrite List.filter_app. simpl.
    destruct (String.eqb userId other) eqn:He;
      [apply String.eqb_eq in He; congruence|].
    rewrite app_nil_r. reflexivity. }
  split.
  { unfold postWatchlist. simpl.
    destruct (String.eqb symbol "") eqn:He; [apply String.eqb_eq in He; contradiction|].
    simpl. unfold insertOrIgnore at 1. case_bool_decide as Hin; [reflexivity|].
    exfalso. apply Hin, list_elem_of_In, insertOrIgnore_In. right. reflexivity. }
  intros Hfresh. simpl. unfold insertOrIgnore. case_bool_decide as Hin.
  { apply list_elem_of_In in Hin. contradiction. }
  unfold deleteWhere. rewrite List.filter_app. simpl.
  rewrite bool_decide_eq_true_2 by reflexivity. simpl. rewrite app_nil_r.
  apply filter_all. intros row Hrow. apply negb_true_iff, bool_decide_eq_false.
  intros ->. contradiction.
Qed.

Lemma watchlist_add_then_read_witness :
  List.NoDup sampleWatchlists
  /\ getWatchlist None "alice"
       (table (postWatchlist None "alice" (Some "INFY.NS") sampleWatchlists))
     = {| status := 200; body := jsonSymbols ["INFY.NS"; "TCS.NS"] |}
  /\ getWatchlist None "bob"
       (table (postWatchlist None "alice" (Some "INFY.NS") sampleWatchlists))
     = getWatchlist None "bob" sampleWatchlists.
Proof.
  assert (Hnd : List.NoDup sampleWatchlists).
  { apply NoDup_ListNoDup. apply (bool_decide_unpack _). vm_compute. exact I. }
  split; [exact Hnd|]. split; [reflexivity|].
  assert (Hne : "INFY.NS" <> "") by discriminate.
  destruct (watchlist_add_then_read sampleWatchlists "alice" "INFY.NS" Hnd Hne)
    as (_ & _ & _ & _ & Hother & _).
  apply Hother. discriminate.
Defined.

(** X20. Removing a symbol from a watchlist is answered 200 and triggers a scan,
    whether or not the symbol was on the list; afterwards the user's list
    holds what it held before except that symbol, and the lists of the other
    users, also of those who track the same symbol, are unchanged. *)
Theorem watchlist_remove_then_read (t : Watchlists) (userId symbol : string) :
  List.NoDup t ->
  let handled := deleteWatchlist None userId symbol t in
  status (response handled) = 200
  /\ scanTriggered handled = true
  /\ List.NoDup (table handled)
  /\ (forall s, In s (selectSymbolsOf userId (table handled))
                <-> In s (selectSymbolsOf userId t) /\ s <> symbol)
  /\ (forall other, other <> userId ->
        getWatchlist None other (table handled) = getWatchlist None other t)
  /\ (~ In (userId, symbol) t -> table handled = t).
Proof.
  intros Hnd handled. subst handled. simpl.
  split; [reflexivity|]. split; [reflexivity|]. split.
  { apply NoDup_ListNoDup. unfold deleteWhere.
    apply NoDup_ListNoDup in Hnd. clear -Hnd.
    induction Hnd as [|row t Hnotin Hnd IH]; simpl; [constructor|].
    destruct (negb (bool_decide (row = (userId, symbol)))); [|exact IH].
    constructor; [|exact IH]. intros Hin. apply Hnotin.
    apply list_elem_of_In in Hin. apply filter_In in Hin as [Hin _].
    apply list_elem_of_In, Hin. }
  split.
  { intros s. rewrite !selectSymbolsOf_In, deleteWhere_In. split.
    - intros [Hin Hne]. split; [exact Hin|]. intros ->. apply Hne. reflexivity.
    - intros [Hin Hne]. split; [exact Hin|]. intros [= ->]. apply Hne. reflexivity. }
  split.
  { intros other Hother. unfold getWatchlist. f_equal. f_equal.
    unfold selectSymbolsOf, deleteWhere. f_equal. f_equal.
    clear Hnd. induction t as [|[u s] t IH]; [reflexivity|]. simpl.
    destruct (String.eqb u other) eqn:Hu.
    - apply String.eqb_eq in Hu. subst u.
      rewrite bool_decide_eq_false_2 by congruence. simpl.
      rewrite String.eqb_refl. f_equal. exact IH.
    - destruct (negb (bool_decide _)); simpl; rewrite ?Hu; exact IH. }
  intros Hfresh. apply filter_all. intros row Hrow.
  apply negb_true_iff, bool_decide_eq_false. intros ->. contradiction.
Qed.

Lemma watchlist_remove_then_read_witness :
  List.NoDup sampleWatchlists
  /\ getWatchlist None "bob"
       (table (deleteWatchlist None "alice" "TCS.NS" sampleWatchlists))
     = {| status := 200; body := jsonSymbols ["INFY.NS"; "TCS.NS"] |}.
Proof.
  assert (Hnd : List.NoDup sampleWatchlists).
  { apply NoDup_ListNoDup. apply (bool_decide_unpack _). vm_compute. exact I. }
  split; [exact Hnd|].
  destruct (watchlist_remove_then_read sampleWatchlists "alice" "TCS.NS" Hnd)
    as (_ & _ & _ & _ & Hother & _).
  rewrite Hother by discriminate. reflexivity.
Defined.

Lemma selectDistinctSymbols_In t s :
  In s (selectDistinctSymbols t) <-> exists userId, In (userId, s) t.
Proof.
  unfold selectDistinctSymbols.
  rewrite foldl_Set_add_In, in_map_iff.
  split; [intros [[] | H]; revert H | intros H; right; revert H].
  - intros ([u s'] & <- & Hrow). exists u. exact Hrow.
  - intros (u & Hrow). exists (u, s). split; [reflexivity | exact Hrow].
Qed.

Lemma readingWatchlists_universe cfg env t s :
  In s (universe cfg (readingWatchlists env t)) <->
  In s (defaultSymbols cfg) \/ exists userId, In (userId, s) t.
Proof.
  rewrite universe_In. simpl. split.
  - intros [H | (l & [= <-] & H)]; [left; exact H|].
    right. apply selectDistinctSymbols_In, H.
  - intros [H | H]; [left; exact H|]. right.
    eexists. split; [reflexivity|]. apply selectDistinctSymbols_In, H.
Qed.

(** X21. The scan that an accepted watchlist request triggers reads the changed
    table: after adding, the tracked symbols are the defaults, the added
    symbol and the symbols of the rows there were; after removing, the
    defaults and the symbols of the rows that are left, so that a symbol
    another user still tracks, or a default symbol, stays tracked. *)
Theorem watchlist_change_reaches_the_triggered_scan (cfg : Config) (env : Env)
    (t : Watchlists) (userId symbol : string) :
  symbol <> "" ->
  (exists symbols,
     getCombinedTrackedSymbols cfg
       (readingWatchlists env (table (postWatchlist None userId (Some symbol) t)))
       = ([DbAll "SELECT DISTINCT symbol FROM watchlists"], Resolved symbols)
     /\ List.NoDup symbols
     /\ forall s, In s symbols <->
          In s (defaultSymbols cfg) \/ s = symbol \/ exists u, In (u, s) t)
  /\ (exists symbols,
        getCombinedTrackedSymbols cfg
          (readingWatchlists env (table (deleteWatchlist None userId symbol t)))
          = ([DbAll "SELECT DISTINCT symbol FROM watchlists"], Resolved symbols)
        /\ List.NoDup symbols
        /\ (forall s, In s symbols <->
              In s (defaultSymbols cfg)
              \/ exists u, In (u, s) t /\ (u, s) <> (userId, symbol))
        /\ (In symbol symbols <->
              In symbol (defaultSymbols cfg)
              \/ exists u, u <> userId /\ In (u, symbol) t)).
Proof.
  intros Hsym. split.
  - eexists. split; [apply getCombinedTrackedSymbols_eq|].
    split; [apply universe_NoDup|]. intros s.
    rewrite readingWatchlists_universe. unfold postWatchlist. simpl.
    destruct (String.eqb symbol "") eqn:He; [apply String.eqb_eq in He; contradiction|].
    simpl. split.
    + intros [H | (u & H)]; [left; exact H|]. right.
      apply insertOrIgnore_In in H as [H | [= _ ->]]; [right; eauto | left; reflexivity].
    + intros [H | [-> | (u & H)]]; [left; exact H | right..].
      * exists userId. apply insertOrIgnore_In. right. reflexivity.
      * exists u. apply insertOrIgnore_In. left. exact H.
  - assert (Hall : forall s,
        In s (universe cfg
                (readingWatchlists env (table (deleteWatchlist None userId symbol t))))
        <-> In s (defaultSymbols cfg)
            \/ exists u, In (u, s) t /\ (u, s) <> (userId, symbol)).
    { intros s. rewrite readingWatchlists_universe. simpl.
      split; (intros [H | (u & H)]; [left; exact H|]); right; exists u;
        apply deleteWhere_In, H. }
    eexists. split; [apply getCombinedTrackedSymbols_eq|].
    split; [apply universe_NoDup|]. split; [exact Hall|].
    rewrite Hall. split.
    + intros [H | (u & H & Hne)]; [left; exact H|]. right. exists u.
      split; [|exact H]. intros ->. apply Hne. reflexivity.
    + intros [H | (u & Hne & H)]; [left; exact H|]. right. exists u.
      split; [exact H|]. intros [= ->]. apply Hne. reflexivity.
Qed.

Lemma watchlist_change_reaches_the_triggered_scan_witness :
  result (getCombinedTrackedSymbols config
            (readingWatchlists quietEnv
               (table (postWatchlist None "alice" (Some "INFY.NS") sampleWatchlists))))
    = Resolved ["^NSEI"; "RELIANCE.NS"; "TCS.NS"; "INFY.NS"]
  /\ exists symbols,
       getCombinedTrackedSymbols config
         (readingWatchlists quietEnv
            (table (deleteWatchlist None "alice" "TCS.NS" sampleWatchlists)))
         = ([DbAll "SELECT DISTINCT symbol FROM watchlists"], Resolved symbols)
       /\ In "TCS.NS" symbols.
Proof.
  split; [reflexivity|].
  assert (Hne : "TCS.NS" <> "") by discriminate.
  destruct (watchlist_change_reaches_the_triggered_scan config quietEnv
              sampleWatchlists "alice" "TCS.NS" Hne)
    as (_ & symbols & Heq & _ & _ & Hin).
  exists symbols. split; [exact Heq|]. apply Hin. right.
  exists "bob". split; [discriminate|]. simpl. tauto.
Defined.

(** X22. What precedes the table: a request without a symbol is answered 400
    whatever the state of the database, and a request that is not answered
    201 (or 200 for a removal) leaves the table as it was and triggers no
    scan. *)
Theorem watchlist_refused_request_has_no_effect (dbError : option string)
    (userId : string) (t : Watchlists) :
  (forall symbol,
     let handled := postWatchlist dbError userId symbol t in
     (str_falsy symbol = true -> status (response handled) = 400)
     /\ (scanTriggered handled = true <-> status (response handled) = 201)
     /\ (status (response handled) <> 201 ->
         table handled = t
         /\ (status (response handled) = 400 \/ status (response handled) = 500)))
  /\ (forall symbol,
        let handled := deleteWatchlist dbError userId symbol t in
        (scanTriggered handled = true <-> status (response handled) = 200)
        /\ (status (response handled) <> 200 ->
            table handled = t /\ status (response handled) = 500)).
Proof.
  split; intros symbol handled; subst handled.
  - unfold postWatchlist.
    destruct (str_falsy symbol) eqn:Hf, dbError as [e|]; simpl;
      repeat split; try discriminate; try congruence; auto.
  - unfold deleteWatchlist. destruct dbError as [e|]; simpl;
      repeat split; try discriminate; try congruence.
Qed.

(** ** Connections *)

Lemma run_app cfg st inputs1 inputs2 :
  run cfg st (inputs1 ++ inputs2)
  = ((run cfg (run cfg st inputs1).1 inputs2).1,
     (run cfg st inputs1).2 ++ (run cfg (run cfg st inputs1).1 inputs2).2).
Proof.
  revert st. induction inputs1 as [|i inputs1 IH]; intros st.
  - simpl. destruct (run cfg st inputs2); reflexivity.
  - simpl. destruct (handle cfg st i) as [st1 log].
    rewrite IH. destruct (run cfg st1 inputs1) as [st2 logs]. simpl.
    destruct (run cfg st2 inputs2); reflexivity.
Qed.

Lemma run_length cfg st inputs : length (run cfg st inputs).2 = length inputs.
Proof.
  revert st. induction inputs as [|i inputs IH]; intros st; [reflexivity|].
  simpl. destruct (handle cfg st i) as [st1 log]. specialize (IH st1).
  destruct (run cfg st1 inputs). simpl in *. f_equal. exact IH.
Qed.

(** X23. A client that connects is sent one event, on its own socket: the
    availability flag as the last health probe or breaker event before the
    connection left it, the initial value when there was none.  Nothing is
    broadcast on a connection, and the flag is not changed by it. *)
Theorem new_client_is_sent_current_flag (cfg : Config) (st : Server)
    (before after : list Input) (socketId : string) :
  (run cfg st (before ++ Connection socketId :: after)).2 !! length before
  = Some [SocketEmit socketId
            (pythonHealthUpdate
               (default (isPythonServiceHealthy st)
                        (last (omap flagSetter before))))]
  /\ isPythonServiceHealthy
       (run cfg st (before ++ [Connection socketId])).1
     = isPythonServiceHealthy (run cfg st before).1.
Proof.
  split.
  - rewrite run_app. cbn [snd].
    rewrite lookup_app_r by (rewrite run_length; lia).
    rewrite run_length, Nat.sub_diag. simpl.
    destruct (run cfg (run cfg st before).1 after). simpl.
    rewrite run_flag. reflexivity.
  - rewrite run_app. reflexivity.
Qed.
